(** * Zavion: the capture / classify / segment / aggregate pipeline

    A shallow embedding of the core of the Zavion desktop assistant:

    - [LLMHelper.analyzeWorkSessions], the gap-based session segmentation;
    - [LLMHelper.retryWithBackoff], [LLMHelper.classifyProductivityActivity]
      and [LLMHelper.generateDailyInsights], the two paths that talk to the
      external model;
    - [ScreenshotHelper.takeScreenshot], the on-demand capture with its two
      bounded queues;
    - [StorageHelper.getDailyStats], the daily aggregator;
    - the rest of these classes and what uses them: the periodic capture of
      [ScreenshotHelper], [StorageHelper.getHourlyBreakdown], the application
      state of main.ts, the window helper's showing and hiding, the screenshot
      shortcut and the handlers of [generate-daily-insights] and
      [get-hourly-breakdown].

    JavaScript numbers that go through genuine floating-point arithmetic
    (the statistics of [getDailyStats]) are binary64 values ([PrimFloat]);
    timestamps are integer milliseconds since the epoch ([Z]), with [None]
    standing for an Invalid Date (a [NaN] time value). *)

From Stdlib Require Import ZArith Ascii String List Sorted Lia PrimFloat Uint63.
From stdpp Require Import base option list sorting strings pretty gmap.

Local Open Scope string_scope.
Local Open Scope list_scope.
Local Open Scope Z_scope.

(** ** JavaScript preliminaries *)

Module Js.

(** [Array.prototype.sort(cmp)]: the sort is stable and a comparator result
    of [NaN] counts as [+0] (ECMAScript, CompareArrayElements).  The
    comparator yields [None] for [NaN].  For a consistent comparator every
    stable sort gives this result; the order an engine produces for an
    inconsistent one is implementation-defined and no statement below
    relies on it. *)
Section Sort.
Context {A : Type} (cmp : A -> A -> option Z).

Definition after (x y : A) : bool :=
  match cmp x y with
  | Some v => 0 <? v
  | None => false
  end.

Fixpoint insert_sorted (x : A) (l : list A) : list A :=
  match l with
  | [] => [x]
  | y :: l' => if after x y then y :: insert_sorted x l' else x :: l
  end.

Definition sort (l : list A) : list A := foldr insert_sorted [] l.
End Sort.

(** [s.split(sep)[0]]: the part of [s] before the first occurrence of the
    (non-empty) separator, all of [s] when there is none. *)
Fixpoint split_first (sep s : string) : string :=
  if String.prefix sep s then EmptyString
  else match s with
       | EmptyString => EmptyString
       | String c s' => String c (split_first sep s')
       end.

(** A JavaScript [Set] of strings keeps insertion order and no duplicates. *)
Definition set_add (x : string) (s : list string) : list string :=
  if bool_decide (x ∈ s) then s else s ++ [x].

(** [Math.round((later - earlier) / 1000 / 60)] on two time values.
    [Math.round] rounds to the nearest integer, halves towards +infinity,
    which on an exact quotient of integers is [floor ((d + 30000) / 60000)].
    The binary64 quotient carries a relative error below 2^-51 while a
    non-tie is at least 1/60000 minute away from a tie, so the two agree
    for every difference of less than 10^14 ms (some three thousand
    years); see [minutes_between_binary64] for the boundary values.  Time
    values reach 8.64 * 10^15 ms on either side of the epoch, and of two that
    lie further apart than that the binary64 quotient can round to the
    neighbouring minute.  The comparisons with 5, 60 and 240 minutes come
    out the same; the number of minutes itself is stated for differences
    within [exactSpan] only. *)
Definition minutes_between (later earlier : Z) : Z :=
  (later - earlier + 30000) / 60000.

(** The differences of time values, in ms, on which [minutes_between] is the
    number that binary64 gives. *)
Definition exactSpan (d : Z) : Prop := Z.abs d < 10 ^ 14.

(** A thrown value: an [Error] with its [message]. *)
Record JsError := mkError { message : string }.

(** The outcome of a call that may throw. *)
Inductive Result (A : Type) : Type :=
| Ok (value : A)
| Throw (error : JsError).
Arguments Ok {A} value.
Arguments Throw {A} error.

(** The values an untyped caller can pass for a [string] parameter. *)
Inductive JsValue :=
| JsUndefined
| JsNull
| JsBoolean (b : bool)
| JsNumber (x : float)
| JsString (s : string)
| JsObject.

(** A value produced by [JSON.parse]: the members of a nested object keep
    their order, the top-level object is a finite map. *)
#[local] Unset Elimination Schemes.
Inductive Json :=
| JNull
| JBool (b : bool)
| JNumber (x : float)
| JString (s : string)
| JArray (items : list Json)
| JObject (members : list (string * Json)).
#[local] Set Elimination Schemes.

(** The binary64 number of an integer that fits 63 bits. *)
Definition number (z : Z) : float :=
  if z <? 0 then PrimFloat.opp (PrimFloat.of_uint63 (Uint63.of_Z (- z)))
  else PrimFloat.of_uint63 (Uint63.of_Z z).

(** [Math.round] on binary64: the nearest integer, a tie going towards
    +infinity; [NaN], the infinities and the zeros are returned as they are,
    and a result of zero keeps the sign of the argument.  Below 2^52 the sum
    [a + 2^52] has unit spacing, so [(a + 2^52) - 2^52] is [a] rounded to an
    integer, from which the floor and the (exact) fractional part follow;
    from 2^52 on every binary64 number is an integer. *)
Definition two52 : float := 4503599627370496%float.

Definition Math_round (x : float) : float :=
  if PrimFloat.is_nan x then x
  else
    let a := PrimFloat.abs x in
    if PrimFloat.leb two52 a then x
    else
      let r := PrimFloat.sub (PrimFloat.add a two52) two52 in
      let floor_a := if PrimFloat.ltb a r then PrimFloat.sub r 1%float else r in
      let frac := PrimFloat.sub a floor_a in
      if PrimFloat.ltb x 0%float then
        PrimFloat.opp (if PrimFloat.ltb 0.5%float frac
                       then PrimFloat.add floor_a 1%float else floor_a)
      else if PrimFloat.eqb x 0%float then x
      else if PrimFloat.leb 0.5%float frac
           then PrimFloat.add floor_a 1%float else floor_a.

(** [Math.round(d / 1000 / 60)] evaluated in binary64, to compare
    [minutes_between] with. *)
Definition minutes_binary64 (d : Z) : float :=
  Math_round (PrimFloat.div (PrimFloat.div (number d) 1000%float) 60%float).

(** [s.endsWith(suffix)]. *)
Fixpoint endsWith (suffix s : string) : bool :=
  String.eqb suffix s ||
  match s with
  | EmptyString => false
  | String _ s' => endsWith suffix s'
  end.

End Js.

(** ** Data model (StorageHelper.ts, LLMHelper.ts) *)

(** [created_at?: string]: [None] is an absent field. *)
Record ActivityRecord := mkActivity {
  app_classification : string;
  goal_relevance : string;
  cognitive_state : string;
  context_switching : string;
  attention_residue : string;
  procrastination_signal : string;
  energy_level : string;
  created_at : option string
}.

Record WorkSession := mkSession {
  id : string;
  startTime : Z;
  endTime : Z;
  durationMinutes : Z;
  activities : list ActivityRecord;
  dominantCognitiveState : string;
  appsUsed : list string;
  isComplete : bool
}.

Inductive GapReason := away_from_computer | app_closed | system_idle.

Record TimeGap := mkGap {
  gap_startTime : Z;
  gap_endTime : Z;
  gap_durationMinutes : Z;
  gap_reason : GapReason
}.

Inductive DataQuality := high | medium | low.

Record SessionAnalysis := mkAnalysis {
  sessions : list WorkSession;
  gaps : list TimeGap;
  totalActiveMinutes : Z;
  totalGapMinutes : Z;
  dataQuality : DataQuality;
  warnings : list string
}.

(** [CONFIG] of LLMHelper.ts. *)
Module CONFIG.
Definition MIN_GAP_MINUTES : Z := 5.
Definition MAX_SESSION_HOURS : Z := 4.
Definition MAX_ACTIVITIES_PER_PROMPT : nat := 200.
Definition MAX_PROMPT_RETRIES : nat := 3.
Definition RETRY_DELAY_MS : Z := 1000.
End CONFIG.

(** ** Session segmentation: [LLMHelper.analyzeWorkSessions] *)

Module Segmentation.
Section WithDate.

(** The time value of [new Date(s)] for a non-empty string [s]; [None] for
    an Invalid Date. *)
Variable Date_parse : string -> option Z.

(** [new Date(activity.created_at || 0)]: an absent or empty [created_at]
    is falsy and gives the epoch. *)
Definition activityDate (a : ActivityRecord) : option Z :=
  match created_at a with
  | None => Some 0
  | Some s => if bool_decide (s = "") then Some 0 else Date_parse s
  end.

(** The comparator of the sort, [timeA - timeB]. *)
Definition byCreatedAt (a b : ActivityRecord) : option Z :=
  match activityDate a, activityDate b with
  | Some timeA, Some timeB => Some (timeA - timeB)
  | _, _ => None
  end.

Definition appName (a : ActivityRecord) : string :=
  Js.split_first " - " (app_classification a).

(** The variables of the loop. *)
Record LoopState := mkLoop {
  ls_sessions : list WorkSession;
  ls_gaps : list TimeGap;
  ls_warnings : list string;
  currentSession : option WorkSession;
  sessionCounter : nat
}.

Definition initialState : LoopState := mkLoop [] [] [] None 0.

Definition push_warning (w : string) (st : LoopState) : LoopState :=
  mkLoop (ls_sessions st) (ls_gaps st) (ls_warnings st ++ [w])
         (currentSession st) (sessionCounter st).

Definition with_isComplete (b : bool) (s : WorkSession) : WorkSession :=
  mkSession (id s) (startTime s) (endTime s) (durationMinutes s)
            (activities s) (dominantCognitiveState s) (appsUsed s) b.

Definition gapReason (gapMinutes : Z) : GapReason :=
  if 60 <? gapMinutes then app_closed else away_from_computer.

(** Lines 291-313: the gap check in front of record [i].  A [prevTime] that
    is an Invalid Date makes [gapMinutes] a [NaN], and [NaN > 5] is false. *)
Definition checkGap (sorted : list ActivityRecord) (i : nat) (activityTime : Z)
    (st : LoopState) : LoopState :=
  match currentSession st with
  | Some cur =>
      if (0 <? i)%nat then
        match sorted !! (i - 1)%nat with
        | Some prevActivity =>
            match activityDate prevActivity with
            | Some prevTime =>
                let gapMinutes := Js.minutes_between activityTime prevTime in
                if CONFIG.MIN_GAP_MINUTES <? gapMinutes then
                  mkLoop (ls_sessions st ++ [with_isComplete true cur])
                         (ls_gaps st ++
                            [mkGap prevTime activityTime gapMinutes (gapReason gapMinutes)])
                         (ls_warnings st) None (sessionCounter st)
                else st
            | None => st
            end
        | None => st
        end
      else st
  | None => st
  end.

(** Lines 318-327: the session opened by a record. *)
Definition newSession (counter : nat) (activity : ActivityRecord) (activityTime : Z)
    : WorkSession :=
  mkSession ("session_" +:+ pretty counter) activityTime activityTime 0
            [activity] (cognitive_state activity)
            (Js.set_add (appName activity) []) false.

(** Lines 329-334: the current session with one more record. *)
Definition extended (cur : WorkSession) (activity : ActivityRecord) (activityTime : Z)
    : WorkSession :=
  mkSession (id cur) (startTime cur) activityTime
            (Js.minutes_between activityTime (startTime cur))
            (activities cur ++ [activity]) (dominantCognitiveState cur)
            (Js.set_add (appName activity) (appsUsed cur)) (isComplete cur).

(** Lines 315-340: start a new session or extend the current one. *)
Definition startOrExtend (activity : ActivityRecord) (activityTime : Z)
    (st : LoopState) : LoopState :=
  match currentSession st with
  | None =>
      let counter := S (sessionCounter st) in
      mkLoop (ls_sessions st) (ls_gaps st) (ls_warnings st)
             (Some (newSession counter activity activityTime)) counter
  | Some cur =>
      let cur' := extended cur activity activityTime in
      mkLoop (ls_sessions st) (ls_gaps st)
             (if CONFIG.MAX_SESSION_HOURS * 60 <? durationMinutes cur'
              then ls_warnings st ++
                     ["Session " +:+ id cur' +:+ " exceeds " +:+
                      pretty CONFIG.MAX_SESSION_HOURS +:+ " hours"]
              else ls_warnings st)
             (Some cur') (sessionCounter st)
  end.

(** One iteration of [for (let i = 0; i < sortedActivities.length; i++)].
    [new Date] does not throw, so the [catch] arm of the timestamp block is
    never taken. *)
Definition loopBody (sorted : list ActivityRecord) (st : LoopState) (i : nat)
    : LoopState :=
  match sorted !! i with
  | None => st
  | Some activity =>
      match activityDate activity with
      | None => push_warning ("Invalid timestamp at index " +:+ pretty i) st
      | Some activityTime =>
          startOrExtend activity activityTime (checkGap sorted i activityTime st)
      end
  end.

(** The state after the first [n] iterations. *)
Definition loopUpTo (sorted : list ActivityRecord) (n : nat) : LoopState :=
  fold_left (loopBody sorted) (seq 0 n) initialState.

Definition sumZ {A} (f : A -> Z) (l : list A) : Z :=
  fold_left (fun sum x => sum + f x) l 0.

Definition assessQuality (nWarnings nActivities : nat) : DataQuality :=
  if (5 <? nWarnings)%nat then low
  else if (0 <? nWarnings)%nat then medium
  else if (nActivities <? 10)%nat then medium
  else high.

Definition analyzeWorkSessions (activities : list ActivityRecord) : SessionAnalysis :=
  if (length activities =? 0)%nat then
    mkAnalysis [] [] 0 0 low ["No activity data provided"]
  else
    let sortedActivities := Js.sort byCreatedAt activities in
    let st := loopUpTo sortedActivities (length sortedActivities) in
    let sessions :=
      match currentSession st with
      | Some cur => ls_sessions st ++ [with_isComplete false cur]
      | None => ls_sessions st
      end in
    mkAnalysis sessions (ls_gaps st)
               (sumZ durationMinutes sessions)
               (sumZ gap_durationMinutes (ls_gaps st))
               (assessQuality (length (ls_warnings st)) (length activities))
               (ls_warnings st).

(** *** Vocabulary of the statements about the segmentation *)

(** Every record has a valid time value. *)
Definition validTimestamps (l : list ActivityRecord) : Prop :=
  Forall (fun a => is_Some (activityDate a)) l.

(** [a] is not later than [b]. *)
Definition notLater (a b : ActivityRecord) : Prop :=
  match activityDate a, activityDate b with
  | Some ta, Some tb => ta <= tb
  | _, _ => False
  end.

#[export] Instance notLater_dec : RelDecision notLater.
Proof.
  intros a b. unfold notLater.
  destruct (activityDate a), (activityDate b); apply _.
Defined.

(** Chronologically sorted: each record is not later than the next one. *)
Definition chronological (l : list ActivityRecord) : Prop := Sorted notLater l.

#[export] Instance validTimestamps_dec l : Decision (validTimestamps l).
Proof. unfold validTimestamps. apply _. Defined.

#[export] Instance chronological_dec l : Decision (chronological l).
Proof. unfold chronological. apply _. Defined.

End WithDate.

(** The closed time interval of a session and of a gap. *)
Definition in_session (s : WorkSession) (t : Z) : Prop :=
  startTime s <= t <= endTime s.

Definition in_gap (g : TimeGap) (t : Z) : Prop :=
  gap_startTime g <= t <= gap_endTime g.

Definition session_interval (s : WorkSession) : Z * Z := (startTime s, endTime s).
Definition gap_interval (g : TimeGap) : Z * Z := (gap_startTime g, gap_endTime g).

(** [Chain lo ss gs hi]: the session intervals [ss] and the gap intervals
    [gs] alternate from [lo] to [hi]: a session, then a gap of positive length
    that starts where the session ends, then the next session, which starts
    where the gap ends, and so on, ending with a session. *)
Inductive Chain : Z -> list (Z * Z) -> list (Z * Z) -> Z -> Prop :=
| chain_last s e : s <= e -> Chain s [(s, e)] [] e
| chain_cons s e s' ss gs hi :
    s <= e -> e < s' -> Chain s' ss gs hi ->
    Chain s ((s, e) :: ss) ((e, s') :: gs) hi.

(** What the loop guarantees of every gap it emits. *)
Definition gap_wellformed (g : TimeGap) : Prop :=
  CONFIG.MIN_GAP_MINUTES < gap_durationMinutes g /\
  gap_durationMinutes g = Js.minutes_between (gap_endTime g) (gap_startTime g) /\
  gap_reason g = gapReason (gap_durationMinutes g).

(** Two records next to each other in the record list of one session. *)
Definition adjacent_in (a b : ActivityRecord) (s : WorkSession) : Prop :=
  exists pre post, activities s = pre ++ a :: b :: post.

(** A pair of adjacent records is held by a closed session or by the
    current one. *)
Definition holdsPair (a b : ActivityRecord) (st : LoopState) : Prop :=
  exists s, (s ∈ ls_sessions st \/ currentSession st = Some s) /\ adjacent_in a b s.

End Segmentation.

(** ** The model adapter: LLMHelper.ts

    The calls to the outside are the parameters of the section.  A run
    threads a [Trace]: how many times [model.generateContent] was called and
    which delays were waited for.  The logger only writes to the console and
    is left out. *)

Module Llm.
Import Js.

Record Trace := mkTrace {
  calls : nat;
  delays : list Z
}.

Definition M (A : Type) : Type := Trace -> Result A * Trace.

Definition ret {A} (a : A) : M A := fun tr => (Ok a, tr).

Definition throw {A} (msg : string) : M A := fun tr => (Throw (mkError msg), tr).

Definition lift {A} (r : Result A) : M A := fun tr => (r, tr).

Definition bind {A B} (m : M A) (k : A -> M B) : M B :=
  fun tr =>
    match m tr with
    | (Ok a, tr') => k a tr'
    | (Throw e, tr') => (Throw e, tr')
    end.

(** [try { m } catch (error) { handler error }]. *)
Definition tryCatch {A} (m : M A) (handler : JsError -> M A) : M A :=
  fun tr =>
    match m tr with
    | (Ok a, tr') => (Ok a, tr')
    | (Throw e, tr') => handler e tr'
    end.

(** [await new Promise(resolve => setTimeout(resolve, delay))]. *)
Definition sleep (delay : Z) : M unit :=
  fun tr => (Ok tt, mkTrace (calls tr) (delays tr ++ [delay])).

Notation "'do' x <- m ; k" := (bind m (fun x => k))
  (at level 10, x name, m at level 100, k at level 200).

(** What [generateContent] resolves to: [response.text()] returns the text
    or throws. *)
Record GenerateContentResult := mkResponse {
  response_text : Result string
}.

(** The argument of [generateContent]: the prompt and, for a classification,
    the image as inline data. *)
Record Request := mkRequest {
  prompt : string;
  inlineData : option string
}.

Section WithWorld.

(** [model.generateContent]: the outcome of the call number [n] (counted from
    0 over the run). *)
Variable model : nat -> Request -> Result GenerateContentResult.
(** [fs.readFile(path)], encoded as base64. *)
Variable fs_readFile : string -> Result string.
(** [JSON.parse] on a text that starts with an opening and ends with a
    closing brace: an object, or a [SyntaxError]. *)
Variable JSON_parse : string -> Result (gmap string Json).
(** The two [replace] calls that remove Markdown code fences, and [trim]. *)
Variable stripFences : string -> string.
(** The text of the classification prompt. *)
Variable classificationPrompt : string.
(** [buildDailyInsightsPrompt], which formats its arguments into a text. *)
Variable buildDailyInsightsPrompt :
  SessionAnalysis -> list ActivityRecord -> bool -> string.
(** [new Date(s)] and [new Date().toISOString()]. *)
Variable Date_parse : string -> option Z.
Variable now : string.

Definition generateContent (req : Request) : M GenerateContentResult :=
  fun tr => (model (calls tr) req, mkTrace (S (calls tr)) (delays tr)).

Definition cleanJsonResponse (text : string) : Result string :=
  if bool_decide (text = "") then
    Throw (mkError "Invalid response text from LLM")
  else
    let text := stripFences text in
    if negb (String.prefix "{" text) || negb (endsWith "}" text) then
      Throw (mkError "Response does not appear to be valid JSON")
    else Ok text.

Definition lastMessage (lastError : option JsError) : string :=
  match lastError with
  | Some e => message e
  | None => "undefined"
  end.

(** The [for] loop of [retryWithBackoff] with [remaining] attempts to go;
    the attempt at hand has the number [maxRetries - remaining + 1]. *)
Fixpoint retryLoop {T} (operation : M T) (maxRetries remaining : nat)
    (lastError : option JsError) : M T :=
  match remaining with
  | O =>
      throw ("Operation failed after " +:+ pretty maxRetries +:+ " attempts: " +:+
             lastMessage lastError)
  | S remaining' =>
      let attempt := (maxRetries - remaining')%nat in
      tryCatch operation (fun error =>
        do _ <- (if (attempt <? maxRetries)%nat
                 then sleep (CONFIG.RETRY_DELAY_MS * 2 ^ (Z.of_nat attempt - 1))
                 else ret tt);
        retryLoop operation maxRetries remaining' (Some error))
  end.

Definition retryWithBackoff {T} (operation : M T) (maxRetries : nat) : M T :=
  retryLoop operation maxRetries maxRetries None.

Definition requiredRecordFields : list string :=
  ["app_classification"; "goal_relevance"; "cognitive_state"; "context_switching";
   "attention_residue"; "procrastination_signal"; "energy_level"].

(** [record.hasOwnProperty(field) && record[field] !== null &&
    record[field] !== undefined] for every required field.  A parsed object
    with a member of its own called [hasOwnProperty] shadows the method with
    a value that cannot be called. *)
Definition validateActivityRecord (record : gmap string Json) : Result bool :=
  match record !! "hasOwnProperty" with
  | Some _ => Throw (mkError "record.hasOwnProperty is not a function")
  | None =>
      Ok (forallb (fun field =>
                     match record !! field with
                     | Some JNull | None => false
                     | Some _ => true
                     end) requiredRecordFields)
  end.

Definition readImageFile (imagePath : string) : M string :=
  tryCatch (lift (fs_readFile imagePath))
           (fun error => throw ("Cannot read screenshot file: " +:+ message error)).

(** The safe default of [classifyProductivityActivity]. *)
Definition fallbackRecord : gmap string Json :=
  list_to_map
    [("app_classification", JString "Unknown - Error in classification");
     ("goal_relevance", JString "work_unrelated");
     ("cognitive_state", JString "break");
     ("context_switching", JString "new_task");
     ("attention_residue", JString "multiple_contexts");
     ("procrastination_signal", JString "none");
     ("energy_level", JString "low_energy_tasks")].

Definition classificationRequest (imageData : string) : Request :=
  mkRequest classificationPrompt (Some imageData).

(** Lines 207-214: from the response to the validated record. *)
Definition parseClassification (result : GenerateContentResult)
    : Result (gmap string Json) :=
  match response_text result with
  | Throw e => Throw e
  | Ok raw =>
      match cleanJsonResponse raw with
      | Throw e => Throw e
      | Ok text =>
          match JSON_parse text with
          | Throw e => Throw e
          | Ok parsed =>
              match validateActivityRecord parsed with
              | Throw e => Throw e
              | Ok true => Ok parsed
              | Ok false =>
                  Throw (mkError "Invalid activity classification format from LLM")
              end
          end
      end
  end.

Definition classifyProductivityActivity (imagePath : JsValue)
    : M (gmap string Json) :=
  match imagePath with
  | JsString path =>
      if bool_decide (path = "") then throw "Invalid image path provided"
      else
        tryCatch
          (do imageData <- readImageFile path;
           do result <- retryWithBackoff
                          (generateContent (classificationRequest imageData))
                          CONFIG.MAX_PROMPT_RETRIES;
           lift (parseClassification result))
          (fun _ => ret fallbackRecord)
  | _ => throw "Invalid image path provided"
  end.

(** [activities.filter((_, index) => index % step === 0)]. *)
Definition everyNth {A} (step : nat) (l : list A) : list A :=
  snd <$> filter (fun ix => (ix.1 mod step)%nat = 0%nat)
                 (imap (fun index x => (index, x)) l).

Definition truncateActivitiesForPrompt (activities : list ActivityRecord)
    : list ActivityRecord * bool :=
  if (length activities <=? CONFIG.MAX_ACTIVITIES_PER_PROMPT)%nat then
    (activities, false)
  else
    let step := (length activities / CONFIG.MAX_ACTIVITIES_PER_PROMPT)%nat in
    (take CONFIG.MAX_ACTIVITIES_PER_PROMPT (everyNth step activities), true).

Definition metadata (dataPoints sessionsAnalyzed : nat) : Json :=
  JObject [("generatedAt", JString now);
           ("dataPoints", JNumber (number (Z.of_nat dataPoints)));
           ("sessionsAnalyzed", JNumber (number (Z.of_nat sessionsAnalyzed)))].

(** The insights for a day without records. *)
Definition noDataInsights : gmap string Json :=
  list_to_map
    [("executiveSummary", JString "No activity data recorded for this day.");
     ("productivityNarrative", JString "No work sessions were recorded.");
     ("behavioralPatterns", JString "Insufficient data to identify patterns.");
     ("recommendations",
      JString "Ensure the productivity tracker is running during work hours.");
     ("metadata", metadata 0 0)].

Definition requiredInsightFields : list string :=
  ["executiveSummary"; "productivityNarrative"; "behavioralPatterns"; "recommendations"].

(** [!insights[field] || typeof insights[field] !== 'string']. *)
Definition missingOrInvalid (insights : gmap string Json) (field : string) : bool :=
  match insights !! field with
  | Some (JString text) => bool_decide (text = "")
  | _ => true
  end.

(** The first required field that is missing or invalid, if any. *)
Definition firstInvalidField (insights : gmap string Json) : option string :=
  List.find (missingOrInvalid insights) requiredInsightFields.

(** Lines 432-451: from the response to the insights with their metadata. *)
Definition parseInsights (dataPoints sessionsAnalyzed : nat)
    (result : GenerateContentResult) : Result (gmap string Json) :=
  match response_text result with
  | Throw e => Throw e
  | Ok raw =>
      match cleanJsonResponse raw with
      | Throw e => Throw e
      | Ok text =>
          match JSON_parse text with
          | Throw e => Throw e
          | Ok insights =>
              match firstInvalidField insights with
              | Some field =>
                  Throw (mkError ("Missing or invalid field in insights: " +:+ field))
              | None =>
                  Ok (<["metadata" := metadata dataPoints sessionsAnalyzed]> insights)
              end
          end
      end
  end.

Definition insightsRequest (activities : list ActivityRecord) : Request :=
  let sessionAnalysis := Segmentation.analyzeWorkSessions Date_parse activities in
  let '(truncated, isTruncated) := truncateActivitiesForPrompt activities in
  mkRequest (buildDailyInsightsPrompt sessionAnalysis truncated isTruncated) None.

Definition generateDailyInsights (activities : list ActivityRecord)
    : M (gmap string Json) :=
  if (length activities =? 0)%nat then ret noDataInsights
  else
    tryCatch
      (let sessionAnalysis := Segmentation.analyzeWorkSessions Date_parse activities in
       do result <- retryWithBackoff (generateContent (insightsRequest activities))
                                     CONFIG.MAX_PROMPT_RETRIES;
       lift (parseInsights (length activities) (length (sessions sessionAnalysis))
                           result))
      (fun error => throw ("Daily insights generation failed: " +:+ message error)).

End WithWorld.

(** A run starts with no call made and no delay waited for. *)
Definition start : Trace := mkTrace 0 [].

End Llm.

(** ** On-demand capture and the two bounded queues: ScreenshotHelper.ts *)

Module Screenshot.
Import Js.

Inductive View := queue | solutions.

(** What a call does to the outside, in order. *)
Inductive Event :=
| Hide                        (* hideMainWindow() *)
| Show                        (* showMainWindow() *)
| Capture (filename : string) (* screenshot({ filename }) *)
| Unlink (path : string)      (* fs.unlink(path) *)
| ConsoleError.               (* console.error(...) *)

Record Helper := mkHelper {
  view : View;
  screenshotQueue : list string;
  extraScreenshotQueue : list string
}.

Definition MAX_SCREENSHOTS : nat := 5.

(** What one call meets outside: the fresh identifier, and whether the
    capture and the deletion of a file succeed. *)
Record Outside := mkOutside {
  uuidv4 : string;
  screenshot : string -> Result unit;
  unlink : string -> Result unit
}.

(** [new ScreenshotHelper(view)]. *)
Definition create (v : View) : Helper := mkHelper v [] [].

Definition setView (v : View) (h : Helper) : Helper :=
  mkHelper v (screenshotQueue h) (extraScreenshotQueue h).

(** The deletion of an evicted file: a failure is logged and ignored. *)
Definition removeOld (out : Outside) (removedPath : string) : list Event :=
  if bool_decide (removedPath = "") then []
  else match unlink out removedPath with
       | Ok _ => [Unlink removedPath]
       | Throw _ => [Unlink removedPath; ConsoleError]
       end.

(** [q.push(path)], then [q.shift()] and the deletion of the removed file
    when the queue has grown beyond [MAX_SCREENSHOTS]. *)
Definition pushBounded (out : Outside) (q : list string) (path : string)
    : list string * list Event :=
  let q := q ++ [path] in
  if (MAX_SCREENSHOTS <? length q)%nat then
    match q with
    | removedPath :: rest => (rest, removeOld out removedPath)
    | [] => (q, [])
    end
  else (q, []).

Section WithPaths.

Variables screenshotDir extraScreenshotDir : string.
Variable path_join : string -> string -> string.

(** The file a capture is written to, and the queue it is pushed to. *)
Definition capturePath (out : Outside) (h : Helper) : string :=
  match view h with
  | queue => path_join screenshotDir (uuidv4 out +:+ ".png")
  | solutions => path_join extraScreenshotDir (uuidv4 out +:+ ".png")
  end.

(** The result, the helper afterwards and the events of the call. *)
Definition takeScreenshot (out : Outside) (h : Helper)
    : Result string * Helper * list Event :=
  match view h with
  | queue =>
      let screenshotPath := path_join screenshotDir (uuidv4 out +:+ ".png") in
      match screenshot out screenshotPath with
      | Throw e => (Throw e, h, [Hide; Capture screenshotPath])
      | Ok _ =>
          let '(q, removal) := pushBounded out (screenshotQueue h) screenshotPath in
          (Ok screenshotPath,
           mkHelper (view h) q (extraScreenshotQueue h),
           [Hide; Capture screenshotPath] ++ removal ++ [Show])
      end
  | solutions =>
      let screenshotPath := path_join extraScreenshotDir (uuidv4 out +:+ ".png") in
      match screenshot out screenshotPath with
      | Throw e => (Throw e, h, [Hide; Capture screenshotPath])
      | Ok _ =>
          let '(q, removal) := pushBounded out (extraScreenshotQueue h) screenshotPath in
          (Ok screenshotPath,
           mkHelper (view h) (screenshotQueue h) q,
           [Hide; Capture screenshotPath] ++ removal ++ [Show])
      end
  end.

(** [clearQueues]: every file is unlinked and both queues are emptied. *)
Definition clearQueues (h : Helper) : Helper := mkHelper (view h) [] [].

(** [deleteScreenshot(path)]: the queue of the current view loses the path
    when the file could be deleted. *)
Definition deleteScreenshot (out : Outside) (path : string) (h : Helper) : Helper :=
  match unlink out path with
  | Throw _ => h
  | Ok _ =>
      match view h with
      | queue =>
          mkHelper (view h) (filter (fun filePath => filePath <> path) (screenshotQueue h))
                   (extraScreenshotQueue h)
      | solutions =>
          mkHelper (view h) (screenshotQueue h)
                   (filter (fun filePath => filePath <> path) (extraScreenshotQueue h))
      end
  end.

(** The calls that change a helper. *)
Inductive Call :=
| CallTakeScreenshot (out : Outside)
| CallSetView (v : View)
| CallClearQueues
| CallDeleteScreenshot (out : Outside) (path : string).

Definition perform (h : Helper) (c : Call) : Helper :=
  match c with
  | CallTakeScreenshot out => (takeScreenshot out h).1.2
  | CallSetView v => setView v h
  | CallClearQueues => clearQueues h
  | CallDeleteScreenshot out path => deleteScreenshot out path h
  end.

(** The helper after a sequence of calls on a fresh one. *)
Definition after (v : View) (cs : list Call) : Helper := fold_left perform cs (create v).

End WithPaths.

(** *** Vocabulary of the statements about the queues *)

(** The queue of the current view, and the other one. *)
Definition currentQueue (h : Helper) : list string :=
  match view h with
  | queue => screenshotQueue h
  | solutions => extraScreenshotQueue h
  end.

Definition otherQueue (h : Helper) : list string :=
  match view h with
  | queue => extraScreenshotQueue h
  | solutions => screenshotQueue h
  end.

(** Both queues are within capacity and hold no empty path. *)
Definition wellFormed (h : Helper) : Prop :=
  (length (screenshotQueue h) <= MAX_SCREENSHOTS)%nat /\
  (length (extraScreenshotQueue h) <= MAX_SCREENSHOTS)%nat /\
  Forall (fun path => path <> "") (screenshotQueue h) /\
  Forall (fun path => path <> "") (extraScreenshotQueue h).

End Screenshot.

(** ** The daily aggregator: [StorageHelper.getDailyStats] *)

Module Storage.
Import Js.

Record DailyStats := mkStats {
  totalRecords : nat;
  hoursTracked : float;
  focusPercentage : float;
  topApp : string;
  dayStart : string;
  dayEnd : string
}.

Definition isFocus (a : ActivityRecord) : bool :=
  String.eqb (cognitive_state a) "deep_focus" || String.eqb (cognitive_state a) "light_work".

Definition SCREENSHOT_INTERVAL_SECONDS : float := 45%float.
Definition MINUTES_PER_HOUR : float := 60%float.

(** [(count * SCREENSHOT_INTERVAL_SECONDS) / MINUTES_PER_HOUR / MINUTES_PER_HOUR],
    then [Math.round(hoursTracked * 10) / 10]. *)
Definition hoursOf (count : Z) : float :=
  let minutesTracked :=
    PrimFloat.div (PrimFloat.mul (number count) SCREENSHOT_INTERVAL_SECONDS)
                  MINUTES_PER_HOUR in
  let hoursTracked := PrimFloat.div minutesTracked MINUTES_PER_HOUR in
  PrimFloat.div (Math_round (PrimFloat.mul hoursTracked 10%float)) 10%float.

(** [Math.round((focusCount / count) * 100)]. *)
Definition percentageOf (focusCount count : Z) : float :=
  Math_round (PrimFloat.mul (PrimFloat.div (number focusCount) (number count))
                            100%float).

(** [appCounts.set(app, (appCounts.get(app) || 0) + 1)] on a [Map], which
    keeps its keys in insertion order. *)
Fixpoint countApp (app : string) (appCounts : list (string * nat))
    : list (string * nat) :=
  match appCounts with
  | [] => [(app, 1%nat)]
  | (key, count) :: rest =>
      if String.eqb key app then (key, S count) :: rest
      else (key, count) :: countApp app rest
  end.

Definition appCountsOf (activities : list ActivityRecord) : list (string * nat) :=
  fold_left (fun appCounts a => countApp (Segmentation.appName a) appCounts) activities [].

(** [entries.sort((a, b) => b[1] - a[1])[0]?.[0] || 'None']. *)
Definition topAppOf (activities : list ActivityRecord) : string :=
  match Js.sort (fun a b => Some (Z.of_nat b.2 - Z.of_nat a.2)) (appCountsOf activities) with
  | (app, _) :: _ => if bool_decide (app = "") then "None" else app
  | [] => "None"
  end.

Section WithDate.

Variable Date_parse : string -> option Z.
(** [toLocaleTimeString] of a date; [None] is an Invalid Date. *)
Variable toLocaleTimeString : option Z -> string.

Definition timeOfDay (a : ActivityRecord) : string :=
  match created_at a with
  | None => "Unknown"
  | Some s => if bool_decide (s = "") then "Unknown" else toLocaleTimeString (Date_parse s)
  end.

(** [getDailyStats] on the records that [getDailyActivities] resolved to. *)
Definition getDailyStats (activities : list ActivityRecord) : DailyStats :=
  match activities with
  | [] => mkStats 0 0%float 0%float "None" "No data" "No data"
  | firstActivity :: _ =>
      let count := Z.of_nat (length activities) in
      let focusCount := Z.of_nat (length (filter (fun a => isFocus a = true) activities)) in
      mkStats (length activities)
              (hoursOf count)
              (percentageOf focusCount count)
              (topAppOf activities)
              (timeOfDay firstActivity)
              (timeOfDay (List.last activities firstActivity))
  end.

End WithDate.

(** *** Vocabulary of the statements about the statistics *)






(** *** Checking the binary64 results against exact arithmetic

    [hoursRow] and [focusTable] evaluate [hoursOf] and [percentageOf] on every
    count up to a bound and compare the result with the integer that exact
    arithmetic gives.  In a row of [focusTable] the candidate [k] and the
    remainder [r = 200 f + n - 2 n k] follow [f] by additions only. *)







End Storage.

(** ** Sample data for the examples *)

Module Sample.

Definition digit (c : ascii) : option Z :=
  let n := Z.of_nat (nat_of_ascii c) in
  if (48 <=? n) && (n <=? 57) then Some (n - 48) else None.

(** A wall clock ["HH:MM"] on the epoch day, in milliseconds; anything else
    is an Invalid Date. *)
Definition clock (s : string) : option Z :=
  match s with
  | String h1 (String h2 (String ":" (String m1 (String m2 EmptyString)))) =>
      match digit h1, digit h2, digit m1, digit m2 with
      | Some a, Some b, Some c, Some d =>
          Some (((10 * a + b) * 60 + (10 * c + d)) * 60000)
      | _, _, _, _ => None
      end
  | _ => None
  end.

Definition record (app state time : string) : ActivityRecord :=
  mkActivity app "goal_related" state "continuing_task" "clean_focus" "none"
             "high_focus_work" (Some time).

Definition at_ (time : string) : ActivityRecord :=
  record "VS Code - main.ts" "deep_focus" time.

(** A model that fails its first [failures] calls and then answers with
    the text [answer]. *)
Definition flaky (failures : nat) (answer : string)
    : nat -> Llm.Request -> Js.Result Llm.GenerateContentResult :=
  fun n _ =>
    if (n <? failures)%nat then Js.Throw (Js.mkError ("503 on call " +:+ pretty n))
    else Js.Ok (Llm.mkResponse (Js.Ok answer)).

(** [JSON.parse] on the objects that the examples use: members whose name
    and value are strings without escapes, no white space between the
    tokens; any other text is refused as a [SyntaxError]. *)
Definition quoteChar : ascii := ascii_of_nat 34.
Definition backslash : ascii := ascii_of_nat 92.

(** The characters up to the closing quote, and the text after it. *)
Fixpoint readString (s : string) : option (string * string) :=
  match s with
  | EmptyString => None
  | String c rest =>
      if Ascii.eqb c quoteChar then Some (EmptyString, rest)
      else if Ascii.eqb c backslash then None
      else match readString rest with
           | Some (text, rest') => Some (String c text, rest')
           | None => None
           end
  end.

(** The members after the opening brace or a comma, up to the end. *)
Fixpoint readMembers (fuel : nat) (s : string) : option (list (string * Js.Json)) :=
  match fuel, s with
  | S fuel', String q rest =>
      if Ascii.eqb q quoteChar then
        match readString rest with
        | Some (name, String ":" (String q' rest')) =>
            if Ascii.eqb q' quoteChar then
              match readString rest' with
              | Some (value, String "," rest'') =>
                  match readMembers fuel' rest'' with
                  | Some members => Some ((name, Js.JString value) :: members)
                  | None => None
                  end
              | Some (value, String "}" EmptyString) => Some [(name, Js.JString value)]
              | _ => None
              end
            else None
        | _ => None
        end
      else None
  | _, _ => None
  end.

Definition readObject (text : string) : option (list (string * Js.Json)) :=
  match text with
  | String "{" rest =>
      if String.eqb rest "}" then Some []
      else readMembers (String.length rest) rest
  | _ => None
  end.

(** Of two members with one name the later one counts. *)
Definition parse (text : string) : Js.Result (gmap string Js.Json) :=
  match readObject text with
  | Some members => Js.Ok (list_to_map (reverse members))
  | None => Js.Throw (Js.mkError "Unexpected token in JSON")
  end.

(** The JSON text of an object with string members. *)
Definition member (m : string * string) : string :=
  String quoteChar m.1 +:+ String quoteChar (String ":" (String quoteChar m.2))
  +:+ String quoteChar "".

Definition object (members : list (string * string)) : string :=
  "{" +:+ String.concat "," (member <$> members) +:+ "}".

Definition asMembers (members : list (string * string)) : list (string * Js.Json) :=
  (fun m => (m.1, Js.JString m.2)) <$> members.

Definition asRecord (members : list (string * string)) : gmap string Js.Json :=
  list_to_map (reverse (asMembers members)).

Definition classifiedFields : list (string * string) :=
  [("app_classification", "VS Code - main.ts");
   ("goal_relevance", "goal_related");
   ("cognitive_state", "deep_focus");
   ("context_switching", "continuing_task");
   ("attention_residue", "clean_focus");
   ("procrastination_signal", "none");
   ("energy_level", "high_focus_work")].

Definition narratedFields : list (string * string) :=
  [("executiveSummary", "Two sessions, one long gap.");
   ("productivityNarrative", "Work began at nine.");
   ("behavioralPatterns", "Focus held for whole sessions.");
   ("recommendations", "Keep the morning block.")].

(** What the model answers, as a text and as the object it denotes. *)
Definition classifiedText : string := object classifiedFields.
Definition classified : gmap string Js.Json := asRecord classifiedFields.
Definition narratedText : string := object narratedFields.
Definition narrated : gmap string Js.Json := asRecord narratedFields.

Definition readable (path : string) : Js.Result string := Js.Ok "iVBORw0KGgo=".

Definition unreadable (path : string) : Js.Result string :=
  Js.Throw (Js.mkError "ENOENT: no such file or directory").

Definition noFences (text : string) : string := text.

Definition promptOf (analysis : SessionAnalysis) (sample : list ActivityRecord)
    (isTruncated : bool) : string :=
  "Analyze " +:+ pretty (length sample) +:+ " records".

Definition morning : list ActivityRecord :=
  at_ <$> ["09:00"; "09:02"; "09:04"; "09:06"; "09:08"].

Definition day : list ActivityRecord :=
  at_ <$> ["09:00"; "09:05"; "10:05"; "11:06"].

Definition classifyWith (failures : nat) (read : string -> Js.Result string)
    (imagePath : Js.JsValue) : Llm.M (gmap string Js.Json) :=
  Llm.classifyProductivityActivity (flaky failures classifiedText) read
    parse noFences "Classify this screenshot." imagePath.

Definition narrateWith (failures : nat) (activities : list ActivityRecord)
    : Llm.M (gmap string Js.Json) :=
  Llm.generateDailyInsights (flaky failures narratedText) parse
    noFences promptOf clock "2024-05-01T18:00:00.000Z" activities.

(** A 24-hour [toLocaleTimeString], hours and minutes only. *)
Definition timeString (date : option Z) : string :=
  match date with
  | None => "Invalid Date"
  | Some ms => pretty (ms / 3600000) +:+ ":" +:+ pretty (ms / 60000 mod 60)
  end.

(** [path.join] on a POSIX system, for two plain names. *)
Definition join (dir name : string) : string := dir +:+ "/" +:+ name.

(** A capture that succeeds, one that fails, with a deletion that works. *)
Definition capturing (uuid : string) : Screenshot.Outside :=
  Screenshot.mkOutside uuid (fun _ => Js.Ok tt) (fun _ => Js.Ok tt).

Definition failing (uuid : string) : Screenshot.Outside :=
  Screenshot.mkOutside uuid (fun _ => Js.Throw (Js.mkError "capture failed"))
                       (fun _ => Js.Ok tt).

Definition shoot : Screenshot.Outside -> Screenshot.Helper ->
                   Js.Result string * Screenshot.Helper * list Screenshot.Event :=
  Screenshot.takeScreenshot "/data/screenshots" "/data/extra_screenshots" join.

Definition fiveShots : list Screenshot.Call :=
  (fun uuid => Screenshot.CallTakeScreenshot (capturing uuid)) <$> ["a"; "b"; "c"; "d"; "e"].

End Sample.

(** ** Further vocabulary for the sessions *)

Module Sessions.
Import Segmentation.
Section WithDate.
Variable Date_parse : string -> option Z.

(** The record has a valid time value. *)
Definition hasDate (a : ActivityRecord) : Prop := is_Some (activityDate Date_parse a).

#[export] Instance hasDate_dec a : Decision (hasDate a).
Proof. unfold hasDate. apply _. Defined.

(** A session within the limit of [CONFIG.MAX_SESSION_HOURS]. *)
Definition withinLimit (s : WorkSession) : Prop :=
  durationMinutes s <= CONFIG.MAX_SESSION_HOURS * 60.

#[export] Instance withinLimit_dec s : Decision (withinLimit s).
Proof. unfold withinLimit. apply _. Defined.

(** What every session is made of: at least one record; the times of its
    first and last record as start and end; the state of the first record;
    the app names of its records, each once. *)
Definition wellShaped (s : WorkSession) : Prop :=
  exists first lst,
    head (activities s) = Some first /\ last (activities s) = Some lst /\
    activityDate Date_parse first = Some (startTime s) /\
    activityDate Date_parse lst = Some (endTime s) /\
    dominantCognitiveState s = cognitive_state first /\
    NoDup (appsUsed s) /\
    (forall app, app ∈ appsUsed s <-> app ∈ appName <$> activities s).

(** The same with the duration that the loop keeps up to date: in the
    integer arithmetic of [Js.minutes_between], the rounded distance of start
    and end. *)
Definition measured (s : WorkSession) : Prop :=
  exists first lst,
    head (activities s) = Some first /\ last (activities s) = Some lst /\
    activityDate Date_parse first = Some (startTime s) /\
    activityDate Date_parse lst = Some (endTime s) /\
    durationMinutes s = Js.minutes_between (endTime s) (startTime s) /\
    dominantCognitiveState s = cognitive_state first /\
    NoDup (appsUsed s) /\
    (forall app, app ∈ appsUsed s <-> app ∈ appName <$> activities s).

(** What the loop has put into sessions so far, closed or current. *)
Definition recordsOf (st : LoopState) : list ActivityRecord :=
  concat (activities <$> ls_sessions st) ++
  match currentSession st with
  | Some cur => activities cur
  | None => []
  end.

(** What one iteration of the loop does on the record [a] at index [i]: it
    warns of an invalid time value, opens the first session, closes the
    current session behind a gap and opens the next one, or extends the
    current session. *)
Inductive Step (l : list ActivityRecord) (i : nat) (a : ActivityRecord)
    (st : LoopState) : LoopState -> Prop :=
| step_invalid :
    activityDate Date_parse a = None ->
    Step l i a st (push_warning ("Invalid timestamp at index " +:+ pretty i) st)
| step_first t :
    activityDate Date_parse a = Some t -> currentSession st = None ->
    Step l i a st
      (mkLoop (ls_sessions st) (ls_gaps st) (ls_warnings st)
              (Some (newSession (S (sessionCounter st)) a t)) (S (sessionCounter st)))
| step_split t cur prevTime :
    activityDate Date_parse a = Some t -> currentSession st = Some cur ->
    CONFIG.MIN_GAP_MINUTES < Js.minutes_between t prevTime ->
    Step l i a st
      (mkLoop (ls_sessions st ++ [with_isComplete true cur])
              (ls_gaps st ++ [mkGap prevTime t (Js.minutes_between t prevTime)
                                    (gapReason (Js.minutes_between t prevTime))])
              (ls_warnings st)
              (Some (newSession (S (sessionCounter st)) a t)) (S (sessionCounter st)))
| step_extend t cur :
    activityDate Date_parse a = Some t -> currentSession st = Some cur ->
    Step l i a st
      (mkLoop (ls_sessions st) (ls_gaps st)
              (if CONFIG.MAX_SESSION_HOURS * 60 <? durationMinutes (extended cur a t)
               then ls_warnings st ++
                      ["Session " +:+ id cur +:+ " exceeds " +:+
                       pretty CONFIG.MAX_SESSION_HOURS +:+ " hours"]
               else ls_warnings st)
              (Some (extended cur a t)) (sessionCounter st)).

(** The identifier of the [k]-th session. *)
Definition sessionId (k : nat) : string := "session_" +:+ pretty k.

End WithDate.
End Sessions.

(** ** Further vocabulary for the retries *)

Module Retry.
Import Js Llm.

(** The delays in front of the attempts 2, 3, ..., [k + 1]:
    [RETRY_DELAY_MS * 2 ^ (attempt - 1)] for the attempts 1, ..., [k]. *)
Definition backoff (k : nat) : list Z :=
  (fun i => CONFIG.RETRY_DELAY_MS * 2 ^ Z.of_nat i) <$> seq 0 k.

(** The [n] calls from the call number [c] on fail. *)
Definition failing (model : nat -> Request -> Result GenerateContentResult)
    (req : Request) (c n : nat) : Prop :=
  forall j, (j < n)%nat -> exists e, model (c + j)%nat req = Throw e.

(** The delays of the loop with [remaining] attempts to go, of which the
    first [k] fail and are followed by another one. *)
Definition delaysFrom (n remaining k : nat) : list Z :=
  (fun i => CONFIG.RETRY_DELAY_MS * 2 ^ Z.of_nat i) <$> seq (n - remaining) k.

(** The most attempts for which every delay stays within what [setTimeout]
    takes, 2^31 - 1 ms. *)
Definition maxAttempts : nat := 23.

End Retry.

(** ** Captures in a row, and the periodic capture: ScreenshotHelper.ts *)

Module Shots.
Import Js Screenshot.

(** The paths that a list of events hands to [unlink], in order. *)
Definition unlinked (events : list Event) : list string :=
  omap (fun e => match e with Unlink path => Some path | _ => None end) events.

Section WithPaths.
Variables screenshotDir extraScreenshotDir : string.
Variable path_join : string -> string -> string.

(** One call of [takeScreenshot] per element of [outs], each on the helper
    that the call before has left; the events of all calls. *)
Definition shots (outs : list Outside) (h : Helper) : Helper * list Event :=
  fold_left
    (fun acc out =>
       let r := takeScreenshot screenshotDir extraScreenshotDir path_join out acc.1 in
       (r.1.2, acc.2 ++ r.2))
    outs (h, []).

(** The file that each of these calls writes under the view [v]. *)
Definition pathsOf (v : View) (outs : list Outside) : list string :=
  (fun out => capturePath screenshotDir extraScreenshotDir path_join out (create v)) <$> outs.

End WithPaths.
End Shots.

Module Periodic.
Import Js Screenshot.

(** The fields of [ScreenshotHelper] behind the periodic capture, with the
    interval timers of the runtime: [setInterval] returns a fresh timer, which
    fires until [clearInterval] is called on it. *)
Record Timer := mkTimer {
  automaticInterval : option nat;
  isAutomaticEnabled : bool;
  liveIntervals : list nat;
  nextInterval : nat
}.

(** A new helper: no timer, not enabled. *)
Definition initial : Timer := mkTimer None false [] 0.

Definition stopAutomaticScreenshots (s : Timer) : Timer :=
  match automaticInterval s with
  | Some t =>
      mkTimer None false (filter (fun t' => t' <> t) (liveIntervals s)) (nextInterval s)
  | None => mkTimer None false (liveIntervals s) (nextInterval s)
  end.

Definition startAutomaticScreenshots (s : Timer) : Timer :=
  let s := match automaticInterval s with
           | Some _ => stopAutomaticScreenshots s
           | None => s
           end in
  mkTimer (Some (nextInterval s)) true
          (liveIntervals s ++ [nextInterval s]) (S (nextInterval s)).

Definition isAutomaticActive (s : Timer) : bool :=
  isAutomaticEnabled s && bool_decide (automaticInterval s <> None).

Inductive TimerCall := CallStart | CallStop.

Definition performTimer (s : Timer) (c : TimerCall) : Timer :=
  match c with
  | CallStart => startAutomaticScreenshots s
  | CallStop => stopAutomaticScreenshots s
  end.

Definition afterTimer (cs : list TimerCall) : Timer := fold_left performTimer cs initial.

(** What one firing of the timer does to the outside. *)
Record Tick := mkTick {
  events : list Event;
  processed : option string
}.

Section WithPaths.
Variable screenshotDir : string.
Variable path_join : string -> string -> string.

Definition productivityPath (out : Outside) : string :=
  path_join screenshotDir ("productivity_" +:+ uuidv4 out +:+ ".png").

(** The callback of [setInterval].  [processingHelper] is
    [processAutomaticScreenshot] of the helper that was set, if one was. *)
Definition tick (processingHelper : option (string -> Result unit))
    (out : Outside) (s : Timer) : Tick :=
  if isAutomaticEnabled s then
    let path := productivityPath out in
    match screenshot out path with
    | Throw _ => mkTick [Hide; Capture path; ConsoleError] None
    | Ok _ =>
        match processingHelper with
        | Some processAutomaticScreenshot =>
            match processAutomaticScreenshot path with
            | Ok _ => mkTick [Hide; Capture path; Show] (Some path)
            | Throw _ => mkTick [Hide; Capture path; Show; ConsoleError] (Some path)
            end
        | None => mkTick [Hide; Capture path; Show; ConsoleError] None
        end
    end
  else mkTick [] None.

End WithPaths.
End Periodic.

(** ** The application state: [AppState] of main.ts

    The window helper is represented by whether it has a main window; the
    screenshot helper by its queues and by its timer. *)

Module App.
Import Js.

Record HealthStatus := mkHealth {
  supabase : bool;
  processingHelper : bool;
  automaticScreenshots : bool
}.

Record AppState := mkApp {
  view : Screenshot.View;
  problemInfo : option string;
  screenshotHelper : Screenshot.Helper;
  timer : Periodic.Timer;
  healthStatus : HealthStatus;
  mainWindow : bool
}.

(** [new AppState()]: [servicesInitialized] is what [initializeCoreServices]
    has left, [processingReady] whether the key is set and the processing
    helper could be built. *)
Definition create (servicesInitialized processingReady : bool) : AppState :=
  mkApp Screenshot.queue None (Screenshot.create Screenshot.queue) Periodic.initial
        (mkHealth servicesInitialized processingReady false) false.

Definition isHealthy (a : AppState) : bool :=
  supabase (healthStatus a) && processingHelper (healthStatus a) &&
  automaticScreenshots (healthStatus a).

Definition setView (v : Screenshot.View) (a : AppState) : AppState :=
  mkApp v (problemInfo a) (Screenshot.setView v (screenshotHelper a)) (timer a)
        (healthStatus a) (mainWindow a).

Definition setProblemInfo (info : option string) (a : AppState) : AppState :=
  mkApp (view a) info (screenshotHelper a) (timer a) (healthStatus a) (mainWindow a).

Definition withHelper (h : Screenshot.Helper) (a : AppState) : AppState :=
  mkApp (view a) (problemInfo a) h (timer a) (healthStatus a) (mainWindow a).

Definition withWindow (present : bool) (a : AppState) : AppState :=
  mkApp (view a) (problemInfo a) (screenshotHelper a) (timer a) (healthStatus a) present.

Definition clearQueues (a : AppState) : AppState :=
  setView Screenshot.queue
    (setProblemInfo None (withHelper (Screenshot.clearQueues (screenshotHelper a)) a)).

Definition deleteScreenshot (out : Screenshot.Outside) (path : string) (a : AppState)
    : AppState :=
  withHelper (Screenshot.deleteScreenshot out path (screenshotHelper a)) a.

Definition startAutomaticScreenshots (a : AppState) : AppState :=
  if negb (supabase (healthStatus a)) then a
  else if negb (processingHelper (healthStatus a)) then a
  else mkApp (view a) (problemInfo a) (screenshotHelper a)
             (Periodic.startAutomaticScreenshots (timer a))
             (mkHealth (supabase (healthStatus a)) (processingHelper (healthStatus a)) true)
             (mainWindow a).

Section WithPaths.
Variables screenshotDir extraScreenshotDir : string.
Variable path_join : string -> string -> string.

Definition takeScreenshot (out : Screenshot.Outside) (a : AppState)
    : Result string * AppState * list Screenshot.Event :=
  if negb (mainWindow a) then (Throw (mkError "No main window available"), a, [])
  else
    let r := Screenshot.takeScreenshot screenshotDir extraScreenshotDir path_join out
               (screenshotHelper a) in
    (r.1.1, withHelper r.1.2 a, r.2).

(** What can happen to the application state: the calls of its public
    methods, and the window being created or closed. *)
Inductive Call :=
| CallSetView (v : Screenshot.View)
| CallSetProblemInfo (info : option string)
| CallClearQueues
| CallTakeScreenshot (out : Screenshot.Outside)
| CallDeleteScreenshot (out : Screenshot.Outside) (path : string)
| CallStartAutomaticScreenshots
| WindowCreated
| WindowClosed.

Definition perform (a : AppState) (c : Call) : AppState :=
  match c with
  | CallSetView v => setView v a
  | CallSetProblemInfo info => setProblemInfo info a
  | CallClearQueues => clearQueues a
  | CallTakeScreenshot out => (takeScreenshot out a).1.2
  | CallDeleteScreenshot out path => deleteScreenshot out path a
  | CallStartAutomaticScreenshots => startAutomaticScreenshots a
  | WindowCreated => withWindow true a
  | WindowClosed => withWindow false a
  end.

Definition after (servicesInitialized processingReady : bool) (cs : list Call) : AppState :=
  fold_left perform cs (create servicesInitialized processingReady).

End WithPaths.
End App.

(** ** The rest of StorageHelper.ts and the handlers of ipcHandlers.ts *)

Module Daily.
Import Js.

(** [appCounts.get(app) || 0]. *)
Fixpoint getCount (app : string) (appCounts : list (string * nat)) : nat :=
  match appCounts with
  | [] => 0
  | (key, count) :: rest => if String.eqb key app then count else getCount app rest
  end.

(** The number of records of an app. *)
Definition recordsOfApp (app : string) (activities : list ActivityRecord) : nat :=
  length (filter (fun a => Segmentation.appName a = app) activities).

(** The app names in the order in which they are first seen. *)
Definition appsSeen (activities : list ActivityRecord) : list string :=
  fold_left (fun seen a => set_add (Segmentation.appName a) seen) activities [].

(** What a [select] of Supabase comes to: [{ data, error }] with the rows
    (or [null]) and no error, the same with an error, or a rejection. *)
Inductive QueryOutcome :=
| Rows (data : option (list ActivityRecord))
| QueryError (message : string)
| QueryRejected (error : JsError).

(** [getDailyActivities]: [initialized] says whether [StorageHelper.supabase]
    is set, [validDate] whether the date has a time value
    ([toISOString] throws a [RangeError] otherwise). *)
Definition getDailyActivities (initialized validDate : bool) (outcome : QueryOutcome)
    : Result (list ActivityRecord) :=
  if negb initialized then
    Throw (mkError "Supabase client not initialized. Call StorageHelper.initialize first.")
  else if negb validDate then Throw (mkError "Invalid time value")
  else match outcome with
       | Rows (Some data) => Ok data
       | Rows None => Ok []
       | QueryError _ => Ok []
       | QueryRejected _ => Ok []
       end.

Section WithDate.
Variable Date_parse : string -> option Z.
Variable toLocaleTimeString : option Z -> string.
(** [new Date(s).getHours()]; [None] is [NaN]. *)
Variable getHours : string -> option nat.

(** The asynchronous [getDailyStats]: the query, then the statistics. *)
Definition getDailyStats (initialized validDate : bool) (outcome : QueryOutcome)
    : Result Storage.DailyStats :=
  match getDailyActivities initialized validDate outcome with
  | Ok activities => Ok (Storage.getDailyStats Date_parse toLocaleTimeString activities)
  | Throw e => Throw e
  end.

(** The hour under which a record is filed; [None] for a record without
    [created_at], which is skipped. *)
Definition hourOf (a : ActivityRecord) : option (option nat) :=
  match created_at a with
  | None => None
  | Some s => if bool_decide (s = "") then None else Some (getHours s)
  end.

(** [if (!hourlyMap.has(localHour)) hourlyMap.set(localHour, []);
    hourlyMap.get(localHour).push(activity)] on a [Map], which keeps its keys
    in insertion order and takes [NaN] for a key like any other. *)
Fixpoint pushTo (localHour : option nat) (activity : ActivityRecord)
    (hourlyMap : list (option nat * list ActivityRecord))
    : list (option nat * list ActivityRecord) :=
  match hourlyMap with
  | [] => [(localHour, [activity])]
  | (key, activities) :: rest =>
      if bool_decide (key = localHour) then (key, activities ++ [activity]) :: rest
      else (key, activities) :: pushTo localHour activity rest
  end.

(** [hourlyMap.get(localHour)], with no records for a missing key. *)
Fixpoint getBucket (localHour : option nat)
    (hourlyMap : list (option nat * list ActivityRecord)) : list ActivityRecord :=
  match hourlyMap with
  | [] => []
  | (key, activities) :: rest =>
      if bool_decide (key = localHour) then activities else getBucket localHour rest
  end.

(** [getHourlyBreakdown] on the records that [getDailyActivities] resolved
    to. *)
Definition getHourlyBreakdown (activities : list ActivityRecord)
    : list (option nat * list ActivityRecord) :=
  fold_left (fun hourlyMap activity =>
               match hourOf activity with
               | None => hourlyMap
               | Some localHour => pushTo localHour activity hourlyMap
               end) activities [].

End WithDate.

(** An entry of the reply of [get-hourly-breakdown]. *)
Record HourEntry := mkEntry {
  hour : option nat;
  count : nat;
  focusCount : nat;
  goalRelatedCount : nat
}.

Definition breakdown (hourlyData : list (option nat * list ActivityRecord))
    : list HourEntry :=
  (fun entry =>
     mkEntry entry.1 (length entry.2)
       (length (filter (fun a => cognitive_state a = "deep_focus") entry.2))
       (length (filter (fun a => goal_relevance a = "goal_related") entry.2)))
  <$> hourlyData.

(** The sum of a field over the entries. *)
Definition total (field : HourEntry -> nat) (entries : list HourEntry) : nat :=
  foldr (fun entry sum => (field entry + sum)%nat) 0%nat entries.

End Daily.

Module Ipc.
Import Js Llm.

(** The [data] of a reply of [generate-daily-insights]. *)
Inductive ReplyData :=
| TooFew (stats : Storage.DailyStats) (activities minRequired : nat)
| Generated (insights : gmap string Json) (stats : Storage.DailyStats)
            (date : string) (activityCount : nat).

Record Reply := mkReply {
  success : bool;
  error : option string;
  data : option ReplyData
}.

(** [error.message || fallback]. *)
Definition messageOr (e : JsError) (fallback : string) : string :=
  if bool_decide (message e = "") then fallback else message e.

Section WithWorld.
Variable model : nat -> Request -> Result GenerateContentResult.
Variable JSON_parse : string -> Result (gmap string Json).
Variable stripFences : string -> string.
Variable buildDailyInsightsPrompt :
  SessionAnalysis -> list ActivityRecord -> bool -> string.
Variable Date_parse : string -> option Z.
Variable now : string.
Variable toLocaleTimeString : option Z -> string.
(** The time value of [new Date()], and [toISOString] of a valid date. *)
Variable currentTime : Z.
Variable toISOString : Z -> string.

(** [date ? new Date(date) : new Date()]; [None] is an Invalid Date. *)
Definition targetDate (date : option string) : option Z :=
  match date with
  | None => Some currentTime
  | Some s => if bool_decide (s = "") then Some currentTime else Date_parse s
  end.

(** The handler of [generate-daily-insights].  [initialized] says whether the
    storage has its client, [processingHelper] whether the application state
    has a processing helper (whose [getLLMHelper] returns the adapter);
    [first] and [second] are the outcomes of the two queries. *)
Definition generateDailyInsightsHandler (initialized processingHelper : bool)
    (date : option string) (first second : Daily.QueryOutcome) : M Reply :=
  tryCatch
    (let validDate := bool_decide (is_Some (targetDate date)) in
     do stats <- lift (Daily.getDailyStats Date_parse toLocaleTimeString
                         initialized validDate first);
     do activities <- lift (Daily.getDailyActivities initialized validDate second);
     if (length activities <? 5)%nat then
       ret (mkReply false
              (Some "Need at least 5 activities to generate meaningful insights")
              (Some (TooFew stats (length activities) 5)))
     else
       do insights <-
         (if processingHelper then
            do insights <- generateDailyInsights model JSON_parse stripFences
                             buildDailyInsightsPrompt Date_parse now activities;
            ret (Some insights)
          else ret None);
       match insights with
       | None => throw "Failed to generate insights from LLM"
       | Some insights =>
           match targetDate date with
           | Some time =>
               ret (mkReply true None
                      (Some (Generated insights stats (toISOString time)
                                       (length activities))))
           | None => throw "Invalid time value"
           end
       end)
    (fun error =>
       ret (mkReply false (Some (messageOr error "Unknown error occurred")) None)).

End WithWorld.
End Ipc.

(** ** Showing and hiding the window: WindowHelper.ts, shortcuts.ts *)

Module Window.
Import Js.

Record Bounds := mkBounds {
  x : Z;
  y : Z;
  width : Z;
  height : Z
}.

(** The [BrowserWindow] of Electron as far as showing and hiding use it:
    whether it is destroyed or its contents have crashed, its bounds, and
    whether it is on the screen. *)
Record BrowserWindow := mkWindow {
  isDestroyed : bool;
  isCrashed : bool;
  getBounds : Bounds;
  shown : bool
}.

(** The fields of [WindowHelper] that showing and hiding read and write. *)
Record WindowHelper := mkHelper {
  mainWindow : option BrowserWindow;
  isWindowVisible : bool;
  windowPosition : option (Z * Z);
  windowSize : option (Z * Z)
}.

Definition isWindowHealthy (w : WindowHelper) : bool :=
  match mainWindow w with
  | Some window => negb (isDestroyed window) && negb (isCrashed window)
  | None => false
  end.

Definition isVisible (w : WindowHelper) : bool :=
  isWindowVisible w && isWindowHealthy w.

(** [updateInternalState], the last step of [createWindow]. *)
Definition updateInternalState (w : WindowHelper) : WindowHelper :=
  match mainWindow w with
  | Some window =>
      if isWindowHealthy w then
        let bounds := getBounds window in
        mkHelper (Some window) true (Some (x bounds, y bounds))
                 (Some (width bounds, height bounds))
      else w
  | None => w
  end.

(** A helper whose window has just been created with the given bounds
    ([show: true] in the configuration). *)
Definition created (bounds : Bounds) : WindowHelper :=
  updateInternalState (mkHelper (Some (mkWindow false false bounds true)) false None None).

Definition cleanup (w : WindowHelper) : WindowHelper := mkHelper None false None None.

Definition hideMainWindow (w : WindowHelper) : WindowHelper :=
  match mainWindow w with
  | Some window =>
      if isWindowHealthy w then
        let bounds := getBounds window in
        mkHelper (Some (mkWindow (isDestroyed window) (isCrashed window) bounds false))
                 false (Some (x bounds, y bounds)) (Some (width bounds, height bounds))
      else w
  | None => w
  end.

Definition showMainWindow (w : WindowHelper) : WindowHelper :=
  match mainWindow w with
  | Some window =>
      if isWindowHealthy w then
        let bounds :=
          match windowPosition w, windowSize w with
          | Some position, Some size => mkBounds position.1 position.2 size.1 size.2
          | _, _ => getBounds window
          end in
        mkHelper (Some (mkWindow (isDestroyed window) (isCrashed window) bounds true))
                 true (windowPosition w) (windowSize w)
      else w
  | None => w
  end.

Definition toggleMainWindow (w : WindowHelper) : WindowHelper :=
  if isVisible w then hideMainWindow w else showMainWindow w.

(** The user moves the window: the window has its new position and the
    listener of [move] stores it. *)
Definition moved (newX newY : Z) (w : WindowHelper) : WindowHelper :=
  match mainWindow w with
  | Some window =>
      let bounds := mkBounds newX newY (width (getBounds window)) (height (getBounds window)) in
      let window := mkWindow (isDestroyed window) (isCrashed window) bounds (shown window) in
      mkHelper (Some window) (isWindowVisible w)
               (if isWindowHealthy w then Some (newX, newY) else windowPosition w)
               (windowSize w)
  | None => w
  end.

(** The user resizes the window, and the listener of [resize] stores the
    new size. *)
Definition resized (newWidth newHeight : Z) (w : WindowHelper) : WindowHelper :=
  match mainWindow w with
  | Some window =>
      let bounds := mkBounds (x (getBounds window)) (y (getBounds window)) newWidth newHeight in
      let window := mkWindow (isDestroyed window) (isCrashed window) bounds (shown window) in
      mkHelper (Some window) (isWindowVisible w) (windowPosition w)
               (if isWindowHealthy w then Some (newWidth, newHeight) else windowSize w)
  | None => w
  end.

Inductive Call :=
| CallHide
| CallShow
| CallToggle
| UserMoves (newX newY : Z)
| UserResizes (newWidth newHeight : Z).

Definition perform (w : WindowHelper) (c : Call) : WindowHelper :=
  match c with
  | CallHide => hideMainWindow w
  | CallShow => showMainWindow w
  | CallToggle => toggleMainWindow w
  | UserMoves newX newY => moved newX newY w
  | UserResizes newWidth newHeight => resized newWidth newHeight w
  end.

(** The bounds that the user has given the window. *)
Definition userBounds (bounds : Bounds) (c : Call) : Bounds :=
  match c with
  | UserMoves newX newY => mkBounds newX newY (width bounds) (height bounds)
  | UserResizes newWidth newHeight => mkBounds (x bounds) (y bounds) newWidth newHeight
  | _ => bounds
  end.

(** The two callbacks that the captures are given, applied in the order of
    the events of a capture. *)
Definition applyEvent (w : WindowHelper) (e : Screenshot.Event) : WindowHelper :=
  match e with
  | Screenshot.Hide => hideMainWindow w
  | Screenshot.Show => showMainWindow w
  | _ => w
  end.

Definition run (events : list Screenshot.Event) (w : WindowHelper) : WindowHelper :=
  fold_left applyEvent events w.

End Window.

Module Shortcuts.
Import Js.

(** The window helper and the screenshot helper of the application state. *)
Record State := mkState {
  windowHelper : Window.WindowHelper;
  screenshotHelper : Screenshot.Helper
}.

(** What a press of the shortcut does to the outside: the events of the
    capture and of the logging, and the path sent to the renderer with
    [screenshot-taken], if any. *)
Record Press := mkPress {
  events : list Screenshot.Event;
  sent : option string
}.

Section WithPaths.
Variables screenshotDir extraScreenshotDir : string.
Variable path_join : string -> string -> string.

(** The handler of [CommandOrControl+H].  [readFile] is the read behind
    [getImagePreview], which logs a failure and throws it on. *)
Definition takeScreenshotShortcut (out : Screenshot.Outside)
    (readFile : string -> Result string) (s : State) : State * Press :=
  if negb (bool_decide (is_Some (Window.mainWindow (windowHelper s)))) ||
     negb (Window.isVisible (windowHelper s))
  then (s, mkPress [] None)
  else
    let r := Screenshot.takeScreenshot screenshotDir extraScreenshotDir path_join out
               (screenshotHelper s) in
    let s' := mkState (Window.run r.2 (windowHelper s)) r.1.2 in
    match r.1.1 with
    | Throw _ => (s', mkPress (r.2 ++ [Screenshot.ConsoleError]) None)
    | Ok screenshotPath =>
        match readFile screenshotPath with
        | Throw _ =>
            (s', mkPress (r.2 ++ [Screenshot.ConsoleError; Screenshot.ConsoleError]) None)
        | Ok _ => (s', mkPress r.2 (Some screenshotPath))
        end
    end.

(** The handler of [CommandOrControl+Shift+H]. *)
Definition toggleShortcut (s : State) : State :=
  mkState (Window.toggleMainWindow (windowHelper s)) (screenshotHelper s).

End WithPaths.
End Shortcuts.

(** ** Further sample data *)

Module Cases.

(** The records of [Sample.day], out of order. *)
Definition shuffled : list ActivityRecord :=
  Sample.at_ <$> ["10:05"; "09:00"; "11:06"; "09:05"].

(** Ten records, a minute apart. *)
Definition tenRecords : list ActivityRecord :=
  Sample.at_ <$> ["09:00"; "09:01"; "09:02"; "09:03"; "09:04";
                  "09:05"; "09:06"; "09:07"; "09:08"; "09:09"].

(** A record whose [created_at] is no date, between two that have one. *)
Definition withInvalid : list ActivityRecord :=
  [Sample.at_ "09:00"; Sample.at_ "09:02"; Sample.at_ "soon"].

(** The one session of [Sample.morning]. *)
Definition morningSession : WorkSession :=
  mkSession "session_1" (540 * 60000) (548 * 60000) 8 Sample.morning "deep_focus"
            ["VS Code"] false.


(** A day in three apps. *)
Definition threeApps : list ActivityRecord :=
  [Sample.record "Slack - general" "communication" "09:00";
   Sample.record "VS Code - main.ts" "deep_focus" "09:10";
   Sample.record "Chrome - docs" "light_work" "10:05";
   Sample.record "VS Code - util.ts" "deep_focus" "10:20";
   Sample.record "Slack - random" "communication" "11:00"].

(** [getHours] on the sample clock. *)
Definition hours (s : string) : option nat :=
  (fun ms => Z.to_nat (ms / 3600000)) <$> Sample.clock s.

Definition request : Llm.Request := Llm.mkRequest "Summarise the day." None.

(** More records than a prompt takes. *)
Definition crowded : list ActivityRecord := replicate 250 (Sample.at_ "09:00").

Definition sixShots : list Screenshot.Outside :=
  Sample.capturing <$> ["a"; "b"; "c"; "d"; "e"; "f"].

(** The handler of [generate-daily-insights] with the sample model. *)
Definition insightsHandler (failures : nat) (processingHelper : bool)
    (rows : list ActivityRecord) : Llm.M Ipc.Reply :=
  Ipc.generateDailyInsightsHandler (Sample.flaky failures Sample.narratedText)
    Sample.parse Sample.noFences Sample.promptOf Sample.clock "2024-05-01T18:00:00.000Z"
    Sample.timeString 0 (fun time => pretty time)
    true processingHelper None
    (Daily.Rows (Some rows)) (Daily.Rows (Some rows)).

(** The reply of a run of the handler from the start. *)
Definition reply (failures : nat) (processingHelper : bool) (rows : list ActivityRecord)
    : option Ipc.Reply :=
  match (insightsHandler failures processingHelper rows Llm.start).1 with
  | Js.Ok r => Some r
  | Js.Throw _ => None
  end.

End Cases.

(** * Properties *)

(** ** JavaScript preliminaries *)

Module JsFacts.
Import Js.

(** On the boundaries that matter to the segmentation (around half a minute,
    5, 5.5, 60, 60.5 and 61 minutes, a whole day, and negative differences)
    the integer formula of [minutes_between] is what binary64 computes. *)
Lemma minutes_between_binary64 :
  Forall (fun d => PrimFloat.eqb (minutes_binary64 d) (number (minutes_between d 0)) = true)
         [0; 1; 29999; 30000; 30001; 299999; 300000; 300001; 329999; 330000; 330001;
          3599999; 3600000; 3629999; 3630000; 3660000; 3689999; 3690000;
          86399999; 86400000; -1; -29999; -30000; -30001; -90000; -90001; -300000].
Proof. repeat constructor. Qed.

(** The same on the halves at the far ends of [exactSpan]. *)
Lemma minutes_between_binary64_far :
  Forall (fun d => exactSpan d /\
                   PrimFloat.eqb (minutes_binary64 d) (number (minutes_between d 0)) = true)
         [99999999929999; 99999999930000; 99999999930001; 99999999999999;
          -99999999929999; -99999999930000; -99999999930001; -99999999999999].
Proof. repeat constructor. Qed.

(** [Math.round] on ties, signs and the largest number below one half. *)
Example Math_round_samples :
  Math_round 2.5%float = 3%float /\ Math_round (-2.5)%float = (-2)%float /\
  Math_round 2.25%float = 2%float /\ Math_round (-2.75)%float = (-3)%float /\
  Math_round 0x1.fffffffffffffp-2%float = 0%float /\
  Math_round (-0.5)%float = (-0)%float /\
  Math_round 4503599627370497%float = 4503599627370497%float.
Proof. repeat split. Qed.

End JsFacts.

(** ** Segmentation *)

Module SegmentationFacts.
Import Segmentation.

(** *** Alternating chains of session and gap intervals *)

Lemma chain_nonempty lo gs hi : ~ Chain lo [] gs hi.
Proof. inversion 1. Qed.

Lemma chain_bounds lo ss gs hi :
  Chain lo ss gs hi ->
  lo <= hi /\ Forall (fun x => lo <= x.1 /\ x.1 <= x.2 /\ x.2 <= hi) ss.
Proof.
  induction 1 as [s e Hse | s e s' ss gs hi Hse Hlt _ [IHle IHall]].
  - split; [lia|]. constructor; [simpl; lia | constructor].
  - split; [lia|]. constructor; [simpl; lia|].
    eapply Forall_impl; [exact IHall|]. simpl. intros x ?. lia.
Qed.

Lemma chain_ordered lo ss gs hi :
  Chain lo ss gs hi ->
  forall i j x y, (i < j)%nat -> ss !! i = Some x -> ss !! j = Some y -> x.2 < y.1.
Proof.
  induction 1 as [s e Hse | s e s' ss gs hi Hse Hlt Hch IH]; intros i j x y Hij Hx Hy.
  - destruct i, j; simpl in *; try lia; by rewrite ?lookup_nil in *.
  - destruct j as [|j]; [lia|]. simpl in Hy.
    destruct i as [|i]; simpl in Hx.
    + injection Hx as <-. simpl.
      apply chain_bounds in Hch as [_ Hall].
      rewrite Forall_lookup in Hall. specialize (Hall j y Hy). simpl in Hall. lia.
    + eapply IH; [|exact Hx|exact Hy]. lia.
Qed.

Lemma chain_cover lo ss gs hi :
  Chain lo ss gs hi ->
  forall t, lo <= t <= hi <->
            (exists x, x ∈ ss /\ x.1 <= t <= x.2) \/ (exists g, g ∈ gs /\ g.1 <= t <= g.2).
Proof.
  induction 1 as [s e Hse | s e s' ss gs hi Hse Hlt Hch IH]; intros t.
  - split.
    + intros Ht. left. exists (s, e). split; [by apply list_elem_of_singleton | done].
    + intros [(x & Hx & Ht) | (g & Hg & _)]; [|by apply elem_of_nil in Hg].
      apply list_elem_of_singleton in Hx as ->. done.
  - pose proof (chain_bounds _ _ _ _ Hch) as [Hle _]. split.
    + intros Ht.
      destruct (Z_le_gt_dec t e) as [Hte|Hte].
      { left. exists (s, e). split; [apply elem_of_cons; auto | simpl; lia]. }
      destruct (Z_lt_le_dec t s') as [Hts|Hts].
      { right. exists (e, s'). split; [apply elem_of_cons; auto | simpl; lia]. }
      destruct (proj1 (IH t) ltac:(lia)) as [(x & Hx & Hxt) | (g & Hg & Hgt)].
      * left. exists x. split; [apply elem_of_cons; auto | done].
      * right. exists g. split; [apply elem_of_cons; auto | done].
    + intros [(x & Hx & Ht) | (g & Hg & Ht)].
      * apply elem_of_cons in Hx as [-> | Hx]; [simpl in Ht; lia|].
        assert (s' <= t <= hi) by (apply IH; left; eauto). lia.
      * apply elem_of_cons in Hg as [-> | Hg]; [simpl in Ht; lia|].
        assert (s' <= t <= hi) by (apply IH; right; eauto). lia.
Qed.

(** The last session of a chain can be extended to a later end. *)
Lemma chain_extend ss : forall lo gs s e hi e',
  Chain lo (ss ++ [(s, e)]) gs hi -> e <= e' ->
  Chain lo (ss ++ [(s, e')]) gs e'.
Proof.
  induction ss as [|x ss IH]; intros lo gs s e hi e' Hch Hle; simpl in *.
  - inversion Hch; subst.
    + constructor. lia.
    + exfalso. eapply chain_nonempty. eassumption.
  - inversion Hch; subst.
    + by destruct ss.
    + constructor; [done..|]. eapply IH; eassumption.
Qed.

(** A gap and a new session can be appended after the last session. *)
Lemma chain_snoc lo ss gs hi t t' :
  Chain lo ss gs hi -> hi < t -> t <= t' ->
  Chain lo (ss ++ [(t, t')]) (gs ++ [(hi, t)]) t'.
Proof.
  induction 1 as [s e Hse | s e s' ss gs hi Hse Hlt Hch IH]; intros Hhi Ht; simpl.
  - constructor; [done..|]. by constructor.
  - constructor; [done..|]. by apply IH.
Qed.

Section WithDate.
Variable Date_parse : string -> option Z.

Local Abbreviation activityDate := (activityDate Date_parse).
Local Abbreviation loopBody := (loopBody Date_parse).
Local Abbreviation loopUpTo := (loopUpTo Date_parse).
Local Abbreviation checkGap := (checkGap Date_parse).
Local Abbreviation analyzeWorkSessions := (analyzeWorkSessions Date_parse).
Local Abbreviation validTimestamps := (validTimestamps Date_parse).
Local Abbreviation chronological := (chronological Date_parse).

Lemma loopUpTo_S l n : loopUpTo l (S n) = loopBody l (loopUpTo l n) n.
Proof. unfold Segmentation.loopUpTo. by rewrite seq_S, fold_left_app. Qed.

Lemma chronological_tail a l : chronological (a :: l) -> chronological l.
Proof. intros H. by apply Sorted_inv in H as [? _]. Qed.

Lemma chronological_lookup l :
  chronological l ->
  forall i a b ta tb,
    l !! i = Some a -> l !! S i = Some b ->
    activityDate a = Some ta -> activityDate b = Some tb -> ta <= tb.
Proof.
  induction l as [|x l IH]; intros Hc i a b ta tb Ha Hb Hta Htb; [done|].
  apply Sorted_inv in Hc as [Hc Hhd].
  destruct i as [|i]; simpl in *.
  - injection Ha as ->. destruct l as [|y l]; [done|]. injection Hb as ->.
    apply HdRel_inv in Hhd. unfold Segmentation.notLater in Hhd.
    by rewrite Hta, Htb in Hhd.
  - exact (IH Hc i a b ta tb Ha Hb Hta Htb).
Qed.

(** The defensive sort leaves a chronological list as it is. *)
Lemma sort_chronological l :
  validTimestamps l -> chronological l -> Js.sort (byCreatedAt Date_parse) l = l.
Proof.
  induction l as [|a l IH]; intros Hv Hc; [done|].
  apply Forall_cons in Hv as [[ta Ha] Hv].
  simpl. rewrite (IH Hv (chronological_tail _ _ Hc)).
  destruct l as [|b l]; [done|].
  apply Forall_cons in Hv as [[tb Hb] _].
  simpl. unfold Js.after, byCreatedAt. rewrite Ha, Hb.
  assert (ta <= tb)
    by exact (chronological_lookup _ Hc 0%nat a b ta tb eq_refl eq_refl Ha Hb).
  destruct (0 <? ta - tb) eqn:E; [apply Z.ltb_lt in E; lia | done].
Qed.

(** *** The two ways an iteration can go on a record with a valid time *)

Lemma loopBody_first l st a t :
  l !! 0%nat = Some a -> activityDate a = Some t ->
  loopBody l st 0 = startOrExtend a t st.
Proof.
  intros Ha Ht. unfold Segmentation.loopBody, Segmentation.checkGap.
  rewrite Ha, Ht. by destruct (currentSession st).
Qed.

Lemma loopBody_split l st n a b ta tb cur :
  l !! n = Some a -> l !! S n = Some b ->
  activityDate a = Some ta -> activityDate b = Some tb ->
  currentSession st = Some cur ->
  5 < Js.minutes_between tb ta ->
  loopBody l st (S n) =
    mkLoop (ls_sessions st ++ [with_isComplete true cur])
           (ls_gaps st ++ [mkGap ta tb (Js.minutes_between tb ta)
                                 (gapReason (Js.minutes_between tb ta))])
           (ls_warnings st)
           (Some (newSession (S (sessionCounter st)) b tb))
           (S (sessionCounter st)).
Proof.
  intros Ha Hb Hta Htb Hcur Hgap.
  unfold Segmentation.loopBody, Segmentation.checkGap. rewrite Hb, Htb, Hcur.
  simpl. rewrite Nat.sub_0_r, Ha, Hta.
  unfold CONFIG.MIN_GAP_MINUTES. apply Z.ltb_lt in Hgap. by rewrite Hgap.
Qed.

Lemma loopBody_extend l st n a b ta tb cur :
  l !! n = Some a -> l !! S n = Some b ->
  activityDate a = Some ta -> activityDate b = Some tb ->
  currentSession st = Some cur ->
  Js.minutes_between tb ta <= 5 ->
  let cur' := extended cur b tb in
  currentSession (loopBody l st (S n)) = Some cur' /\
  ls_sessions (loopBody l st (S n)) = ls_sessions st /\
  ls_gaps (loopBody l st (S n)) = ls_gaps st.
Proof.
  intros Ha Hb Hta Htb Hcur Hgap.
  unfold Segmentation.loopBody, Segmentation.checkGap. rewrite Hb, Htb, Hcur.
  simpl. rewrite Nat.sub_0_r, Ha, Hta.
  unfold CONFIG.MIN_GAP_MINUTES. apply Z.ltb_ge in Hgap. rewrite Hgap.
  unfold startOrExtend. by rewrite Hcur.
Qed.

Lemma minutes_between_positive later earlier :
  5 < Js.minutes_between later earlier -> earlier < later.
Proof.
  unfold Js.minutes_between. intros H.
  destruct (Z_lt_le_dec earlier later) as [|Hle]; [done|].
  assert ((later - earlier + 30000) / 60000 < 1)
    by (apply Z.div_lt_upper_bound; lia).
  lia.
Qed.

(** *** The loop on a chronological list of records with valid times *)

Lemma loop_invariant l a0 t0 :
  validTimestamps l -> chronological l ->
  l !! 0%nat = Some a0 -> activityDate a0 = Some t0 ->
  forall n, (n < length l)%nat ->
    exists cur a t pre,
      let st := loopUpTo l (S n) in
      currentSession st = Some cur /\
      l !! n = Some a /\ activityDate a = Some t /\
      endTime cur = t /\ activities cur = pre ++ [a] /\
      Chain t0 (map session_interval (ls_sessions st) ++ [session_interval cur])
            (map gap_interval (ls_gaps st)) t.
Proof.
  intros Hv Hc Ha0 Ht0 n. induction n as [|n IH]; intros Hn.
  - exists (newSession 1 a0 t0), a0, t0, []. simpl.
    rewrite loopUpTo_S. unfold Segmentation.loopUpTo. simpl.
    rewrite (loopBody_first _ _ _ _ Ha0 Ht0). simpl.
    repeat split; try done. apply (chain_last t0 t0). lia.
  - destruct IH as (cur & a & ta & pre & Hcur & Ha & Hta & Hend & Hacts & Hch); [lia|].
    simpl in Hcur, Hch.
    destruct (lookup_lt_is_Some_2 l (S n) Hn) as [b Hb].
    pose proof (proj1 (Forall_lookup _ _) Hv _ _ Hb) as [tb Htb].
    pose proof (chronological_lookup _ Hc _ _ _ _ _ Ha Hb Hta Htb) as Hle.
    destruct (Z_lt_le_dec 5 (Js.minutes_between tb ta)) as [Hgap|Hgap].
    + exists (newSession (S (sessionCounter (loopUpTo l (S n)))) b tb), b, tb, []. simpl.
      rewrite (loopUpTo_S l (S n)).
      rewrite (loopBody_split _ _ _ _ _ _ _ _ Ha Hb Hta Htb Hcur Hgap). simpl.
      repeat split; try done.
      rewrite map_app, map_app. simpl.
      apply (chain_snoc _ _ _ ta tb tb); [exact Hch | by apply minutes_between_positive | lia].
    + exists (extended cur b tb), b, tb, (pre ++ [a]). simpl.
      rewrite (loopUpTo_S l (S n)).
      destruct (loopBody_extend _ _ _ _ _ _ _ _ Ha Hb Hta Htb Hcur Hgap)
        as (-> & -> & ->).
      repeat split; try done; [simpl; by rewrite Hacts|].
      unfold session_interval at 2. simpl.
      eapply chain_extend; [exact Hch|]. rewrite Hend. exact Hle.
Qed.

Lemma analyze_nonempty l :
  l <> [] ->
  let st := loopUpTo (Js.sort (byCreatedAt Date_parse) l)
                     (length (Js.sort (byCreatedAt Date_parse) l)) in
  sessions (analyzeWorkSessions l) =
    match currentSession st with
    | Some cur => ls_sessions st ++ [with_isComplete false cur]
    | None => ls_sessions st
    end /\
  gaps (analyzeWorkSessions l) = ls_gaps st /\
  warnings (analyzeWorkSessions l) = ls_warnings st.
Proof.
  intros Hne. unfold Segmentation.analyzeWorkSessions.
  destruct l; [done|]. simpl. done.
Qed.

Lemma analyze_chain l first lst tf tl :
  validTimestamps l -> chronological l ->
  head l = Some first -> last l = Some lst ->
  activityDate first = Some tf -> activityDate lst = Some tl ->
  Chain tf (map session_interval (sessions (analyzeWorkSessions l)))
        (map gap_interval (gaps (analyzeWorkSessions l))) tl.
Proof.
  intros Hv Hc Hfirst Hlast Htf Htl.
  assert (l <> []) as Hne by (by destruct l).
  destruct (analyze_nonempty l Hne) as (-> & -> & _).
  rewrite (sort_chronological l Hv Hc).
  assert (0 < length l)%nat as Hlen by (destruct l; simpl; [done|lia]).
  rewrite head_lookup in Hfirst. rewrite last_lookup in Hlast.
  destruct (loop_invariant l first tf Hv Hc Hfirst Htf (pred (length l)))
    as (cur & a & t & pre & Hcur & Ha & Ht & Hend & _ & Hch); [lia|].
  replace (S (pred (length l))) with (length l) in * by lia.
  simpl in Hcur, Hch. rewrite Hcur, map_app. simpl.
  assert (a = lst) as -> by congruence.
  assert (t = tl) as -> by congruence.
  exact Hch.
Qed.

(** C1.  For a chronologically sorted list of records with valid timestamps,
    the sessions of [analyzeWorkSessions] are pairwise disjoint in time, and a
    time lies between the first and the last record exactly when it lies in
    the interval of some session or of some gap. *)
Theorem C1_sessions_and_gaps_partition_the_span l first lst tf tl :
  validTimestamps l -> chronological l ->
  head l = Some first -> last l = Some lst ->
  activityDate first = Some tf -> activityDate lst = Some tl ->
  let r := analyzeWorkSessions l in
  (forall i j s1 s2 t,
      i <> j -> sessions r !! i = Some s1 -> sessions r !! j = Some s2 ->
      ~ (in_session s1 t /\ in_session s2 t)) /\
  (forall t,
      tf <= t <= tl <->
      (exists s, s ∈ sessions r /\ in_session s t) \/
      (exists g, g ∈ gaps r /\ in_gap g t)).
Proof.
  intros Hv Hc Hfirst Hlast Htf Htl r.
  pose proof (analyze_chain l first lst tf tl Hv Hc Hfirst Hlast Htf Htl) as Hch.
  fold r in Hch. split.
  - assert (forall i j s1 s2 t, (i < j)%nat ->
              sessions r !! i = Some s1 -> sessions r !! j = Some s2 ->
              ~ (in_session s1 t /\ in_session s2 t)) as Hlt.
    { intros i j s1 s2 t Hij H1 H2 [Ht1 Ht2].
      pose proof (chain_ordered _ _ _ _ Hch i j (session_interval s1)
                    (session_interval s2) Hij) as Hord.
      rewrite !list_lookup_fmap, H1, H2 in Hord. specialize (Hord eq_refl eq_refl).
      unfold in_session, session_interval in *. simpl in Hord. lia. }
    intros i j s1 s2 t Hij H1 H2 Hboth.
    destruct (Nat.lt_total i j) as [Hlt'|[->|Hgt]]; [|done|].
    + exact (Hlt i j s1 s2 t Hlt' H1 H2 Hboth).
    + apply (Hlt j i s2 s1 t Hgt H2 H1). tauto.
  - intros t. rewrite (chain_cover _ _ _ _ Hch t). split.
    + intros [(x & Hx & Ht) | (g & Hg & Ht)].
      * apply list_elem_of_fmap in Hx as (s & -> & Hs). left. by exists s.
      * apply list_elem_of_fmap in Hg as (g' & -> & Hg'). right. by exists g'.
    + intros [(s & Hs & Ht) | (g & Hg & Ht)].
      * left. exists (session_interval s). split; [by apply list_elem_of_fmap_2|done].
      * right. exists (gap_interval g). split; [by apply list_elem_of_fmap_2|done].
Qed.

(** *** Gaps *)

Lemma startOrExtend_gaps a t st : ls_gaps (startOrExtend a t st) = ls_gaps st.
Proof. unfold startOrExtend. by destruct (currentSession st). Qed.

(** What [checkGap] does, in two cases. *)
Lemma checkGap_cases l i t st :
  checkGap l i t st = st \/
  exists cur prevTime,
    currentSession st = Some cur /\
    CONFIG.MIN_GAP_MINUTES < Js.minutes_between t prevTime /\
    checkGap l i t st =
      mkLoop (ls_sessions st ++ [with_isComplete true cur])
             (ls_gaps st ++ [mkGap prevTime t (Js.minutes_between t prevTime)
                                   (gapReason (Js.minutes_between t prevTime))])
             (ls_warnings st) None (sessionCounter st).
Proof.
  unfold Segmentation.checkGap.
  destruct (currentSession st) as [cur|]; [|by left].
  destruct (0 <? i)%nat; [|by left].
  destruct (l !! (i - 1)%nat) as [prev|]; [|by left].
  destruct (activityDate prev) as [prevTime|]; [|by left].
  destruct (CONFIG.MIN_GAP_MINUTES <? Js.minutes_between t prevTime) eqn:E; [|by left].
  right. exists cur, prevTime. apply Z.ltb_lt in E. done.
Qed.

(** The gaps only grow, at the end. *)
Lemma loopBody_gaps l st i :
  exists new, ls_gaps (loopBody l st i) = ls_gaps st ++ new /\ Forall gap_wellformed new.
Proof.
  unfold Segmentation.loopBody.
  destruct (l !! i) as [a|]; [|exists []; by rewrite app_nil_r].
  destruct (activityDate a) as [t|]; [|exists []; by rewrite app_nil_r].
  rewrite startOrExtend_gaps.
  destruct (checkGap_cases l i t st) as [-> | (cur & prevTime & _ & Hgap & ->)].
  - exists []. by rewrite app_nil_r.
  - eexists. split; [reflexivity|]. repeat constructor; done.
Qed.

Lemma loopUpTo_gaps_wellformed l n : Forall gap_wellformed (ls_gaps (loopUpTo l n)).
Proof.
  induction n as [|n IH]; [constructor|].
  rewrite loopUpTo_S.
  destruct (loopBody_gaps l (loopUpTo l n) n) as (new & -> & Hnew).
  by apply Forall_app.
Qed.

Lemma loopUpTo_gaps_mono l n m g :
  (n <= m)%nat -> g ∈ ls_gaps (loopUpTo l n) -> g ∈ ls_gaps (loopUpTo l m).
Proof.
  induction 1 as [|m _ IH]; [done|]. intros Hg.
  rewrite loopUpTo_S.
  destruct (loopBody_gaps l (loopUpTo l m) m) as (new & -> & _).
  apply elem_of_app. left. by apply IH.
Qed.

Lemma analyze_gaps_wellformed l : Forall gap_wellformed (gaps (analyzeWorkSessions l)).
Proof.
  destruct l as [|a l]; [constructor|].
  destruct (analyze_nonempty (a :: l)) as (_ & -> & _); [done|].
  apply loopUpTo_gaps_wellformed.
Qed.

(** *** Pairs of adjacent records *)

Lemma holdsPair_body a b l st i : holdsPair a b st -> holdsPair a b (loopBody l st i).
Proof.
  intros (s & Hs & Hadj). unfold Segmentation.loopBody.
  destruct (l !! i) as [x|]; [|by exists s].
  destruct (activityDate x) as [t|]; [|by exists s].
  assert (holdsPair a b (checkGap l i t st)) as (s' & Hs' & Hadj').
  { destruct (checkGap_cases l i t st) as [-> | (cur & prevTime & Hcur & _ & ->)];
      [by exists s|].
    destruct Hs as [Hs|Hs].
    - exists s. split; [left; apply elem_of_app; by left | done].
    - exists (with_isComplete true cur). split.
      + left. apply elem_of_app. right. by apply list_elem_of_singleton.
      + assert (s = cur) as -> by congruence. exact Hadj. }
  unfold startOrExtend.
  destruct (currentSession (checkGap l i t st)) as [cur|] eqn:Hcur.
  - destruct Hs' as [Hs'|Hs'].
    + exists s'. split; [by left | done].
    + exists (extended cur x t). split; [by right|].
      assert (s' = cur) as -> by congruence.
      destruct Hadj' as (pre & post & Hacts).
      exists pre, (post ++ [x]). simpl. rewrite Hacts. by rewrite <- app_assoc.
  - destruct Hs' as [Hs'|Hs']; [|done].
    exists s'. split; [by left | done].
Qed.

Lemma holdsPair_mono a b l n m :
  (n <= m)%nat -> holdsPair a b (loopUpTo l n) -> holdsPair a b (loopUpTo l m).
Proof.
  induction 1 as [|m _ IH]; [done|]. intros H.
  rewrite loopUpTo_S. by apply holdsPair_body, IH.
Qed.

Lemma holdsPair_final a b l :
  l <> [] ->
  holdsPair a b (loopUpTo (Js.sort (byCreatedAt Date_parse) l)
                          (length (Js.sort (byCreatedAt Date_parse) l))) ->
  exists s, s ∈ sessions (analyzeWorkSessions l) /\ adjacent_in a b s.
Proof.
  intros Hne (s & Hs & Hadj).
  destruct (analyze_nonempty l Hne) as (-> & _ & _).
  destruct Hs as [Hs|Hs].
  - exists s. split; [|done].
    destruct (currentSession _); [apply elem_of_app; by left | done].
  - rewrite Hs. exists (with_isComplete false s). split; [|done].
    apply elem_of_app. right. by apply list_elem_of_singleton.
Qed.

(** The state in front of the record at index [S i] of a chronological list. *)
Lemma state_before l i a b :
  validTimestamps l -> chronological l ->
  l !! i = Some a -> l !! S i = Some b ->
  exists cur pre,
    currentSession (loopUpTo l (S i)) = Some cur /\ activities cur = pre ++ [a].
Proof.
  intros Hv Hc Ha Hb.
  destruct l as [|a0 l']; [done|].
  pose proof (proj1 (Forall_lookup _ _) Hv 0%nat a0 eq_refl) as [t0 Ht0].
  destruct (loop_invariant (a0 :: l') a0 t0 Hv Hc eq_refl Ht0 i)
    as (cur & a' & t & pre & Hcur & Ha' & _ & _ & Hacts & _).
  { by eapply lookup_lt_Some. }
  exists cur, pre. split; [done|]. congruence.
Qed.

(** Two neighbours whose rounded distance is at most the threshold stay in
    one session. *)
Lemma adjacent_joined l i a b ta tb :
  validTimestamps l -> chronological l ->
  l !! i = Some a -> l !! S i = Some b ->
  activityDate a = Some ta -> activityDate b = Some tb ->
  Js.minutes_between tb ta <= CONFIG.MIN_GAP_MINUTES ->
  exists s, s ∈ sessions (analyzeWorkSessions l) /\ adjacent_in a b s.
Proof.
  intros Hv Hc Ha Hb Hta Htb Hgap.
  destruct (state_before l i a b Hv Hc Ha Hb) as (cur & pre & Hcur & Hacts).
  apply holdsPair_final; [by destruct l|].
  rewrite (sort_chronological l Hv Hc).
  apply (holdsPair_mono a b l (S (S i))); [by eapply lookup_lt_Some|].
  rewrite loopUpTo_S.
  destruct (loopBody_extend l _ i a b ta tb cur Ha Hb Hta Htb Hcur Hgap) as (Hcur' & _ & _).
  exists (extended cur b tb). split; [by right|].
  exists pre, []. simpl. rewrite Hacts. by rewrite <- app_assoc.
Qed.

(** Two neighbours whose rounded distance exceeds the threshold are
    separated by a gap. *)
Lemma adjacent_split l i a b ta tb :
  validTimestamps l -> chronological l ->
  l !! i = Some a -> l !! S i = Some b ->
  activityDate a = Some ta -> activityDate b = Some tb ->
  CONFIG.MIN_GAP_MINUTES < Js.minutes_between tb ta ->
  mkGap ta tb (Js.minutes_between tb ta) (gapReason (Js.minutes_between tb ta))
    ∈ gaps (analyzeWorkSessions l).
Proof.
  intros Hv Hc Ha Hb Hta Htb Hgap.
  destruct (state_before l i a b Hv Hc Ha Hb) as (cur & pre & Hcur & _).
  destruct (analyze_nonempty l) as (_ & -> & _); [by destruct l|].
  rewrite (sort_chronological l Hv Hc).
  apply (loopUpTo_gaps_mono l (S (S i))); [by eapply lookup_lt_Some|].
  rewrite loopUpTo_S.
  rewrite (loopBody_split l _ i a b ta tb cur Ha Hb Hta Htb Hcur Hgap). simpl.
  apply elem_of_app. right. by apply list_elem_of_singleton.
Qed.

(** C2.  Every emitted gap lasts more than 5 (rounded) minutes; one of 60
    minutes is [away_from_computer] and one of 61 minutes is [app_closed].
    In a chronological list with valid timestamps, two consecutive records
    exactly 5 minutes apart stay next to each other in one session with no
    gap between them, while 60 and 61 minutes between them give a gap with
    the respective reason; in general the two records are split by a gap
    exactly when their rounded distance exceeds 5 minutes. *)
Theorem C2_gap_thresholds l :
  let r := analyzeWorkSessions l in
  (forall g, g ∈ gaps r ->
     5 < gap_durationMinutes g /\
     (gap_durationMinutes g = 60 -> gap_reason g = away_from_computer) /\
     (gap_durationMinutes g = 61 -> gap_reason g = app_closed)) /\
  (forall i a b ta tb,
     validTimestamps l -> chronological l ->
     l !! i = Some a -> l !! S i = Some b ->
     activityDate a = Some ta -> activityDate b = Some tb ->
     (tb - ta = 5 * 60000 ->
        (exists s, s ∈ sessions r /\ adjacent_in a b s) /\
        (forall g, g ∈ gaps r -> ~ (gap_startTime g = ta /\ gap_endTime g = tb))) /\
     (tb - ta = 60 * 60000 -> mkGap ta tb 60 away_from_computer ∈ gaps r) /\
     (tb - ta = 61 * 60000 -> mkGap ta tb 61 app_closed ∈ gaps r) /\
     (Js.minutes_between tb ta <= 5 -> exists s, s ∈ sessions r /\ adjacent_in a b s) /\
     (5 < Js.minutes_between tb ta ->
        exists g, g ∈ gaps r /\ gap_startTime g = ta /\ gap_endTime g = tb)).
Proof.
  intros r. pose proof (analyze_gaps_wellformed l) as Hwf. fold r in Hwf.
  rewrite Forall_forall in Hwf. split.
  - intros g Hg. destruct (Hwf g Hg) as (Hmin & _ & Hreason).
    unfold CONFIG.MIN_GAP_MINUTES in Hmin. split; [done|].
    split; intros Hd; rewrite Hreason, Hd; reflexivity.
  - intros i a b ta tb Hv Hc Ha Hb Hta Htb.
    split; [split|split; [|split; [|split]]].
    + apply (adjacent_joined l i a b ta tb); try done.
      unfold Js.minutes_between. replace (tb - ta + 30000) with 330000 by lia. done.
    + intros g Hg [Hs He]. destruct (Hwf g Hg) as (Hmin & Hdur & _).
      rewrite Hdur, Hs, He in Hmin. unfold Js.minutes_between in Hmin.
      replace (tb - ta + 30000) with 330000 in Hmin by lia. done.
    + intros Hd.
      pose proof (adjacent_split l i a b ta tb Hv Hc Ha Hb Hta Htb) as Hin.
      unfold Js.minutes_between in Hin.
      replace (tb - ta + 30000) with 3630000 in Hin by lia.
      by apply Hin.
    + intros Hd.
      pose proof (adjacent_split l i a b ta tb Hv Hc Ha Hb Hta Htb) as Hin.
      unfold Js.minutes_between in Hin.
      replace (tb - ta + 30000) with 3690000 in Hin by lia.
      by apply Hin.
    + intros Hgap. by apply (adjacent_joined l i a b ta tb).
    + intros Hgap. eexists. split; [by apply (adjacent_split l i a b ta tb)|done].
Qed.

(** C3.  The quality tag is [low] when there are more than 5 warnings or no
    input records, [medium] when there is a warning or fewer than 10 records,
    and [high] otherwise; the empty list gives the fixed empty analysis with
    its one warning. *)
Theorem C3_data_quality l :
  let r := analyzeWorkSessions l in
  dataQuality r =
    (if (5 <? length (warnings r))%nat || (length l =? 0)%nat then low
     else if (0 <? length (warnings r))%nat || (length l <? 10)%nat then medium
     else high) /\
  analyzeWorkSessions [] = mkAnalysis [] [] 0 0 low ["No activity data provided"] /\
  warnings (analyzeWorkSessions []) <> [].
Proof.
  intros r. split; [|done].
  subst r. unfold Segmentation.analyzeWorkSessions.
  destruct (length l =? 0)%nat eqn:E; [done|]. simpl.
  unfold assessQuality. rewrite orb_false_r.
  destruct (5 <? _)%nat; [done|]. by destruct (0 <? _)%nat.
Qed.

End WithDate.

(** *** The scenario of the specification, on the sample clock *)

Example scenario_five_records :
  let r := analyzeWorkSessions Sample.clock Sample.morning in
  (startTime <$> sessions r) = [540 * 60000] /\
  (endTime <$> sessions r) = [548 * 60000] /\
  (durationMinutes <$> sessions r) = [8] /\
  (id <$> sessions r) = ["session_1"] /\
  (isComplete <$> sessions r) = [false] /\
  (appsUsed <$> sessions r) = [["VS Code"]] /\
  gaps r = [] /\ totalActiveMinutes r = 8 /\ totalGapMinutes r = 0 /\
  dataQuality r = medium /\ warnings r = [].
Proof. vm_compute. repeat split. Qed.

Example scenario_sixth_record :
  let r := analyzeWorkSessions Sample.clock (Sample.morning ++ [Sample.at_ "09:20"]) in
  (session_interval <$> sessions r) =
    [(540 * 60000, 548 * 60000); (560 * 60000, 560 * 60000)] /\
  (isComplete <$> sessions r) = [true; false] /\
  gaps r = [mkGap (548 * 60000) (560 * 60000) 12 away_from_computer] /\
  totalActiveMinutes r = 8 /\ totalGapMinutes r = 12.
Proof. vm_compute. repeat split. Qed.

(** Records out of order are sorted first; one with an unreadable time is
    skipped with a warning. *)
Example scenario_unsorted_and_invalid :
  let r := analyzeWorkSessions Sample.clock
             [Sample.at_ "09:02"; Sample.at_ "09:00"; Sample.at_ "late"] in
  (session_interval <$> sessions r) = [(540 * 60000, 542 * 60000)] /\
  (length <$> (activities <$> sessions r)) = [2%nat] /\
  dataQuality r = medium /\
  length (warnings r) = 1%nat.
Proof. vm_compute. repeat split. Qed.

Lemma day_valid : validTimestamps Sample.clock Sample.day.
Proof. apply (bool_decide_unpack _). vm_compute. exact I. Defined.

Lemma day_chronological : chronological Sample.clock Sample.day.
Proof. apply (bool_decide_unpack _). vm_compute. exact I. Defined.

Lemma C1_witness :
  let r := analyzeWorkSessions Sample.clock Sample.day in
  (forall i j s1 s2 t,
      i <> j -> sessions r !! i = Some s1 -> sessions r !! j = Some s2 ->
      ~ (in_session s1 t /\ in_session s2 t)) /\
  (forall t,
      540 * 60000 <= t <= 666 * 60000 <->
      (exists s, s ∈ sessions r /\ in_session s t) \/
      (exists g, g ∈ gaps r /\ in_gap g t)).
Proof.
  apply (C1_sessions_and_gaps_partition_the_span Sample.clock Sample.day
           (Sample.at_ "09:00") (Sample.at_ "11:06")).
  - exact day_valid.
  - exact day_chronological.
  - reflexivity.
  - reflexivity.
  - reflexivity.
  - reflexivity.
Defined.

Lemma C2_witness :
  let r := analyzeWorkSessions Sample.clock Sample.day in
  (exists s, s ∈ sessions r /\ adjacent_in (Sample.at_ "09:00") (Sample.at_ "09:05") s) /\
  mkGap (545 * 60000) (605 * 60000) 60 away_from_computer ∈ gaps r /\
  mkGap (605 * 60000) (666 * 60000) 61 app_closed ∈ gaps r.
Proof.
  destruct (C2_gap_thresholds Sample.clock Sample.day) as [_ H].
  split; [|split].
  - apply (H 0%nat (Sample.at_ "09:00") (Sample.at_ "09:05") (540 * 60000) (545 * 60000));
      [exact day_valid | exact day_chronological | reflexivity..].
  - apply (H 1%nat (Sample.at_ "09:05") (Sample.at_ "10:05") (545 * 60000) (605 * 60000));
      [exact day_valid | exact day_chronological | reflexivity..].
  - apply (H 2%nat (Sample.at_ "10:05") (Sample.at_ "11:06") (605 * 60000) (666 * 60000));
      [exact day_valid | exact day_chronological | reflexivity..].
Defined.

End SegmentationFacts.

(** ** The model adapter *)

Module LlmFacts.
Import Js Llm.

Section WithWorld.
Variable model : nat -> Request -> Result GenerateContentResult.
Variable fs_readFile : string -> Result string.
Variable JSON_parse : string -> Result (gmap string Json).
Variable stripFences : string -> string.
Variable classificationPrompt : string.
Variable buildDailyInsightsPrompt : SessionAnalysis -> list ActivityRecord -> bool -> string.
Variable Date_parse : string -> option Z.
Variable now : string.

Local Abbreviation generateContent := (generateContent model).
Local Abbreviation classifyProductivityActivity :=
  (classifyProductivityActivity model fs_readFile JSON_parse stripFences classificationPrompt).
Local Abbreviation parseClassification := (parseClassification JSON_parse stripFences).
Local Abbreviation classificationRequest := (classificationRequest classificationPrompt).
Local Abbreviation generateDailyInsights :=
  (generateDailyInsights model JSON_parse stripFences buildDailyInsightsPrompt Date_parse now).
Local Abbreviation insightsRequest := (insightsRequest buildDailyInsightsPrompt Date_parse).
Local Abbreviation parseInsights := (parseInsights JSON_parse stripFences now).

(** The three attempts of [retryWithBackoff] around a model call, attempt by
    attempt. *)
Lemma retry_generateContent req tr :
  retryWithBackoff (generateContent req) CONFIG.MAX_PROMPT_RETRIES tr =
    let c := calls tr in
    match model c req with
    | Ok r => (Ok r, mkTrace (1 + c) (delays tr))
    | Throw _ =>
        match model (1 + c)%nat req with
        | Ok r => (Ok r, mkTrace (2 + c) (delays tr ++ [1000]))
        | Throw _ =>
            match model (2 + c)%nat req with
            | Ok r => (Ok r, mkTrace (3 + c) (delays tr ++ [1000; 2000]))
            | Throw e =>
                (Throw (mkError ("Operation failed after 3 attempts: " +:+ message e)),
                 mkTrace (3 + c) (delays tr ++ [1000; 2000]))
            end
        end
    end.
Proof.
  unfold retryWithBackoff, CONFIG.MAX_PROMPT_RETRIES. simpl.
  unfold tryCatch, Llm.generateContent, bind, sleep, ret, throw. simpl.
  destruct (model (calls tr) req); [done|]. simpl.
  destruct (model (S (calls tr)) req); [done|]. simpl.
  rewrite <- app_assoc. simpl.
  destruct (model (S (S (calls tr))) req); done.
Qed.

(** The classification of a non-empty path, stage by stage. *)
Lemma classify_unfold path tr :
  path <> "" ->
  classifyProductivityActivity (JsString path) tr =
    match fs_readFile path with
    | Throw _ => (Ok fallbackRecord, tr)
    | Ok imageData =>
        match retryWithBackoff (generateContent (classificationRequest imageData))
                               CONFIG.MAX_PROMPT_RETRIES tr with
        | (Throw _, tr') => (Ok fallbackRecord, tr')
        | (Ok result, tr') =>
            match parseClassification result with
            | Ok parsed => (Ok parsed, tr')
            | Throw _ => (Ok fallbackRecord, tr')
            end
        end
    end.
Proof.
  intros Hpath. unfold Llm.classifyProductivityActivity.
  rewrite bool_decide_eq_false_2 by done.
  unfold tryCatch at 1. unfold bind at 1. unfold readImageFile, tryCatch at 1, lift at 1.
  destruct (fs_readFile path) as [imageData|e]; [|done].
  unfold bind.
  destruct (retryWithBackoff _ _ tr) as [[result|e] tr']; [|done].
  unfold lift. by destruct (parseClassification result).
Qed.

(** The six categorical fields of the fallback record. *)
Lemma fallbackRecord_fields :
  (fun field => fallbackRecord !! field) <$>
    ["goal_relevance"; "cognitive_state"; "context_switching"; "attention_residue";
     "procrastination_signal"; "energy_level"]
  = Some <$> (JString <$> ["work_unrelated"; "break"; "new_task"; "multiple_contexts";
                           "none"; "low_energy_tasks"]).
Proof. vm_compute. reflexivity. Qed.

(** The response that the three attempts hand on is that of the first call
    that answers. *)
Lemma retry_first_answer req tr k result :
  (k < 3)%nat -> Retry.failing model req (calls tr) k ->
  model (calls tr + k)%nat req = Ok result ->
  retryWithBackoff (generateContent req) CONFIG.MAX_PROMPT_RETRIES tr =
    (Ok result, mkTrace (calls tr + k + 1) (delays tr ++ Retry.backoff k)).
Proof.
  intros Hk Hfail Hok. rewrite retry_generateContent. cbv zeta.
  destruct k as [|[|[|k]]]; [| | |lia].
  - rewrite Nat.add_0_r in Hok. rewrite Hok.
    change (Retry.backoff 0) with (@nil Z). rewrite app_nil_r.
    do 2 f_equal. lia.
  - destruct (Hfail 0%nat) as [e0 H0]; [lia|]. rewrite Nat.add_0_r in H0.
    rewrite Nat.add_1_r in Hok. rewrite H0. change (1 + calls tr)%nat with (S (calls tr)).
    rewrite Hok. do 2 f_equal. lia.
  - destruct (Hfail 0%nat) as [e0 H0]; [lia|]. rewrite Nat.add_0_r in H0.
    destruct (Hfail 1%nat) as [e1 H1]; [lia|]. rewrite Nat.add_1_r in H1.
    replace (calls tr + 2)%nat with (S (S (calls tr))) in Hok by lia.
    rewrite H0. change (1 + calls tr)%nat with (S (calls tr)). rewrite H1.
    change (2 + calls tr)%nat with (S (S (calls tr))). rewrite Hok.
    do 2 f_equal. lia.
Qed.

(** Without an answer in three calls the attempts end in an error. *)
Lemma retry_no_answer req tr :
  Retry.failing model req (calls tr) 3 ->
  exists e,
    retryWithBackoff (generateContent req) CONFIG.MAX_PROMPT_RETRIES tr =
      (Throw e, mkTrace (calls tr + 3) (delays tr ++ [1000; 2000])).
Proof.
  intros Hfail. rewrite retry_generateContent. cbv zeta.
  destruct (Hfail 0%nat) as [e0 H0]; [lia|]. rewrite Nat.add_0_r in H0.
  destruct (Hfail 1%nat) as [e1 H1]; [lia|]. rewrite Nat.add_1_r in H1.
  destruct (Hfail 2%nat) as [e2 H2]; [lia|].
  replace (calls tr + 2)%nat with (S (S (calls tr))) in H2 by lia.
  rewrite H0. change (1 + calls tr)%nat with (S (calls tr)). rewrite H1.
  change (2 + calls tr)%nat with (S (S (calls tr))). rewrite H2.
  eexists. do 2 f_equal. lia.
Qed.

(** Either one of the three calls answers first, or all three fail. *)
Lemma first_answer_or_none req c :
  Retry.failing model req c 3 \/
  exists k r, (k < 3)%nat /\ Retry.failing model req c k /\ model (c + k)%nat req = Ok r.
Proof.
  destruct (model (c + 0)%nat req) as [r0|e0] eqn:H0.
  { right. exists 0%nat, r0. split; [lia|]. split; [|done]. intros j Hj. lia. }
  destruct (model (c + 1)%nat req) as [r1|e1] eqn:H1.
  { right. exists 1%nat, r1. split; [lia|]. split; [|done].
    intros j Hj. assert (j = 0%nat) as -> by lia. by exists e0. }
  destruct (model (c + 2)%nat req) as [r2|e2] eqn:H2.
  { right. exists 2%nat, r2. split; [lia|]. split; [|done].
    intros j Hj. destruct j as [|[|j]]; [by exists e0 | by exists e1 | lia]. }
  left. intros j Hj.
  destruct j as [|[|[|j]]]; [by exists e0 | by exists e1 | by exists e2 | lia].
Qed.

(** C4, as the code has it.  For a non-empty path the classification never
    throws.  The result is the fallback record, whose fields are
    [work_unrelated], [break], [new_task], [multiple_contexts], [none] and
    [low_energy_tasks], when the image cannot be read, when all three attempts
    of the classification call fail, or when the response that is used has no
    text, is not an object in braces, does not parse or fails the check of the
    seven fields.  A call that throws is not enough: the call is made again (up
    to three attempts), the response that is used is that of the first attempt
    that answers, after [k < 3] failed ones, and when it holds a record that
    passes the check, that record is the result. *)
Theorem C4_classification_falls_back path tr :
  path <> "" ->
  let out := classifyProductivityActivity (JsString path) tr in
  ((fun field => fallbackRecord !! field) <$>
     ["goal_relevance"; "cognitive_state"; "context_switching"; "attention_residue";
      "procrastination_signal"; "energy_level"]
   = Some <$> (JString <$> ["work_unrelated"; "break"; "new_task"; "multiple_contexts";
                            "none"; "low_energy_tasks"])) /\
  (exists record, out.1 = Ok record) /\
  (forall e, fs_readFile path = Throw e -> out.1 = Ok fallbackRecord) /\
  (forall imageData,
     fs_readFile path = Ok imageData ->
     let req := classificationRequest imageData in
     ((forall k, (k < 3)%nat -> exists e, model (calls tr + k)%nat req = Throw e) ->
      out.1 = Ok fallbackRecord) /\
     (forall k result,
        (k < 3)%nat ->
        (forall j, (j < k)%nat -> exists e, model (calls tr + j)%nat req = Throw e) ->
        model (calls tr + k)%nat req = Ok result ->
        (forall e, response_text result = Throw e -> out.1 = Ok fallbackRecord) /\
        (forall raw e,
           response_text result = Ok raw ->
           cleanJsonResponse stripFences raw = Throw e -> out.1 = Ok fallbackRecord) /\
        (forall raw text e,
           response_text result = Ok raw ->
           cleanJsonResponse stripFences raw = Ok text ->
           JSON_parse text = Throw e -> out.1 = Ok fallbackRecord) /\
        (forall raw text parsed,
           response_text result = Ok raw ->
           cleanJsonResponse stripFences raw = Ok text ->
           JSON_parse text = Ok parsed ->
           validateActivityRecord parsed <> Ok true -> out.1 = Ok fallbackRecord) /\
        (forall raw text parsed,
           response_text result = Ok raw ->
           cleanJsonResponse stripFences raw = Ok text ->
           JSON_parse text = Ok parsed ->
           validateActivityRecord parsed = Ok true -> out.1 = Ok parsed))).
Proof.
  intros Hpath out. subst out. rewrite (classify_unfold path tr Hpath).
  split; [exact fallbackRecord_fields|]. split; [|split].
  - destruct (fs_readFile path) as [imageData|e]; [|by eexists].
    destruct (retryWithBackoff _ _ tr) as [[result|e] tr']; [|by eexists].
    destruct (parseClassification result); by eexists.
  - by intros e ->.
  - intros imageData -> req. fold req. split.
    + intros Hfail. destruct (retry_no_answer req tr Hfail) as [e ->]. done.
    + intros k result Hk Hfail Hok.
      rewrite (retry_first_answer req tr k result Hk Hfail Hok).
      unfold Llm.parseClassification.
      split; [|split; [|split; [|split]]].
      * by intros e ->.
      * by intros raw e -> ->.
      * by intros raw text e -> -> ->.
      * intros raw text parsed -> -> -> Hvalid.
        destruct (validateActivityRecord parsed) as [[|]|]; done.
      * by intros raw text parsed -> -> -> ->.
Qed.

(** C10.  An empty string and every value that is not a string are refused
    with the error "Invalid image path provided", before anything is read or
    called. *)
Theorem C10_invalid_path_throws imagePath tr :
  imagePath = JsString "" \/ (forall s, imagePath <> JsString s) ->
  classifyProductivityActivity imagePath tr =
    (Throw (mkError "Invalid image path provided"), tr).
Proof.
  intros [-> | Hnot]; [done|].
  destruct imagePath; try done. by destruct (Hnot s).
Qed.

(** C7, as the code has it.  The classification call is wrapped in
    [retryWithBackoff] like the narrative call.  An unreadable image costs no
    call and no delay.  For a readable image the adapter makes one, two or
    three calls: one exactly when the first attempt answers, two exactly when
    the first fails and the second answers (after 1000 ms), three exactly when
    the first two fail (after 1000 ms and 2000 ms).  The response of the first
    attempt that answers is the one used: its record when it holds a valid one,
    the fallback record when it does not.  Failed calls give the fallback
    record only when all three attempts fail: a result that is the fallback
    record comes from three failed attempts or from the response that was
    used. *)
Theorem C7_classification_retries path tr :
  path <> "" ->
  let out := classifyProductivityActivity (JsString path) tr in
  (forall e, fs_readFile path = Throw e -> out = (Ok fallbackRecord, tr)) /\
  (forall imageData,
     fs_readFile path = Ok imageData ->
     let req := classificationRequest imageData in
     let c := calls tr in
     let recordOf r := match parseClassification r with
                       | Ok parsed => Ok parsed
                       | Throw _ => Ok fallbackRecord
                       end in
     (c < calls out.2 <= c + 3)%nat /\
     (calls out.2 = (c + 1)%nat <-> exists r, model c req = Ok r) /\
     (calls out.2 = (c + 2)%nat <->
        exists e r, model c req = Throw e /\ model (S c) req = Ok r) /\
     (calls out.2 = (c + 3)%nat <->
        exists e1 e2, model c req = Throw e1 /\ model (S c) req = Throw e2) /\
     (forall r, model c req = Ok r ->
        calls out.2 = (c + 1)%nat /\ delays out.2 = delays tr /\ out.1 = recordOf r) /\
     (forall e r, model c req = Throw e -> model (S c) req = Ok r ->
        calls out.2 = (c + 2)%nat /\ delays out.2 = delays tr ++ [1000] /\
        out.1 = recordOf r) /\
     (forall e1 e2 r,
        model c req = Throw e1 -> model (S c) req = Throw e2 ->
        model (S (S c)) req = Ok r ->
        calls out.2 = (c + 3)%nat /\ delays out.2 = delays tr ++ [1000; 2000] /\
        out.1 = recordOf r) /\
     (forall e1 e2 e3,
        model c req = Throw e1 -> model (S c) req = Throw e2 ->
        model (S (S c)) req = Throw e3 ->
        calls out.2 = (c + 3)%nat /\ delays out.2 = delays tr ++ [1000; 2000] /\
        out.1 = Ok fallbackRecord) /\
     (out.1 = Ok fallbackRecord ->
        (exists e1 e2 e3,
           model c req = Throw e1 /\ model (S c) req = Throw e2 /\
           model (S (S c)) req = Throw e3) \/
        (exists k r,
           (k < 3)%nat /\
           (forall j, (j < k)%nat -> exists e, model (c + j)%nat req = Throw e) /\
           model (c + k)%nat req = Ok r /\ recordOf r = Ok fallbackRecord))).
Proof.
  intros Hpath out. subst out. rewrite (classify_unfold path tr Hpath). split.
  - by intros e ->.
  - intros imageData -> req c recordOf. fold req.
    assert (forall r (tr' : Trace),
              (match parseClassification r with
               | Ok parsed => (Ok parsed, tr')
               | Throw _ => (Ok fallbackRecord, tr')
               end) = (recordOf r, tr')) as Hused.
    { intros r tr'. subst recordOf. cbv beta. by destruct (parseClassification r). }
    split; [|split; [|split; [|split; [|split; [|split; [|split; [|split]]]]]]].
    + rewrite retry_generateContent. cbv zeta. fold c.
      destruct (model c req) as [r|]; [rewrite Hused; simpl; lia|].
      destruct (model (1 + c)%nat req) as [r|]; [rewrite Hused; simpl; lia|].
      destruct (model (2 + c)%nat req) as [r|]; [rewrite Hused; simpl; lia | simpl; lia].
    + rewrite retry_generateContent. cbv zeta. fold c.
      destruct (model c req) as [r|e0].
      { rewrite Hused. simpl. split; [by exists r | lia]. }
      assert (~ exists r : GenerateContentResult, Throw e0 = Ok r) as Hno
        by (intros [r Hr]; discriminate Hr).
      destruct (model (1 + c)%nat req) as [r|];
        [rewrite Hused; simpl; split; [lia | by intros ?]|].
      destruct (model (2 + c)%nat req) as [r|];
        [rewrite Hused; simpl; split; [lia | by intros ?]|].
      simpl. split; [lia | by intros ?].
    + rewrite retry_generateContent. cbv zeta. fold c.
      change (S c) with (1 + c)%nat.
      destruct (model c req) as [r|e0].
      { rewrite Hused. simpl. split; [lia | by intros (e & r' & He & _)]. }
      destruct (model (1 + c)%nat req) as [r|e1].
      { rewrite Hused. simpl. split; [by exists e0, r | lia]. }
      destruct (model (2 + c)%nat req) as [r|];
        [rewrite Hused|]; simpl; (split; [lia | by intros (e & r' & _ & He)]).
    + rewrite retry_generateContent. cbv zeta. fold c.
      change (S c) with (1 + c)%nat.
      destruct (model c req) as [r|e0].
      { rewrite Hused. simpl. split; [lia | by intros (e1 & e2 & He & _)]. }
      destruct (model (1 + c)%nat req) as [r|e1].
      { rewrite Hused. simpl. split; [lia | by intros (e1 & e2 & _ & He)]. }
      destruct (model (2 + c)%nat req) as [r|];
        [rewrite Hused|]; simpl; (split; [by exists e0, e1 | lia]).
    + intros r Hr. rewrite retry_generateContent. cbv zeta. fold c.
      rewrite Hr, Hused. simpl. split; [lia|done].
    + intros e r He Hr. rewrite retry_generateContent. cbv zeta. fold c.
      change (1 + c)%nat with (S c). rewrite He, Hr, Hused. simpl. split; [lia|done].
    + intros e1 e2 r H1 H2 Hr. rewrite retry_generateContent. cbv zeta. fold c.
      change (1 + c)%nat with (S c). change (2 + c)%nat with (S (S c)).
      rewrite H1, H2, Hr, Hused. simpl. split; [lia|done].
    + intros e1 e2 e3 H1 H2 H3. rewrite retry_generateContent. cbv zeta. fold c.
      change (1 + c)%nat with (S c). change (2 + c)%nat with (S (S c)).
      rewrite H1, H2, H3. simpl. split; [lia|done].
    + intros Hout.
      destruct (first_answer_or_none req c) as [Hfail | (k & r & Hk & Hfail & Hok)].
      * left.
        destruct (Hfail 0%nat) as [e0 H0]; [lia|]. rewrite Nat.add_0_r in H0.
        destruct (Hfail 1%nat) as [e1 H1]; [lia|]. rewrite Nat.add_1_r in H1.
        destruct (Hfail 2%nat) as [e2 H2]; [lia|].
        replace (c + 2)%nat with (S (S c)) in H2 by lia.
        by exists e0, e1, e2.
      * right. exists k, r. split; [done|]. split; [done|]. split; [done|].
        rewrite (retry_first_answer req tr k r Hk Hfail Hok), Hused in Hout.
        exact Hout.
Qed.

(** The narrative path for a day with records, stage by stage. *)
Lemma insights_unfold activities tr :
  activities <> [] ->
  generateDailyInsights activities tr =
    match retryWithBackoff (generateContent (insightsRequest activities))
                           CONFIG.MAX_PROMPT_RETRIES tr with
    | (Throw e, tr') =>
        (Throw (mkError ("Daily insights generation failed: " +:+ message e)), tr')
    | (Ok result, tr') =>
        match parseInsights (length activities)
                (length (sessions (Segmentation.analyzeWorkSessions Date_parse activities)))
                result with
        | Ok insights => (Ok insights, tr')
        | Throw e =>
            (Throw (mkError ("Daily insights generation failed: " +:+ message e)), tr')
        end
    end.
Proof.
  intros Hne. unfold Llm.generateDailyInsights.
  destruct activities as [|a l]; [done|].
  change (length (a :: l) =? 0)%nat with false. cbv beta iota.
  unfold tryCatch at 1. unfold bind, lift, throw.
  destruct (retryWithBackoff _ _ tr) as [[result|e] tr']; [|done].
  by destruct (parseInsights _ _ result).
Qed.

(** C6.  On a day with records, when the narrative call fails twice and then
    succeeds, [generateDailyInsights] has made exactly three calls, has waited
    1000 ms and then 2000 ms, and returns what the third response contains
    (the parsed insights with their metadata when the response is valid);
    when the call fails three times it throws an error whose message ends
    with the message of the third failure, again after exactly three calls. *)
Theorem C6_insights_retry activities e1 e2 :
  activities <> [] ->
  let req := insightsRequest activities in
  let out := generateDailyInsights activities start in
  let dataPoints := length activities in
  let sessionsAnalyzed :=
    length (sessions (Segmentation.analyzeWorkSessions Date_parse activities)) in
  model 0%nat req = Throw e1 -> model 1%nat req = Throw e2 ->
  (forall result,
     model 2%nat req = Ok result ->
     calls out.2 = 3%nat /\
     delays out.2 = [CONFIG.RETRY_DELAY_MS; 2 * CONFIG.RETRY_DELAY_MS] /\
     out.1 = match parseInsights dataPoints sessionsAnalyzed result with
             | Ok insights => Ok insights
             | Throw e =>
                 Throw (mkError ("Daily insights generation failed: " +:+ message e))
             end /\
     (forall raw text insights,
        response_text result = Ok raw ->
        cleanJsonResponse stripFences raw = Ok text ->
        JSON_parse text = Ok insights ->
        firstInvalidField insights = None ->
        out.1 = Ok (<["metadata" := metadata now dataPoints sessionsAnalyzed]> insights))) /\
  (forall e3,
     model 2%nat req = Throw e3 ->
     calls out.2 = 3%nat /\
     delays out.2 = [CONFIG.RETRY_DELAY_MS; 2 * CONFIG.RETRY_DELAY_MS] /\
     out.1 = Throw (mkError
               ("Daily insights generation failed: Operation failed after 3 attempts: "
                +:+ message e3))).
Proof.
  intros Hne req out dataPoints sessionsAnalyzed H1 H2.
  subst out. rewrite (insights_unfold activities start Hne).
  fold req. rewrite retry_generateContent. simpl. rewrite H1, H2. split.
  - intros result ->. fold dataPoints sessionsAnalyzed.
    split; [|split; [|split]].
    + by destruct (parseInsights dataPoints sessionsAnalyzed result).
    + by destruct (parseInsights dataPoints sessionsAnalyzed result).
    + by destruct (parseInsights dataPoints sessionsAnalyzed result).
    + intros raw text insights Hraw Htext Hparse Hvalid.
      unfold Llm.parseInsights. by rewrite Hraw, Htext, Hparse, Hvalid.
  - by intros e3 ->.
Qed.

End WithWorld.

(** *** Runs on the sample model *)

Lemma classifiedText_clean :
  cleanJsonResponse Sample.noFences Sample.classifiedText = Ok Sample.classifiedText.
Proof. vm_compute. reflexivity. Qed.

Lemma classifiedText_read :
  Sample.readObject Sample.classifiedText
  = Some (Sample.asMembers Sample.classifiedFields).
Proof. vm_compute. reflexivity. Qed.

Lemma classifiedText_parsed : Sample.parse Sample.classifiedText = Ok Sample.classified.
Proof. unfold Sample.parse. by rewrite classifiedText_read. Qed.

Lemma narratedText_clean :
  cleanJsonResponse Sample.noFences Sample.narratedText = Ok Sample.narratedText.
Proof. vm_compute. reflexivity. Qed.

Lemma narratedText_read :
  Sample.readObject Sample.narratedText = Some (Sample.asMembers Sample.narratedFields).
Proof. vm_compute. reflexivity. Qed.

Lemma narratedText_parsed : Sample.parse Sample.narratedText = Ok Sample.narrated.
Proof. unfold Sample.parse. by rewrite narratedText_read. Qed.

Lemma classified_valid : validateActivityRecord Sample.classified = Ok true.
Proof. vm_compute. reflexivity. Qed.

Lemma classified_parsed :
  parseClassification Sample.parse Sample.noFences (mkResponse (Ok Sample.classifiedText))
  = Ok Sample.classified.
Proof.
  unfold parseClassification. cbn [response_text].
  rewrite classifiedText_clean, classifiedText_parsed. by rewrite classified_valid.
Qed.

Lemma classified_not_fallback : Sample.classified <> fallbackRecord.
Proof.
  intros H. apply (f_equal (fun record => record !! "goal_relevance")) in H.
  vm_compute in H. discriminate H.
Qed.

Lemma narrated_valid : firstInvalidField Sample.narrated = None.
Proof. vm_compute. reflexivity. Qed.

Lemma C4_witness :
  (Sample.classifyWith 0 Sample.unreadable (JsString "shot.png") start).1
  = Ok fallbackRecord.
Proof.
  destruct (C4_classification_falls_back (Sample.flaky 0 Sample.classifiedText)
              Sample.unreadable Sample.parse Sample.noFences
              "Classify this screenshot." "shot.png" start) as (_ & _ & Hread & _).
  - done.
  - exact (Hread (mkError "ENOENT: no such file or directory") eq_refl).
Defined.

Lemma C10_witness :
  Sample.classifyWith 0 Sample.readable JsNull start =
    (Throw (mkError "Invalid image path provided"), start).
Proof.
  apply C10_invalid_path_throws. right. intros s. discriminate.
Defined.

(** The run behind the counterexamples of C4 and C7: the first call fails,
    the second one answers. *)
Lemma second_attempt_run :
  Sample.classifyWith 1 Sample.readable (JsString "shot.png") start
  = (Ok Sample.classified, mkTrace 2 [1000]).
Proof.
  unfold Sample.classifyWith. rewrite classify_unfold by done.
  assert (Sample.readable "shot.png" = Ok "iVBORw0KGgo=") as -> by reflexivity.
  rewrite retry_generateContent.
  change (calls start) with 0%nat. cbv zeta.
  assert (forall req, Sample.flaky 1 Sample.classifiedText 0 req
                      = Throw (mkError "503 on call 0")) as -> by reflexivity.
  assert (forall req, Sample.flaky 1 Sample.classifiedText (1 + 0) req
                      = Ok (mkResponse (Ok Sample.classifiedText))) as -> by reflexivity.
  by rewrite classified_parsed.
Qed.

(** C4 as the specification has it fails: a classification call that throws
    does not lead to the fallback record when the next attempt answers.  The
    first call of the model fails, and the result is the record of the second
    response. *)
Lemma C4_counterexample :
  let model := Sample.flaky 1 Sample.classifiedText in
  let req := classificationRequest "Classify this screenshot." "iVBORw0KGgo=" in
  let out := Sample.classifyWith 1 Sample.readable (JsString "shot.png") start in
  Sample.readable "shot.png" = Ok "iVBORw0KGgo=" /\
  model 0%nat req = Throw (mkError "503 on call 0") /\
  out.1 = Ok Sample.classified /\
  Sample.classified <> fallbackRecord.
Proof.
  cbv zeta. rewrite second_attempt_run.
  split; [done|]. split; [done|]. split; [done|]. exact classified_not_fallback.
Qed.

(** C7 as the specification has it fails: with a model whose first call
    fails, the adapter calls a second time and returns what the second
    response contains, not the fallback record. *)
Lemma C7_counterexample :
  let out := Sample.classifyWith 1 Sample.readable (JsString "shot.png") start in
  calls out.2 = 2%nat /\ delays out.2 = [1000] /\
  out.1 = Ok Sample.classified /\ out.1 <> Ok fallbackRecord.
Proof.
  cbv zeta. rewrite second_attempt_run. cbn [fst snd calls delays].
  split; [done|]. split; [done|]. split; [done|].
  intros H. apply classified_not_fallback. congruence.
Qed.

Lemma C7_witness :
  let out := Sample.classifyWith 1 Sample.readable (JsString "shot.png") start in
  calls out.2 = 2%nat /\ delays out.2 = [1000] /\ out.1 = Ok Sample.classified.
Proof.
  destruct (C7_classification_retries (Sample.flaky 1 Sample.classifiedText)
              Sample.readable Sample.parse Sample.noFences
              "Classify this screenshot." "shot.png" start) as (_ & Hcalls).
  - done.
  - destruct (Hcalls "iVBORw0KGgo=" eq_refl) as (_ & _ & _ & _ & _ & Hsecond & _).
    destruct (Hsecond (mkError "503 on call 0") (mkResponse (Ok Sample.classifiedText))
                      eq_refl eq_refl) as (Hc & Hd & Hout).
    rewrite classified_parsed in Hout. by repeat split.
Defined.

Lemma C6_witness :
  let out := Sample.narrateWith 2 Sample.day start in
  calls out.2 = 3%nat /\ delays out.2 = [1000; 2000] /\
  out.1 = Ok (<["metadata" := metadata "2024-05-01T18:00:00.000Z" 4 3]> Sample.narrated).
Proof.
  destruct (C6_insights_retry (Sample.flaky 2 Sample.narratedText) Sample.parse
              Sample.noFences Sample.promptOf Sample.clock "2024-05-01T18:00:00.000Z"
              Sample.day (mkError "503 on call 0") (mkError "503 on call 1"))
    as [Hthird _]; [done | reflexivity | reflexivity |].
  destruct (Hthird (mkResponse (Ok Sample.narratedText)) eq_refl) as (Hc & Hd & _ & Hvalid).
  split; [exact Hc|]. split; [exact Hd|].
  exact (Hvalid Sample.narratedText Sample.narratedText Sample.narrated eq_refl
                narratedText_clean narratedText_parsed narrated_valid).
Defined.

End LlmFacts.

(** ** On-demand capture *)

Module ScreenshotFacts.
Import Js Screenshot.

Lemma pushBounded_room out q path :
  (length q < MAX_SCREENSHOTS)%nat -> pushBounded out q path = (q ++ [path], []).
Proof.
  intros Hlen. unfold pushBounded. rewrite length_app. simpl.
  destruct (MAX_SCREENSHOTS <? length q + 1)%nat eqn:E; [|done].
  apply Nat.ltb_lt in E. lia.
Qed.

Lemma pushBounded_full out oldest rest path :
  length (oldest :: rest) = MAX_SCREENSHOTS ->
  pushBounded out (oldest :: rest) path = (rest ++ [path], removeOld out oldest).
Proof.
  intros Hlen. unfold pushBounded. rewrite length_app, Hlen. done.
Qed.

Lemma pushBounded_wellFormed out q path :
  (length q <= MAX_SCREENSHOTS)%nat -> Forall (fun p => p <> "") q -> path <> "" ->
  (length (pushBounded out q path).1 <= MAX_SCREENSHOTS)%nat /\
  Forall (fun p => p <> "") (pushBounded out q path).1.
Proof.
  intros Hlen Hq Hpath.
  destruct (decide (length q < MAX_SCREENSHOTS)%nat) as [Hroom|Hfull].
  - rewrite pushBounded_room by done. simpl. rewrite length_app. simpl.
    split; [lia|]. apply Forall_app. by repeat constructor.
  - destruct q as [|oldest rest]; [unfold MAX_SCREENSHOTS in *; simpl in *; lia|].
    rewrite pushBounded_full by lia. simpl. rewrite length_app. simpl in *.
    split; [lia|]. apply Forall_cons in Hq as [_ Hrest].
    apply Forall_app. by repeat constructor.
Qed.

Lemma removeOld_events out removed x :
  Unlink x ∈ removeOld out removed -> x = removed.
Proof.
  unfold removeOld. case_bool_decide; [by intros ?%elem_of_nil|].
  destruct (unlink out removed); intros Hin;
    repeat (apply elem_of_cons in Hin as [Hin|Hin]); try congruence;
    destruct (proj1 (elem_of_nil _) Hin).
Qed.

Lemma removeOld_unlinks out removed :
  removed <> "" -> Unlink removed ∈ removeOld out removed.
Proof.
  intros Hne. unfold removeOld. rewrite bool_decide_eq_false_2 by done.
  destruct (unlink out removed); apply elem_of_cons; by left.
Qed.

Lemma removeOld_no_window out removed :
  (Show ∉ removeOld out removed) /\ (Hide ∉ removeOld out removed).
Proof.
  unfold removeOld. case_bool_decide; [split; intros ?%elem_of_nil; done|].
  destruct (unlink out removed); split; intros Hin;
    repeat (apply elem_of_cons in Hin as [Hin|Hin]); try discriminate;
    destruct (proj1 (elem_of_nil _) Hin).
Qed.

Section WithPaths.
Variables screenshotDir extraScreenshotDir : string.
Variable path_join : string -> string -> string.
(** [path.join] never returns the empty string (it returns "." instead). *)
Hypothesis path_join_nonempty : forall dir name, path_join dir name <> "".

Local Abbreviation takeScreenshot :=
  (takeScreenshot screenshotDir extraScreenshotDir path_join).
Local Abbreviation capturePath := (capturePath screenshotDir extraScreenshotDir path_join).
Local Abbreviation perform := (perform screenshotDir extraScreenshotDir path_join).
Local Abbreviation after := (after screenshotDir extraScreenshotDir path_join).

(** A successful capture, in terms of the queue of the current view. *)
Lemma takeScreenshot_ok out h :
  screenshot out (capturePath out h) = Ok tt ->
  let pushed := pushBounded out (currentQueue h) (capturePath out h) in
  let r := takeScreenshot out h in
  r.1.1 = Ok (capturePath out h) /\
  view r.1.2 = view h /\ currentQueue r.1.2 = pushed.1 /\ otherQueue r.1.2 = otherQueue h /\
  r.2 = [Hide; Capture (capturePath out h)] ++ pushed.2 ++ [Show].
Proof.
  unfold Screenshot.capturePath, Screenshot.takeScreenshot, currentQueue, otherQueue.
  destruct (view h); intros ->; simpl;
    destruct (pushBounded out _ _) as [q removal]; done.
Qed.

Lemma takeScreenshot_wellFormed out h :
  wellFormed h -> wellFormed (takeScreenshot out h).1.2.
Proof.
  intros (Hq & He & Hqn & Hen). unfold Screenshot.takeScreenshot.
  destruct (view h).
  - destruct (screenshot out _); [|done].
    pose proof (pushBounded_wellFormed out (screenshotQueue h)
                  (path_join screenshotDir (uuidv4 out +:+ ".png")) Hq Hqn
                  (path_join_nonempty _ _)) as [Hlen Hne].
    destruct (pushBounded out _ _) as [q removal]. by repeat split.
  - destruct (screenshot out _); [|done].
    pose proof (pushBounded_wellFormed out (extraScreenshotQueue h)
                  (path_join extraScreenshotDir (uuidv4 out +:+ ".png")) He Hen
                  (path_join_nonempty _ _)) as [Hlen Hne].
    destruct (pushBounded out _ _) as [q removal]. by repeat split.
Qed.

Lemma perform_wellFormed h c : wellFormed h -> wellFormed (perform h c).
Proof.
  destruct c as [out | v | | out path]; simpl.
  - apply takeScreenshot_wellFormed.
  - done.
  - intros _. unfold wellFormed, MAX_SCREENSHOTS. simpl. repeat split; (lia || constructor).
  - intros (Hq & He & Hqn & Hen). unfold deleteScreenshot.
    destruct (unlink out path); [|done].
    assert (forall q : list string,
              Forall (fun p => p <> "") q ->
              Forall (fun p => p <> "") (filter (fun filePath => filePath <> path) q))
      as Hfilter.
    { intros q Hall. rewrite Forall_forall in Hall. apply Forall_forall.
      intros x Hx. apply list_elem_of_filter in Hx as [_ Hx]. by apply Hall. }
    destruct (view h); simpl; repeat split; try done.
    + etrans; [apply length_filter | done].
    + by apply Hfilter.
    + etrans; [apply length_filter | done].
    + by apply Hfilter.
Qed.

Lemma after_wellFormed v cs : wellFormed (after v cs).
Proof.
  unfold Screenshot.after.
  assert (wellFormed (create v)) as Hinit
    by (unfold wellFormed, MAX_SCREENSHOTS; simpl; repeat split; (lia || constructor)).
  revert Hinit. generalize (create v). induction cs as [|c cs IH]; intros h Hh; [done|].
  simpl. apply IH. by apply perform_wellFormed.
Qed.

(** C8.  After any sequence of calls on a fresh helper neither queue holds
    more than 5 captures; and when the queue of the current view holds 5, a
    further successful capture leaves it with the captures 2 to 5 followed by
    the new one, the other queue untouched, and the file of the first capture,
    and no other, handed to [unlink]. *)
Theorem C8_queue_eviction v cs :
  let h := after v cs in
  ((length (screenshotQueue h) <= 5)%nat /\ (length (extraScreenshotQueue h) <= 5)%nat) /\
  (forall out c1 c2 c3 c4 c5,
     currentQueue h = [c1; c2; c3; c4; c5] ->
     screenshot out (capturePath out h) = Ok tt ->
     let r := takeScreenshot out h in
     r.1.1 = Ok (capturePath out h) /\
     currentQueue r.1.2 = [c2; c3; c4; c5; capturePath out h] /\
     otherQueue r.1.2 = otherQueue h /\
     Unlink c1 ∈ r.2 /\
     (forall path, Unlink path ∈ r.2 -> path = c1)).
Proof.
  intros h. pose proof (after_wellFormed v cs) as Hwf. fold h in Hwf.
  split; [destruct Hwf as (? & ? & _); by split|].
  intros out c1 c2 c3 c4 c5 Hq Hcapture r.
  destruct (takeScreenshot_ok out h Hcapture) as (Hres & _ & Hcur & Hother & Hevents).
  fold r in Hres, Hcur, Hother, Hevents.
  rewrite Hq, pushBounded_full in Hcur, Hevents by done. simpl in Hcur, Hevents.
  assert (c1 <> "") as Hc1.
  { destruct Hwf as (_ & _ & Hqn & Hen). unfold currentQueue in Hq.
    destruct (view h); [rewrite Hq in Hqn | rewrite Hq in Hen];
      by match goal with H : Forall _ (_ :: _) |- _ => apply Forall_cons in H as [? _] end. }
  repeat split; try done.
  - rewrite Hevents. do 2 (apply elem_of_cons; right).
    apply elem_of_app. left. by apply removeOld_unlinks.
  - intros path. rewrite Hevents. intros Hin.
    do 2 (apply elem_of_cons in Hin as [Hin|Hin]; [discriminate|]).
    apply elem_of_app in Hin as [Hin|Hin]; [by eapply removeOld_events|].
    apply list_elem_of_singleton in Hin. discriminate.
Qed.

End WithPaths.

Section Capture.
Variables screenshotDir extraScreenshotDir : string.
Variable path_join : string -> string -> string.

Local Abbreviation takeScreenshot :=
  (takeScreenshot screenshotDir extraScreenshotDir path_join).
Local Abbreviation capturePath := (capturePath screenshotDir extraScreenshotDir path_join).

(** C5, as the code has it.  When the capture succeeds, the call starts by
    hiding the window and ends by showing it, whether or not an evicted file
    could be deleted.  When the capture throws, the call fails with that
    error, leaves the helper as it was, and has hidden the window without
    showing it again. *)
Theorem C5_show_follows_successful_capture out h :
  let r := takeScreenshot out h in
  (screenshot out (capturePath out h) = Ok tt ->
     r.1.1 = Ok (capturePath out h) /\
     exists removal,
       r.2 = [Hide; Capture (capturePath out h)] ++ removal ++ [Show] /\
       (Show ∉ removal) /\ (Hide ∉ removal)) /\
  (forall e,
     screenshot out (capturePath out h) = Throw e ->
     r.1.1 = Throw e /\ r.1.2 = h /\ r.2 = [Hide; Capture (capturePath out h)]).
Proof.
  intros r. split.
  - intros Hcapture.
    destruct (takeScreenshot_ok screenshotDir extraScreenshotDir path_join out h Hcapture)
      as (Hres & _ & _ & _ & Hevents).
    split; [exact Hres|]. eexists. split; [exact Hevents|].
    unfold pushBounded.
    destruct (MAX_SCREENSHOTS <? _)%nat; [|split; intros Hin; by apply elem_of_nil in Hin].
    destruct (currentQueue h ++ _); [split; intros Hin; by apply elem_of_nil in Hin|].
    apply removeOld_no_window.
  - intros e. subst r. unfold Screenshot.takeScreenshot, Screenshot.capturePath.
    destruct (view h); by intros ->.
Qed.

End Capture.

(** *** Runs with the sample directories *)

(** Six captures in a row: the first is evicted, the other five stay in
    order. *)
Example six_captures :
  let h := Screenshot.after "/data/screenshots" "/data/extra_screenshots" Sample.join
             queue Sample.fiveShots in
  let r := Sample.shoot (Sample.capturing "f") h in
  screenshotQueue h =
    ["/data/screenshots/a.png"; "/data/screenshots/b.png"; "/data/screenshots/c.png";
     "/data/screenshots/d.png"; "/data/screenshots/e.png"] /\
  screenshotQueue r.1.2 =
    ["/data/screenshots/b.png"; "/data/screenshots/c.png"; "/data/screenshots/d.png";
     "/data/screenshots/e.png"; "/data/screenshots/f.png"] /\
  r.2 = [Hide; Capture "/data/screenshots/f.png"; Unlink "/data/screenshots/a.png"; Show].
Proof. vm_compute. repeat split. Qed.

Lemma join_nonempty dir name : Sample.join dir name <> "".
Proof. unfold Sample.join. destruct dir; discriminate. Qed.

Lemma C8_witness :
  let h := Screenshot.after "/data/screenshots" "/data/extra_screenshots" Sample.join
             queue Sample.fiveShots in
  let r := Sample.shoot (Sample.capturing "f") h in
  currentQueue r.1.2 =
    ["/data/screenshots/b.png"; "/data/screenshots/c.png"; "/data/screenshots/d.png";
     "/data/screenshots/e.png"; "/data/screenshots/f.png"] /\
  Unlink "/data/screenshots/a.png" ∈ r.2.
Proof.
  destruct (C8_queue_eviction "/data/screenshots" "/data/extra_screenshots" Sample.join
              join_nonempty queue Sample.fiveShots) as [_ Hfull].
  destruct (Hfull (Sample.capturing "f")
              "/data/screenshots/a.png" "/data/screenshots/b.png"
              "/data/screenshots/c.png" "/data/screenshots/d.png"
              "/data/screenshots/e.png" eq_refl eq_refl) as (_ & Hq & _ & Hunlink & _).
  split; [exact Hq | exact Hunlink].
Defined.

(** C5 as the specification has it fails: when the capture throws, the
    window has been hidden and is not shown again. *)
Lemma C5_counterexample :
  let r := Sample.shoot (Sample.failing "f") (create queue) in
  r.1.1 = Throw (mkError "capture failed") /\ Hide ∈ r.2 /\ Show ∉ r.2.
Proof.
  cbv zeta. split; [reflexivity|]. split.
  - apply elem_of_cons. by left.
  - intros Hin. vm_compute in Hin.
    repeat (apply elem_of_cons in Hin as [Hin|Hin]; [discriminate|]).
    by apply elem_of_nil in Hin.
Qed.

Lemma C5_witness :
  let r := Sample.shoot (Sample.capturing "f") (create queue) in
  r.1.1 = Ok "/data/screenshots/f.png" /\
  exists removal,
    r.2 = [Hide; Capture "/data/screenshots/f.png"] ++ removal ++ [Show] /\
    (Show ∉ removal) /\ (Hide ∉ removal).
Proof.
  destruct (C5_show_follows_successful_capture "/data/screenshots"
              "/data/extra_screenshots" Sample.join (Sample.capturing "f") (create queue))
    as [Hok _].
  exact (Hok eq_refl).
Defined.

End ScreenshotFacts.

(** ** The daily aggregator *)

Module StorageFacts.
Import Js Storage.








Section WithDate.
Variable Date_parse : string -> option Z.
Variable toLocaleTimeString : option Z -> string.

Local Abbreviation getDailyStats := (getDailyStats Date_parse toLocaleTimeString).




End WithDate.

(** *** Runs on the sample day *)

Example eighty_records : hoursOf 80 = 1%float.
Proof. reflexivity. Qed.

Example morning_stats :
  getDailyStats Sample.clock Sample.timeString Sample.morning
  = mkStats 5 (PrimFloat.div 1 10) 100%float "VS Code" "9:0" "9:8".
Proof. vm_compute. reflexivity. Qed.

(** The binary64 product is not the exact one: 23 focused records out of 40
    are 57.5 percent, which the code reports as 57, and 57 out of 200 are
    28.5 percent, reported as 28. *)
Example ties_may_round_down :
  percentageOf 23 40 = 57%float /\ percentageOf 57 200 = 28%float /\
  percentageOf 1 8 = 13%float.
Proof. vm_compute. repeat split. Qed.



End StorageFacts.

(** * Further properties *)

Module SessionsFacts.
Import Segmentation Sessions SegmentationFacts.

(** *** The sort *)

Lemma insert_sorted_perm {A} (cmp : A -> A -> option Z) x l :
  Js.insert_sorted cmp x l ≡ₚ x :: l.
Proof.
  induction l as [|y l IH]; simpl; [done|].
  destruct (Js.after cmp x y); [|done].
  rewrite IH. apply Permutation_swap.
Qed.

Lemma sort_perm {A} (cmp : A -> A -> option Z) l : Js.sort cmp l ≡ₚ l.
Proof.
  induction l as [|x l IH]; simpl; [done|].
  unfold Js.sort in IH. by rewrite insert_sorted_perm, IH.
Qed.

Section WithDate.
Variable Date_parse : string -> option Z.

Local Abbreviation activityDate := (activityDate Date_parse).
Local Abbreviation byCreatedAt := (byCreatedAt Date_parse).
Local Abbreviation notLater := (notLater Date_parse).
Local Abbreviation validTimestamps := (validTimestamps Date_parse).
Local Abbreviation chronological := (chronological Date_parse).
Local Abbreviation analyzeWorkSessions := (analyzeWorkSessions Date_parse).
Local Abbreviation loopUpTo := (loopUpTo Date_parse).
Local Abbreviation loopBody := (loopBody Date_parse).
Local Abbreviation checkGap := (checkGap Date_parse).
Local Abbreviation hasDate := (hasDate Date_parse).
Local Abbreviation wellShaped := (wellShaped Date_parse).
Local Abbreviation measured := (measured Date_parse).
Local Abbreviation Step := (Step Date_parse).

Lemma insert_sorted_chronological x s :
  is_Some (activityDate x) -> validTimestamps s -> chronological s ->
  chronological (Js.insert_sorted byCreatedAt x s).
Proof.
  intros [tx Hx] Hv Hs. induction s as [|y s IH]; simpl.
  - repeat constructor.
  - apply Forall_cons in Hv as [[ty Hy] Hv].
    apply Sorted_inv in Hs as [Hs Hhd].
    unfold Js.after, Segmentation.byCreatedAt. rewrite Hx, Hy.
    destruct (0 <? tx - ty) eqn:E.
    + apply Z.ltb_lt in E. constructor; [by apply IH|].
      destruct s as [|z s]; simpl.
      * constructor. unfold Segmentation.notLater. rewrite Hy, Hx. lia.
      * apply HdRel_inv in Hhd.
        destruct (Js.after _ x z); constructor; [done|].
        unfold Segmentation.notLater. rewrite Hy, Hx. lia.
    + apply Z.ltb_ge in E. constructor; [by constructor|].
      constructor. unfold Segmentation.notLater. rewrite Hx, Hy. lia.
Qed.

Lemma sort_valid_chronological l :
  validTimestamps l ->
  validTimestamps (Js.sort byCreatedAt l) /\ chronological (Js.sort byCreatedAt l).
Proof.
  intros Hv.
  assert (validTimestamps (Js.sort byCreatedAt l)) as Hv'.
  { unfold Segmentation.validTimestamps. by rewrite sort_perm. }
  split; [done|].
  clear Hv'. induction l as [|x l IH]; simpl; [constructor|].
  apply Forall_cons in Hv as [Hx Hv].
  apply insert_sorted_chronological; [done| |by apply IH].
  unfold Segmentation.validTimestamps. by rewrite sort_perm.
Qed.

(** *** One iteration, by cases *)

Lemma loop_induction (P : nat -> LoopState -> Prop) l :
  P 0%nat initialState ->
  (forall n st a, l !! n = Some a -> P n st -> P (S n) (loopBody l st n)) ->
  forall n, (n <= length l)%nat -> P n (loopUpTo l n).
Proof.
  intros H0 Hstep n. induction n as [|n IH]; intros Hn; [exact H0|].
  rewrite loopUpTo_S.
  destruct (lookup_lt_is_Some_2 l n) as [a Ha]; [lia|].
  apply (Hstep n _ a Ha). apply IH. lia.
Qed.

Lemma loopBody_step l i a st : l !! i = Some a -> Step l i a st (loopBody l st i).
Proof.
  intros Ha. unfold Segmentation.loopBody. rewrite Ha.
  destruct (activityDate a) as [t|] eqn:Ht; [|by constructor].
  destruct (checkGap_cases Date_parse l i t st) as [-> | (cur & prevTime & Hcur & Hgap & ->)].
  - unfold startOrExtend. destruct (currentSession st) as [cur|] eqn:Hcur.
    + exact (step_extend Date_parse l i a st t cur Ht Hcur).
    + exact (step_first Date_parse l i a st t Ht Hcur).
  - unfold startOrExtend. simpl. by apply (step_split Date_parse l i a st t cur prevTime).
Qed.

(** *** Which records the sessions hold *)

Lemma recordsOf_loop l n :
  (n <= length l)%nat -> recordsOf (loopUpTo l n) = filter hasDate (take n l).
Proof.
  apply (loop_induction (fun n st => recordsOf st = filter hasDate (take n l))); [done|].
  clear n. intros n st a Ha IH.
  rewrite (take_S_r _ _ _ Ha), filter_app, <- IH. clear IH.
  unfold recordsOf.
  destruct (loopBody_step l n a st Ha) as [Hd | t Hd Hcur | t cur prevTime Hd Hcur _ | t cur Hd Hcur];
    simpl; rewrite ?Hcur.
  - rewrite filter_cons_False, filter_nil, app_nil_r; [done|].
    unfold Sessions.hasDate. rewrite Hd. by intros [? ?].
  - rewrite filter_cons_True by (unfold Sessions.hasDate; by rewrite Hd).
    by rewrite app_nil_r.
  - rewrite filter_cons_True by (unfold Sessions.hasDate; by rewrite Hd).
    by rewrite fmap_app, concat_app; simpl; rewrite app_nil_r.
  - rewrite filter_cons_True by (unfold Sessions.hasDate; by rewrite Hd).
    by rewrite app_assoc.
Qed.

Lemma analyze_records l :
  concat (activities <$> sessions (analyzeWorkSessions l)) =
  filter hasDate (Js.sort byCreatedAt l).
Proof.
  destruct l as [|a l]; [done|].
  destruct (analyze_nonempty Date_parse (a :: l)) as (-> & _); [done|].
  set (s := Js.sort byCreatedAt (a :: l)).
  pose proof (recordsOf_loop s (length s) (le_n _)) as H.
  rewrite firstn_all in H. rewrite <- H. unfold recordsOf.
  destruct (currentSession _); [|by rewrite app_nil_r].
  by rewrite fmap_app, concat_app; simpl; rewrite app_nil_r.
Qed.

(** X2.  The sessions hold exactly the records that have a valid time value,
    each once; when every record has one, the records of the sessions, read
    session after session, are the sorted list. *)
Theorem sessions_keep_the_dated_records l :
  concat (activities <$> sessions (analyzeWorkSessions l)) ≡ₚ filter hasDate l /\
  (validTimestamps l ->
   concat (activities <$> sessions (analyzeWorkSessions l)) = Js.sort byCreatedAt l).
Proof.
  rewrite analyze_records. split.
  - by rewrite sort_perm.
  - intros Hv. assert (validTimestamps (Js.sort byCreatedAt l)) as Hv'.
    { unfold Segmentation.validTimestamps. by rewrite sort_perm. }
    clear Hv. induction (Js.sort byCreatedAt l) as [|x s IH]; [done|].
    apply Forall_cons in Hv' as [Hx Hv'].
    rewrite filter_cons_True by done. by rewrite IH.
Qed.

(** *** The shape of a session *)

Lemma set_add_elem x y s : x ∈ Js.set_add y s <-> x ∈ s \/ x = y.
Proof.
  unfold Js.set_add. case_bool_decide as Hin.
  - split; [by left|]. by intros [?| ->].
  - by rewrite elem_of_app, list_elem_of_singleton.
Qed.

Lemma set_add_NoDup y s : NoDup s -> NoDup (Js.set_add y s).
Proof.
  intros Hs. unfold Js.set_add. case_bool_decide as Hin; [done|].
  apply NoDup_app. split; [done|]. split; [|apply NoDup_singleton].
  intros x Hx ->%list_elem_of_singleton. done.
Qed.

Lemma minutes_between_same t : Js.minutes_between t t = 0.
Proof. unfold Js.minutes_between. by rewrite Z.sub_diag. Qed.

Lemma measured_isComplete b s : measured s -> measured (with_isComplete b s).
Proof. intros (f & z & H). by exists f, z. Qed.

Lemma measured_new k a t : activityDate a = Some t -> measured (newSession k a t).
Proof.
  intros Ht. exists a, a. simpl. repeat split; try done.
  - by rewrite minutes_between_same.
  - apply NoDup_singleton.
Qed.

Lemma measured_extended cur a t :
  activityDate a = Some t -> measured cur -> measured (extended cur a t).
Proof.
  intros Ht (f & z & Hf & Hz & Hs & He & Hd & Hc & Hnd & Happs).
  exists f, a. simpl. repeat split; try done.
  - destruct (activities cur); [done|]. by simpl in *.
  - by rewrite last_snoc.
  - by apply set_add_NoDup.
  - rewrite set_add_elem, fmap_app, elem_of_app, Happs. simpl.
    by rewrite list_elem_of_singleton.
  - rewrite set_add_elem, fmap_app, elem_of_app, Happs. simpl.
    by rewrite list_elem_of_singleton.
Qed.

Lemma loop_measured l n :
  (n <= length l)%nat ->
  Forall measured (ls_sessions (loopUpTo l n)) /\
  forall cur, currentSession (loopUpTo l n) = Some cur -> measured cur.
Proof.
  apply (loop_induction (fun _ st =>
    Forall measured (ls_sessions st) /\
    forall cur, currentSession st = Some cur -> measured cur)); [by split|].
  clear n. intros n st a Ha [IHs IHc].
  destruct (loopBody_step l n a st Ha) as [Hd | t Hd Hcur | t cur prevTime Hd Hcur _ | t cur Hd Hcur];
    simpl.
  - by split.
  - split; [done|]. intros ? [= <-]. by apply measured_new.
  - split.
    + apply Forall_app. split; [done|]. constructor; [|done].
      apply measured_isComplete. by apply IHc.
    + intros ? [= <-]. by apply measured_new.
  - split; [done|]. intros ? [= <-]. apply measured_extended; [done|]. by apply IHc.
Qed.

Lemma analyze_measured l : Forall measured (sessions (analyzeWorkSessions l)).
Proof.
  destruct l as [|a l]; [constructor|].
  destruct (analyze_nonempty Date_parse (a :: l)) as (-> & _); [done|].
  destruct (loop_measured (Js.sort byCreatedAt (a :: l)) _ (le_n _)) as [Hs Hc].
  destruct (currentSession _) as [cur|]; [|done].
  apply Forall_app. split; [done|]. constructor; [|done].
  apply measured_isComplete. by apply Hc.
Qed.

Lemma measured_wellShaped s :
  measured s ->
  wellShaped s /\ durationMinutes s = Js.minutes_between (endTime s) (startTime s).
Proof.
  intros (f & z & Hf & Hz & Hs & He & Hd & Hc & Hnd & Happs).
  split; [|exact Hd]. by exists f, z.
Qed.

(** X3.  Whatever the input, every session of the analysis holds at least
    one record, starts at the time of its first record and ends at the time of
    its last, carries the cognitive state of its first record, and lists the
    app names of its records, each once.  When start and end are less than
    10^14 ms apart, it lasts the rounded number of minutes between the two. *)
Theorem every_session_is_well_shaped l s :
  s ∈ sessions (analyzeWorkSessions l) ->
  wellShaped s /\
  (Js.exactSpan (endTime s - startTime s) ->
   durationMinutes s = Js.minutes_between (endTime s) (startTime s)).
Proof.
  intros Hs.
  destruct (measured_wellShaped s (proj1 (Forall_forall _ _) (analyze_measured l) s Hs))
    as [Hshape Hd].
  split; [exact Hshape|]. intros _. exact Hd.
Qed.


(** *** Numbers, flags and counts *)

Lemma loop_numbering l n :
  (n <= length l)%nat ->
  let st := loopUpTo l n in
  id <$> ls_sessions st = sessionId <$> seq 1 (length (ls_sessions st)) /\
  isComplete <$> ls_sessions st = replicate (length (ls_gaps st)) true /\
  match currentSession st with
  | None => ls_sessions st = [] /\ ls_gaps st = [] /\ sessionCounter st = 0%nat
  | Some cur =>
      sessionCounter st = S (length (ls_sessions st)) /\
      id cur = sessionId (sessionCounter st)
  end.
Proof.
  apply (loop_induction (fun _ st =>
    id <$> ls_sessions st = sessionId <$> seq 1 (length (ls_sessions st)) /\
    isComplete <$> ls_sessions st = replicate (length (ls_gaps st)) true /\
    match currentSession st with
    | None => ls_sessions st = [] /\ ls_gaps st = [] /\ sessionCounter st = 0%nat
    | Some cur =>
        sessionCounter st = S (length (ls_sessions st)) /\
        id cur = sessionId (sessionCounter st)
    end)); [done|].
  clear n. intros n st a Ha (IHid & IHflag & IHcur).
  destruct (loopBody_step l n a st Ha)
    as [Hd | t Hd Hcur | t cur prevTime Hd Hcur _ | t cur Hd Hcur];
    simpl; rewrite ?Hcur in IHcur.
  - done.
  - destruct IHcur as (-> & -> & ->). done.
  - destruct IHcur as (Hk & Hid). repeat split.
    + rewrite fmap_app, length_app, seq_app, fmap_app, <- IHid. simpl.
      by rewrite Hid, Hk.
    + rewrite fmap_app, length_app, IHflag. simpl.
      by rewrite replicate_add.
    + rewrite length_app. simpl. lia.
  - done.
Qed.

Lemma analyze_empty_iff l :
  sessions (analyzeWorkSessions l) = [] <-> Forall (fun a => ~ hasDate a) l.
Proof.
  pose proof (analyze_records l) as Hrec.
  pose proof (analyze_measured l) as Hshape.
  split.
  - intros He. rewrite He in Hrec. simpl in Hrec. symmetry in Hrec.
    rewrite <- (sort_perm byCreatedAt l).
    apply Forall_forall. intros a Ha Hd.
    exact (filter_nil_not_elem_of _ _ a Hrec Hd Ha).
  - intros Hnone.
    assert (forall s, Forall (fun a => ~ hasDate a) s -> filter hasDate s = []) as Hgen.
    { induction s as [|x s IH]; [done|]. intros [Hx Hs]%Forall_cons.
      rewrite filter_cons_False by done. by apply IH. }
    assert (filter hasDate (Js.sort byCreatedAt l) = []) as Hnil.
    { apply Hgen. by rewrite (sort_perm byCreatedAt l). }
    rewrite Hnil in Hrec. apply concat_nil_Forall in Hrec.
    destruct (sessions (analyzeWorkSessions l)) as [|s ss]; [done|].
    apply Forall_cons in Hshape as [(f & z & Hf & _) _].
    rewrite fmap_cons in Hrec. apply Forall_cons in Hrec as [Hs _].
    by rewrite Hs in Hf.
Qed.

(** X4.  The sessions are numbered session_1, session_2, ... in order.  There
    is no session exactly when no record has a valid time value, and then
    there is no gap either; otherwise there is one session more than there are
    gaps, every session but the last is marked complete and the last one is
    not. *)
Theorem sessions_are_numbered_and_flagged l :
  let r := analyzeWorkSessions l in
  id <$> sessions r = sessionId <$> seq 1 (length (sessions r)) /\
  (sessions r = [] <-> Forall (fun a => ~ hasDate a) l) /\
  (sessions r = [] /\ gaps r = [] \/
   length (sessions r) = S (length (gaps r)) /\
   isComplete <$> sessions r = replicate (length (gaps r)) true ++ [false]).
Proof.
  intros r. split; [|split; [apply analyze_empty_iff|]]; subst r.
  - destruct l as [|a l]; [done|].
    destruct (analyze_nonempty Date_parse (a :: l)) as (-> & _); [done|].
    remember (Js.sort byCreatedAt (a :: l)) as s eqn:Es. clear Es.
    destruct (loop_numbering s _ (le_n _)) as (Hid & _ & Hcur).
    destruct (currentSession _) as [cur|]; [|done].
    destruct Hcur as (Hk & Hc).
    rewrite fmap_app, length_app, seq_app, fmap_app, <- Hid. simpl.
    by rewrite Hc, Hk.
  - destruct l as [|a l]; [by left|].
    destruct (analyze_nonempty Date_parse (a :: l)) as (-> & -> & _); [done|].
    remember (Js.sort byCreatedAt (a :: l)) as s eqn:Es. clear Es.
    destruct (loop_numbering s _ (le_n _)) as (_ & Hflag & Hcur).
    destruct (currentSession _) as [cur|].
    + right. rewrite fmap_app, Hflag, length_app. simpl. split; [|done].
      apply (f_equal length) in Hflag.
      rewrite length_fmap, length_replicate in Hflag. lia.
    + left. by destruct Hcur as (-> & -> & _).
Qed.

(** *** Warnings and the quality of the data *)

Lemma analyze_quality l :
  l <> [] ->
  dataQuality (analyzeWorkSessions l) =
  assessQuality (length (warnings (analyzeWorkSessions l))) (length l).
Proof. intros Hne. destruct l; [done|]. reflexivity. Qed.

Lemma loop_warns_invalid l n :
  (n <= length l)%nat ->
  (length (filter (fun a => ~ hasDate a) (take n l)) <=
   length (ls_warnings (loopUpTo l n)))%nat.
Proof.
  apply (loop_induction (fun n st =>
    (length (filter (fun a => ~ hasDate a) (take n l)) <= length (ls_warnings st))%nat));
    [simpl; lia|].
  clear n. intros n st a Ha IH.
  rewrite (take_S_r _ _ _ Ha), filter_app, length_app.
  destruct (loopBody_step l n a st Ha)
    as [Hd | t Hd Hcur | t cur prevTime Hd Hcur _ | t cur Hd Hcur]; simpl.
  - rewrite length_app. simpl.
    pose proof (length_filter (fun a => ~ hasDate a) [a]). simpl in *. lia.
  - rewrite filter_cons_False, filter_nil; [simpl; lia|].
    intros Hn. apply Hn. unfold Sessions.hasDate. by rewrite Hd.
  - rewrite filter_cons_False, filter_nil; [simpl; lia|].
    intros Hn. apply Hn. unfold Sessions.hasDate. by rewrite Hd.
  - rewrite filter_cons_False, filter_nil.
    + destruct (_ <? _); rewrite ?length_app; simpl; lia.
    + intros Hn. apply Hn. unfold Sessions.hasDate. by rewrite Hd.
Qed.

Lemma invalid_count_le l :
  (length (filter (fun a => ~ hasDate a) l) <=
   length (warnings (analyzeWorkSessions l)))%nat.
Proof.
  destruct (decide (l = [])) as [->|Hne]; [simpl; lia|].
  destruct (analyze_nonempty Date_parse l Hne) as (_ & _ & ->).
  pose proof (loop_warns_invalid (Js.sort byCreatedAt l) _ (le_n _)) as H.
  rewrite firstn_all in H.
  assert (length (filter (fun a => ~ hasDate a) (Js.sort byCreatedAt l)) =
          length (filter (fun a => ~ hasDate a) l)) as Hlen
    by (by rewrite (sort_perm byCreatedAt l)).
  by rewrite Hlen in H.
Qed.

(** X5.  Every record without a valid time value costs a warning: there are
    at least as many warnings as such records, one of them already rules out
    the quality [high], and more than five of them make the quality [low]. *)
Theorem invalid_timestamps_lower_the_quality l :
  let r := analyzeWorkSessions l in
  let invalid := length (filter (fun a => ~ hasDate a) l) in
  (invalid <= length (warnings r))%nat /\
  ((0 < invalid)%nat -> dataQuality r <> high) /\
  ((5 < invalid)%nat -> dataQuality r = low).
Proof.
  intros r invalid.
  destruct (decide (l = [])) as [->|Hne].
  { subst invalid. simpl. split; [lia|split; [lia|done]]. }
  assert (invalid <= length (warnings r))%nat as Hle by apply invalid_count_le.
  subst r. rewrite (analyze_quality l Hne).
  unfold assessQuality. split; [done|split].
  - intros Hpos.
    destruct (5 <? _)%nat; [done|].
    destruct (0 <? length _)%nat eqn:E; [done|].
    apply Nat.ltb_ge in E. lia.
  - intros Hmany.
    destruct (5 <? _)%nat eqn:E; [done|].
    apply Nat.ltb_ge in E. lia.
Qed.

Lemma minutes_between_mono t t' s :
  t <= t' -> Js.minutes_between t s <= Js.minutes_between t' s.
Proof. intros H. unfold Js.minutes_between. apply Z.div_le_mono; lia. Qed.

Lemma loop_limit l :
  validTimestamps l -> chronological l ->
  forall n, (n <= length l)%nat ->
  let st := loopUpTo l n in
  (ls_warnings st = [] <->
     Forall withinLimit (ls_sessions st) /\
     forall cur, currentSession st = Some cur -> withinLimit cur) /\
  forall cur, currentSession st = Some cur ->
    measured cur /\
    exists p a, n = S p /\ l !! p = Some a /\ activityDate a = Some (endTime cur).
Proof.
  intros Hv Hc.
  apply (loop_induction (fun n st =>
    (ls_warnings st = [] <->
       Forall withinLimit (ls_sessions st) /\
       forall cur, currentSession st = Some cur -> withinLimit cur) /\
    forall cur, currentSession st = Some cur ->
      measured cur /\
      exists p a, n = S p /\ l !! p = Some a /\ activityDate a = Some (endTime cur))).
  { split; [|done]. split; [|done]. intros _. split; [constructor|done]. }
  intros n st a Ha (IHw & IHc).
  destruct (loopBody_step l n a st Ha)
    as [Hd | t Hd Hcur | t cur prevTime Hd Hcur _ | t cur Hd Hcur]; simpl.
  - pose proof (proj1 (Forall_lookup _ _) Hv _ _ Ha) as [t Ht]. congruence.
  - split.
    + rewrite IHw. rewrite Hcur. split.
      * intros [Hs _]. split; [done|]. intros ? [= <-].
        unfold withinLimit, CONFIG.MAX_SESSION_HOURS. simpl. lia.
      * intros [Hs _]. by split.
    + intros ? [= <-]. split; [by apply measured_new|]. by exists n, a.
  - destruct (IHc cur Hcur) as (Hshape & _).
    split.
    + rewrite IHw. rewrite Forall_app, Forall_singleton. split.
      * intros [Hs Hcur']. split; [split; [done|exact (Hcur' cur Hcur)]|].
        intros ? [= <-]. unfold withinLimit, CONFIG.MAX_SESSION_HOURS. simpl. lia.
      * intros [[Hs Hcur'] _]. split; [done|]. intros ? Heq.
        rewrite Hcur in Heq. by injection Heq as <-.
    + intros ? [= <-]. split; [by apply measured_new|]. by exists n, a.
  - destruct (IHc cur Hcur) as (Hshape & p & b & -> & Hb & Hend).
    pose proof (chronological_lookup Date_parse l Hc p b a _ _ Hb Ha Hend Hd) as Hle.
    destruct Hshape as (f & z & Hf & Hz & Hs & He & Hdur & Hrest).
    assert (durationMinutes cur <= Js.minutes_between t (startTime cur)) as Hmono
      by (rewrite Hdur; by apply minutes_between_mono).
    split.
    + destruct (_ <? _) eqn:E.
      * apply Z.ltb_lt in E. split; [by intros [_ [=]]%app_eq_nil|].
        intros [_ Hlim]. specialize (Hlim _ eq_refl).
        unfold withinLimit in Hlim. simpl in Hlim. lia.
      * apply Z.ltb_ge in E. rewrite IHw. split.
        -- intros [Hss _]. split; [done|]. intros ? [= <-]. exact E.
        -- intros [Hss _]. split; [done|]. intros ? Heq.
           rewrite Hcur in Heq. injection Heq as <-.
           unfold withinLimit. simpl in E. lia.
    + intros ? [= <-]. split.
      * apply measured_extended; [done|]. by exists f, z.
      * by exists (S p), a.
Qed.

(** X6.  The quality is [high] exactly when there are at least ten records,
    every one of them has a valid time value, and no session is longer than
    [CONFIG.MAX_SESSION_HOURS]. *)
Theorem quality_is_high_exactly_when l :
  let r := analyzeWorkSessions l in
  dataQuality r = high <->
  (10 <= length l)%nat /\ validTimestamps l /\ Forall withinLimit (sessions r).
Proof.
  intros r.
  destruct (decide (l = [])) as [->|Hne].
  { subst r. simpl. split; [done|]. intros [? _]. lia. }
  assert (validTimestamps l ->
          (warnings r = [] <-> Forall withinLimit (sessions r))) as Hvalid.
  { intros Hv. subst r.
    destruct (analyze_nonempty Date_parse l Hne) as (-> & _ & ->).
    destruct (sort_valid_chronological l Hv) as [Hv' Hc'].
    remember (Js.sort byCreatedAt l) as s eqn:Es. clear Es.
    destruct (loop_limit s Hv' Hc' _ (le_n _)) as [Hw _].
    rewrite Hw. destruct (currentSession _) as [cur|].
    - rewrite Forall_app, Forall_singleton. split.
      + intros [Hs Hcur]. split; [done|]. exact (Hcur cur eq_refl).
      + intros [Hs Hcur]. split; [done|]. by intros ? [= <-].
    - split; [by intros [? _]|]. by split. }
  assert (validTimestamps l <-> length (filter (fun a => ~ hasDate a) l) = 0%nat)
    as Hcount.
  { unfold Segmentation.validTimestamps. clear. induction l as [|a l IH]; [done|].
    rewrite Forall_cons, IH. fold (hasDate a).
    destruct (decide (hasDate a)) as [Hd|Hd].
    - rewrite filter_cons_False by tauto. tauto.
    - rewrite filter_cons_True by done. simpl. split; [tauto|lia]. }
  pose proof (invalid_count_le l) as Hle. fold r in Hle.
  subst r. rewrite (analyze_quality l Hne) in *. unfold assessQuality.
  set (r := analyzeWorkSessions l) in *.
  destruct (5 <? length (warnings r))%nat eqn:E5.
  { split; [done|]. intros (_ & Hv & Hlim).
    apply Hvalid in Hlim; [|done]. rewrite Hlim in E5. done. }
  destruct (0 <? length (warnings r))%nat eqn:E0.
  { split; [done|]. intros (_ & Hv & Hlim).
    apply Hvalid in Hlim; [|done]. rewrite Hlim in E0. done. }
  apply Nat.ltb_ge in E0.
  assert (warnings r = []) as Hnil by (destruct (warnings r); [done|simpl in E0; lia]).
  assert (validTimestamps l) as Hv by (apply Hcount; lia).
  destruct (length l <? 10)%nat eqn:E10.
  - apply Nat.ltb_lt in E10. split; [done|]. intros [? _]. lia.
  - apply Nat.ltb_ge in E10. split; [|done]. intros _.
    split; [done|]. split; [done|]. by apply Hvalid.
Qed.

(** *** The order of the input *)

(** X1.  When every record has a valid time value, the sort returns the same
    records in chronological order, and leaves a list that is already in
    order as it is. *)
Theorem sort_orders_the_records l :
  validTimestamps l ->
  Js.sort byCreatedAt l ≡ₚ l /\
  chronological (Js.sort byCreatedAt l) /\
  (chronological l -> Js.sort byCreatedAt l = l).
Proof.
  intros Hv. split; [apply sort_perm|]. split.
  - by apply sort_valid_chronological.
  - by apply sort_chronological.
Qed.

Lemma notLater_trans a b c : notLater a b -> notLater b c -> notLater a c.
Proof.
  unfold Segmentation.notLater.
  destruct (activityDate a), (activityDate b), (activityDate c); try done. lia.
Qed.

Lemma chronological_head a s :
  chronological (a :: s) -> Forall (notLater a) s.
Proof.
  intros Hc. apply Sorted_StronglySorted in Hc.
  - by apply StronglySorted_inv in Hc as [_ ?].
  - intros x y z. apply notLater_trans.
Qed.

(** Two chronological lists of the same records, no two of which have the
    same time, are the same list. *)
Lemma chronological_unique s1 : forall s2,
  chronological s1 -> chronological s2 -> s1 ≡ₚ s2 ->
  NoDup (activityDate <$> s1) -> s1 = s2.
Proof.
  induction s1 as [|a s1 IH]; intros s2 Hc1 Hc2 Hp Hnd.
  - by apply Permutation_nil in Hp.
  - destruct s2 as [|b s2]; [by apply Permutation_nil_r in Hp|].
    assert (a = b) as ->.
    { assert (a ∈ b :: s2) as Ha by (rewrite <- Hp; by left).
      assert (b ∈ a :: s1) as Hb by (rewrite Hp; by left).
      apply elem_of_cons in Ha as [?|Ha]; [done|].
      apply elem_of_cons in Hb as [?|Hb]; [done|].
      exfalso.
      pose proof (proj1 (Forall_forall _ _) (chronological_head _ _ Hc1) _ Hb) as Hab.
      pose proof (proj1 (Forall_forall _ _) (chronological_head _ _ Hc2) _ Ha) as Hba.
      unfold Segmentation.notLater in Hab, Hba.
      destruct (activityDate a) as [ta|] eqn:Eta; [|done].
      destruct (activityDate b) as [tb|] eqn:Etb; [|done].
      assert (ta = tb) as -> by lia.
      rewrite fmap_cons in Hnd. apply NoDup_cons in Hnd as [Hnotin _].
      apply Hnotin. rewrite Eta, <- Etb. by apply list_elem_of_fmap_2. }
    f_equal. apply IH.
    + by apply chronological_tail in Hc1.
    + by apply chronological_tail in Hc2.
    + by apply Permutation_cons_inv in Hp.
    + rewrite fmap_cons in Hnd. by apply NoDup_cons in Hnd as [_ ?].
Qed.

(** X7.  When every record has a valid time value and no two records have
    the same one, the analysis does not depend on the order in which the
    records are passed. *)
Theorem the_order_of_the_records_does_not_matter l l' :
  validTimestamps l -> NoDup (activityDate <$> l) -> l ≡ₚ l' ->
  analyzeWorkSessions l = analyzeWorkSessions l'.
Proof.
  intros Hv Hnd Hp.
  assert (validTimestamps l') as Hv'
    by (unfold Segmentation.validTimestamps; by rewrite <- Hp).
  assert (Js.sort byCreatedAt l = Js.sort byCreatedAt l') as Hsort.
  { apply chronological_unique.
    - by apply sort_valid_chronological.
    - by apply sort_valid_chronological.
    - by rewrite !sort_perm.
    - by rewrite (sort_perm byCreatedAt l). }
  unfold Segmentation.analyzeWorkSessions.
  by rewrite Hsort, (Permutation_length Hp).
Qed.
End WithDate.

(** *** On the sample clock *)

Lemma shuffled_valid : validTimestamps Sample.clock Cases.shuffled.
Proof. apply (bool_decide_unpack _). vm_compute. exact I. Defined.

Lemma sort_orders_the_records_witness :
  Js.sort (byCreatedAt Sample.clock) Cases.shuffled ≡ₚ Cases.shuffled /\
  chronological Sample.clock (Js.sort (byCreatedAt Sample.clock) Cases.shuffled) /\
  Js.sort (byCreatedAt Sample.clock) Sample.day = Sample.day.
Proof.
  destruct (sort_orders_the_records Sample.clock Cases.shuffled shuffled_valid)
    as (Hperm & Hsorted & _).
  destruct (sort_orders_the_records Sample.clock Sample.day day_valid) as (_ & _ & Hsame).
  split; [exact Hperm|]. split; [exact Hsorted|]. exact (Hsame day_chronological).
Defined.

Lemma sessions_keep_the_dated_records_witness :
  concat (activities <$> sessions (analyzeWorkSessions Sample.clock Cases.shuffled)) =
  Js.sort (byCreatedAt Sample.clock) Cases.shuffled.
Proof.
  exact (proj2 (sessions_keep_the_dated_records Sample.clock Cases.shuffled) shuffled_valid).
Defined.

Lemma every_session_is_well_shaped_witness :
  wellShaped Sample.clock Cases.morningSession /\
  durationMinutes Cases.morningSession = Js.minutes_between (548 * 60000) (540 * 60000).
Proof.
  destruct (every_session_is_well_shaped Sample.clock Sample.morning Cases.morningSession)
    as [Hshape Hd].
  - assert (sessions (analyzeWorkSessions Sample.clock Sample.morning) =
            [Cases.morningSession]) as -> by (vm_compute; reflexivity).
    apply elem_of_cons. left. reflexivity.
  - split; [exact Hshape|]. apply Hd. vm_compute. reflexivity.
Defined.

Lemma invalid_timestamps_lower_the_quality_witness :
  (1 <= length (warnings (analyzeWorkSessions Sample.clock Cases.withInvalid)))%nat /\
  (dataQuality (analyzeWorkSessions Sample.clock Cases.withInvalid) = high -> False).
Proof.
  destruct (invalid_timestamps_lower_the_quality Sample.clock Cases.withInvalid)
    as (Hcount & Hnot & _).
  split; [exact Hcount|]. apply Hnot. vm_compute. apply le_n.
Defined.

Lemma the_order_of_the_records_does_not_matter_witness :
  analyzeWorkSessions Sample.clock Sample.day =
  analyzeWorkSessions Sample.clock (reverse Sample.day).
Proof.
  apply (the_order_of_the_records_does_not_matter Sample.clock).
  - exact day_valid.
  - apply (bool_decide_unpack _). vm_compute. exact I.
  - symmetry. apply reverse_Permutation.
Defined.

(** The day out of order gives the sessions and gaps of the day in order;
    ten records a minute apart are of high quality. *)
Example shuffled_day :
  analyzeWorkSessions Sample.clock Cases.shuffled =
  analyzeWorkSessions Sample.clock Sample.day /\
  dataQuality (analyzeWorkSessions Sample.clock Cases.tenRecords) = high.
Proof. split; vm_compute; reflexivity. Qed.

End SessionsFacts.

Module RetryFacts.
Import Js Llm Retry LlmFacts.

Lemma backoff_S k :
  backoff (S k) = backoff k ++ [CONFIG.RETRY_DELAY_MS * 2 ^ Z.of_nat k].
Proof. unfold backoff. by rewrite seq_S, fmap_app. Qed.

Lemma backoff_total k :
  foldr Z.add 0 (backoff k) = CONFIG.RETRY_DELAY_MS * (2 ^ Z.of_nat k - 1).
Proof.
  induction k as [|k IH]; [done|].
  rewrite backoff_S, foldr_app. simpl.
  assert (forall l a, foldr Z.add a l = foldr Z.add 0 l + a) as Hsum.
  { induction l as [|x l IHl]; intros a; simpl; [lia|]. rewrite IHl. lia. }
  rewrite Hsum, IH, Nat2Z.inj_succ, Z.pow_succ_r by lia. lia.
Qed.

Section WithWorld.
Variable model : nat -> Request -> Result GenerateContentResult.
Variable fs_readFile : string -> Result string.
Variable JSON_parse : string -> Result (gmap string Json).
Variable stripFences : string -> string.
Variable classificationPrompt : string.
Variable buildDailyInsightsPrompt : SessionAnalysis -> list ActivityRecord -> bool -> string.
Variable Date_parse : string -> option Z.
Variable now : string.

Local Abbreviation generateContent := (generateContent model).
Local Abbreviation classifyProductivityActivity :=
  (classifyProductivityActivity model fs_readFile JSON_parse stripFences classificationPrompt).
Local Abbreviation parseClassification := (parseClassification JSON_parse stripFences).
Local Abbreviation classificationRequest := (classificationRequest classificationPrompt).
Local Abbreviation generateDailyInsights :=
  (generateDailyInsights model JSON_parse stripFences buildDailyInsightsPrompt Date_parse now).
Local Abbreviation insightsRequest := (insightsRequest buildDailyInsightsPrompt Date_parse).
Local Abbreviation parseInsights := (parseInsights JSON_parse stripFences now).
Local Abbreviation failing := (failing model).

Lemma retryLoop_success req n k : forall remaining lastError tr r,
  (k < remaining <= n)%nat ->
  failing req (calls tr) k ->
  model (calls tr + k)%nat req = Ok r ->
  retryLoop (generateContent req) n remaining lastError tr =
    (Ok r, mkTrace (calls tr + k + 1) (delays tr ++ delaysFrom n remaining k)).
Proof.
  induction k as [|k IH]; intros remaining lastError tr r Hk Hfail Hok.
  - destruct remaining as [|rem]; [lia|]. simpl.
    unfold tryCatch, Llm.generateContent.
    rewrite Nat.add_0_r in Hok. rewrite Hok.
    unfold delaysFrom. simpl. rewrite app_nil_r. do 2 f_equal. lia.
  - destruct remaining as [|rem]; [lia|]. simpl.
    unfold tryCatch, Llm.generateContent.
    destruct (Hfail 0%nat) as [e He]; [lia|].
    rewrite Nat.add_0_r in He. rewrite He.
    assert ((n - rem <? n)%nat = true) as -> by (apply Nat.ltb_lt; lia).
    unfold bind, sleep. simpl.
    rewrite (IH rem (Some e) _ r); simpl.
    + f_equal. f_equal; [lia|]. rewrite <- app_assoc. f_equal.
      unfold delaysFrom. replace (n - S rem)%nat with (n - rem - 1)%nat by lia.
      replace (n - rem)%nat with (S (n - rem - 1)) at 2 by lia.
      simpl. f_equal. f_equal. f_equal. lia.
    + lia.
    + intros j Hj. destruct (Hfail (S j)) as [e' He']; [lia|].
      exists e'. rewrite <- He'. f_equal. lia.
    + rewrite <- Hok. f_equal. lia.
Qed.

Lemma retryLoop_step req n rem lastError tr e :
  (rem < n)%nat ->
  model (calls tr) req = Throw e ->
  retryLoop (generateContent req) n (S rem) lastError tr =
  retryLoop (generateContent req) n rem (Some e)
    (mkTrace (S (calls tr))
             (delays tr ++ match rem with
                           | O => []
                           | S _ => [CONFIG.RETRY_DELAY_MS * 2 ^ Z.of_nat (n - rem - 1)]
                           end)).
Proof.
  intros Hrem He.
  change (retryLoop (generateContent req) n (S rem) lastError tr)
    with (tryCatch (generateContent req) (fun error =>
            do _ <- (if (n - rem <? n)%nat
                     then sleep (CONFIG.RETRY_DELAY_MS * 2 ^ (Z.of_nat (n - rem) - 1))
                     else ret tt);
            retryLoop (generateContent req) n rem (Some error)) tr).
  unfold tryCatch, Llm.generateContent. rewrite He.
  destruct rem as [|rem'].
  - rewrite Nat.sub_0_r, Nat.ltb_irrefl. unfold bind, ret.
    by rewrite app_nil_r.
  - assert ((n - S rem' <? n)%nat = true) as -> by (apply Nat.ltb_lt; lia).
    unfold bind, sleep. cbv beta iota.
    replace (Z.of_nat (n - S rem') - 1) with (Z.of_nat (n - S rem' - 1)) by lia.
    done.
Qed.

Lemma retryLoop_failure req n : forall remaining lastError tr,
  (remaining <= n)%nat ->
  failing req (calls tr) remaining ->
  retryLoop (generateContent req) n remaining lastError tr =
    (Throw (mkError ("Operation failed after " +:+ pretty n +:+ " attempts: " +:+
                     lastMessage
                       match remaining with
                       | O => lastError
                       | S rem =>
                           match model (calls tr + rem)%nat req with
                           | Throw e => Some e
                           | Ok _ => None
                           end
                       end)),
     mkTrace (calls tr + remaining)
             (delays tr ++ delaysFrom n remaining (remaining - 1))).
Proof.
  induction remaining as [|rem IH]; intros lastError tr Hle Hfail.
  - simpl. unfold throw, delaysFrom. simpl. rewrite app_nil_r, Nat.add_0_r.
    by destruct tr.
  - destruct (Hfail 0%nat) as [e He]; [lia|].
    rewrite Nat.add_0_r in He.
    rewrite (retryLoop_step req n rem lastError tr e) by (lia || done).
    rewrite IH; simpl; [|lia|].
    + f_equal.
      * do 3 f_equal. destruct rem as [|rem'].
        -- by rewrite Nat.add_0_r, He.
        -- by replace (calls tr + S rem')%nat with (S (calls tr + rem')) by lia.
      * f_equal; [lia|]. rewrite <- app_assoc. f_equal.
        rewrite Nat.sub_0_r. destruct rem as [|rem']; [done|].
        unfold delaysFrom. simpl.
        replace (n - S (S rem'))%nat with (n - S rem' - 1)%nat by lia.
        replace (n - S rem')%nat with (S (n - S rem' - 1)) at 2 by lia.
        by rewrite Nat.sub_0_r.
    + intros j Hj. destruct (Hfail (S j)) as [e' He']; [lia|].
      exists e'. rewrite <- He'. simpl. f_equal. lia.
Qed.


(** X8.  With up to [maxAttempts] attempts allowed, when the first [k] calls
    fail and the next one succeeds, [retryWithBackoff] returns the result of
    that call after exactly [k + 1] calls, having waited 1000, 2000, 4000, ...
    ms in front of the attempts 2, ..., [k + 1]: 1000 * (2^k - 1) ms in all. *)
Theorem retry_returns_the_first_success req n k r tr :
  (n <= maxAttempts)%nat -> (k < n)%nat ->
  failing req (calls tr) k ->
  model (calls tr + k)%nat req = Ok r ->
  retryWithBackoff (generateContent req) n tr =
    (Ok r, mkTrace (calls tr + k + 1) (delays tr ++ backoff k)) /\
  foldr Z.add 0 (backoff k) = 1000 * (2 ^ Z.of_nat k - 1).
Proof.
  intros _ Hk Hfail Hok. split; [|apply backoff_total].
  unfold retryWithBackoff.
  rewrite (retryLoop_success req n k n None tr r) by (lia || done).
  unfold delaysFrom, backoff. by rewrite Nat.sub_diag.
Qed.

(** X9.  When all [n] attempts fail, [retryWithBackoff] has made exactly [n]
    calls, has waited in front of every attempt but the first (and not after
    the last), and throws "Operation failed after n attempts: " followed by
    the message of the last error; with no attempt allowed it makes no call
    and the message ends in "undefined". *)
Theorem retry_gives_up_after_the_last_attempt req n tr :
  (n <= maxAttempts)%nat ->
  failing req (calls tr) n ->
  let out := retryWithBackoff (generateContent req) n tr in
  calls out.2 = (calls tr + n)%nat /\
  delays out.2 = delays tr ++ backoff (n - 1) /\
  (n = 0%nat ->
   out.1 = Throw (mkError "Operation failed after 0 attempts: undefined")) /\
  (forall m e,
     n = S m -> model (calls tr + m)%nat req = Throw e ->
     out.1 = Throw (mkError ("Operation failed after " +:+ pretty n +:+
                             " attempts: " +:+ message e))).
Proof.
  intros _ Hfail out. subst out. unfold retryWithBackoff.
  rewrite (retryLoop_failure req n n None tr) by (lia || done).
  simpl. split; [done|]. split.
  { unfold delaysFrom, backoff. by rewrite Nat.sub_diag. }
  split.
  - by intros ->.
  - intros m e -> He. by rewrite He.
Qed.

(** *** What the two paths return *)

Lemma missingOrInvalid_false insights field :
  missingOrInvalid insights field = false ->
  exists text, insights !! field = Some (JString text) /\ text <> "".
Proof.
  unfold missingOrInvalid.
  destruct (insights !! field) as [[| | |text| |]|]; try done.
  intros Hd. exists text. split; [done|]. by apply bool_decide_eq_false_1 in Hd.
Qed.

Lemma requiredInsightFields_not_metadata field :
  field ∈ requiredInsightFields -> field <> "metadata".
Proof.
  unfold requiredInsightFields. intros Hin ->.
  repeat (apply elem_of_cons in Hin as [Hin|Hin]; [discriminate|]).
  by apply elem_of_nil in Hin.
Qed.

Lemma parseInsights_ok dataPoints sessionsAnalyzed result insights :
  parseInsights dataPoints sessionsAnalyzed result = Ok insights ->
  (forall field, field ∈ requiredInsightFields ->
     exists text, insights !! field = Some (JString text) /\ text <> "") /\
  insights !! "metadata" = Some (metadata now dataPoints sessionsAnalyzed).
Proof.
  unfold Llm.parseInsights.
  destruct (response_text result) as [raw|]; [|done].
  destruct (cleanJsonResponse stripFences raw) as [text|]; [|done].
  destruct (JSON_parse text) as [parsed|]; [|done].
  destruct (firstInvalidField parsed) as [field|] eqn:Efield; [done|].
  intros [= <-]. split.
  - intros field Hin.
    rewrite lookup_insert_ne by (apply not_eq_sym; by apply requiredInsightFields_not_metadata).
    apply missingOrInvalid_false.
    unfold firstInvalidField in Efield.
    apply (find_none _ _ Efield). by apply list_elem_of_In.
  - by rewrite lookup_insert_eq.
Qed.

Lemma noDataInsights_ok :
  (forall field, field ∈ requiredInsightFields ->
     exists text, noDataInsights now !! field = Some (JString text) /\ text <> "") /\
  noDataInsights now !! "metadata" = Some (metadata now 0 0).
Proof.
  split; [|reflexivity].
  unfold requiredInsightFields. intros field Hin.
  repeat (apply elem_of_cons in Hin as [->|Hin];
          [eexists; split; [vm_compute; reflexivity | discriminate]|]).
  by apply elem_of_nil in Hin.
Qed.

Lemma insights_postcondition activities tr :
  match (generateDailyInsights activities tr).1 with
  | Ok insights =>
      (forall field, field ∈ requiredInsightFields ->
         exists text, insights !! field = Some (JString text) /\ text <> "") /\
      insights !! "metadata" =
        Some (metadata now (length activities)
                (length (sessions (Segmentation.analyzeWorkSessions Date_parse activities))))
  | Throw e => exists cause, message e = "Daily insights generation failed: " +:+ cause
  end.
Proof.
  destruct (decide (activities = [])) as [->|Hne].
  { exact noDataInsights_ok. }
  rewrite (insights_unfold model JSON_parse stripFences buildDailyInsightsPrompt
             Date_parse now activities tr Hne).
  destruct (retryWithBackoff _ _ tr) as [[result|e] tr']; [|by eexists].
  destruct (parseInsights _ _ result) as [insights|e] eqn:Eparse; [|by eexists].
  by apply (parseInsights_ok _ _ result).
Qed.

(** X10.  Whatever the model answers, insights that [generateDailyInsights]
    returns hold the four texts, each a non-empty string, and the metadata with
    the number of records passed and the number of sessions found; an error it
    throws has a message that starts with "Daily insights generation
    failed: ". *)
Theorem insights_are_complete_or_wrapped activities tr :
  match (generateDailyInsights activities tr).1 with
  | Ok insights =>
      (forall field, field ∈ requiredInsightFields ->
         exists text, insights !! field = Some (JString text) /\ text <> "") /\
      insights !! "metadata" =
        Some (metadata now (length activities)
                (length (sessions (Segmentation.analyzeWorkSessions Date_parse activities))))
  | Throw e => exists cause, message e = "Daily insights generation failed: " +:+ cause
  end.
Proof. apply insights_postcondition. Qed.

Lemma insights_calls activities tr :
  activities <> [] ->
  (calls tr < calls (generateDailyInsights activities tr).2 <= calls tr + 3)%nat.
Proof.
  intros Hne.
  rewrite (insights_unfold model JSON_parse stripFences buildDailyInsightsPrompt
             Date_parse now activities tr Hne).
  rewrite retry_generateContent. cbv zeta.
  destruct (model (calls tr) _) as [r|]; [destruct (parseInsights _ _ r); simpl; lia|].
  destruct (model (1 + calls tr)%nat _) as [r|];
    [destruct (parseInsights _ _ r); simpl; lia|].
  destruct (model (2 + calls tr)%nat _) as [r|];
    [destruct (parseInsights _ _ r); simpl; lia | simpl; lia].
Qed.

(** X11.  The retry wraps the call alone: a response that arrives but cannot
    be used (no text, no JSON object, a missing field) is not asked for
    again.  After exactly one call and no delay the narrative path throws the
    wrapped error and the classification path returns the fallback record. *)
Theorem unusable_answer_is_not_retried tr :
  (forall activities result e,
     activities <> [] ->
     model (calls tr) (insightsRequest activities) = Ok result ->
     parseInsights (length activities)
       (length (sessions (Segmentation.analyzeWorkSessions Date_parse activities)))
       result = Throw e ->
     generateDailyInsights activities tr =
       (Throw (mkError ("Daily insights generation failed: " +:+ message e)),
        mkTrace (S (calls tr)) (delays tr))) /\
  (forall path imageData result e,
     path <> "" ->
     fs_readFile path = Ok imageData ->
     model (calls tr) (classificationRequest imageData) = Ok result ->
     parseClassification result = Throw e ->
     classifyProductivityActivity (JsString path) tr =
       (Ok fallbackRecord, mkTrace (S (calls tr)) (delays tr))).
Proof.
  split.
  - intros activities result e Hne Hcall Hparse.
    rewrite (insights_unfold model JSON_parse stripFences buildDailyInsightsPrompt
               Date_parse now activities tr Hne).
    rewrite retry_generateContent. cbv zeta. rewrite Hcall. by rewrite Hparse.
  - intros path imageData result e Hpath Hread Hcall Hparse.
    rewrite (classify_unfold model fs_readFile JSON_parse stripFences
               classificationPrompt path tr Hpath).
    rewrite Hread, retry_generateContent. cbv zeta. rewrite Hcall. by rewrite Hparse.
Qed.

Lemma fallbackRecord_valid : validateActivityRecord fallbackRecord = Ok true.
Proof. vm_compute. reflexivity. Qed.

Lemma parseClassification_ok result parsed :
  parseClassification result = Ok parsed -> validateActivityRecord parsed = Ok true.
Proof.
  unfold Llm.parseClassification.
  destruct (response_text result) as [raw|]; [|done].
  destruct (cleanJsonResponse stripFences raw) as [text|]; [|done].
  destruct (JSON_parse text) as [record|]; [|done].
  destruct (validateActivityRecord record) as [[|]|] eqn:E; [|done..].
  by intros [= <-].
Qed.

(** X12.  For a non-empty path the classification returns a record, and the
    record it returns always passes the check of the seven fields, the fallback
    record included. *)
Theorem classification_returns_a_valid_record path tr :
  path <> "" ->
  exists record,
    (classifyProductivityActivity (JsString path) tr).1 = Ok record /\
    validateActivityRecord record = Ok true.
Proof.
  intros Hpath.
  rewrite (classify_unfold model fs_readFile JSON_parse stripFences
             classificationPrompt path tr Hpath).
  destruct (fs_readFile path) as [imageData|];
    [|exists fallbackRecord; split; [done|exact fallbackRecord_valid]].
  destruct (retryWithBackoff _ _ tr) as [[result|] tr'];
    [|exists fallbackRecord; split; [done|exact fallbackRecord_valid]].
  destruct (parseClassification result) as [parsed|] eqn:Eparse;
    [|exists fallbackRecord; split; [done|exact fallbackRecord_valid]].
  exists parsed. split; [done|]. by apply (parseClassification_ok result).
Qed.

(** *** The sample of the records for the prompt *)

Lemma not_multiple o c q step :
  (o + S c = q * step)%nat -> (S c < step)%nat -> (o mod step)%nat <> 0%nat.
Proof.
  intros Hsum Hc Hmod.
  apply Nat.Div0.div_exact in Hmod.
  assert (S c = (q - o / step) * step)%nat as Hmul by nia.
  destruct (q - o / step)%nat as [|d]; simpl in Hmul; lia.
Qed.

(** The records at the indices [i] with [(o + i) mod step = 0], where the
    first such index is [c]. *)
Lemma everyNth_from {A} step (l : list A) : forall o c q k,
  (o + c = q * step)%nat -> (c < step)%nat ->
  (snd <$> filter (fun ix => (ix.1 mod step)%nat = 0%nat)
                  (imap (fun index x => ((o + index)%nat, x)) l)) !! k
  = l !! (k * step + c)%nat.
Proof.
  induction l as [|x l IH]; intros o c q k Hsum Hc; [done|].
  rewrite imap_cons.
  assert (imap ((fun index x => ((o + index)%nat, x)) ∘ S) l =
          imap (fun index x => ((S o + index)%nat, x)) l) as ->.
  { apply imap_ext. intros i y _. simpl. f_equal. lia. }
  destruct c as [|c].
  - rewrite filter_cons_True.
    2:{ simpl. rewrite Nat.add_0_r in *. rewrite Hsum. apply Nat.Div0.mod_mul. }
    destruct k as [|k]; [done|].
    replace (S k * step + 0)%nat with (S (k * step + (step - 1))) by lia.
    exact (IH (S o) (step - 1)%nat (S q) k ltac:(lia) ltac:(lia)).
  - rewrite filter_cons_False.
    2:{ simpl. rewrite Nat.add_0_r. by apply (not_multiple o c q). }
    replace (k * step + S c)%nat with (S (k * step + c)) by lia.
    exact (IH (S o) c q k ltac:(lia) ltac:(lia)).
Qed.

Lemma everyNth_lookup {A} step (l : list A) k :
  (0 < step)%nat -> everyNth step l !! k = l !! (k * step)%nat.
Proof.
  intros Hstep. unfold everyNth.
  rewrite <- (Nat.add_0_r (k * step)).
  by apply (everyNth_from step l 0%nat 0%nat 0%nat k).
Qed.

(** X13.  Up to 200 records go into the prompt as they are.  Of more than
    200 records exactly 200 are kept: the records at the indices 0, step,
    2 * step, ... with step the whole part of length / 200; so of fewer than
    400 records the first 200 are kept and the rest is dropped. *)
Theorem truncation_keeps_every_step_th_record activities :
  let n := length activities in
  let out := truncateActivitiesForPrompt activities in
  ((n <= 200)%nat -> out = (activities, false)) /\
  ((200 < n)%nat ->
     out.2 = true /\ length out.1 = 200%nat /\
     (forall k, (k < 200)%nat -> out.1 !! k = activities !! (k * (n / 200))%nat) /\
     ((n < 400)%nat -> out.1 = take 200 activities)).
Proof.
  intros n out. subst out. unfold truncateActivitiesForPrompt, CONFIG.MAX_ACTIVITIES_PER_PROMPT.
  fold n. split.
  - intros Hle. apply Nat.leb_le in Hle. by rewrite Hle.
  - intros Hgt. assert ((n <=? 200)%nat = false) as -> by (apply Nat.leb_gt; lia).
    cbv zeta. cbn [fst snd].
    assert (0 < n / 200)%nat as Hstep by (apply Nat.div_str_pos; lia).
    assert (199 * (n / 200) < n)%nat as Hlast.
    { pose proof (Nat.Div0.mul_div_le n 200). lia. }
    assert (forall k, (k < 200)%nat ->
              take 200 (everyNth (n / 200) activities) !! k =
              activities !! (k * (n / 200))%nat) as Hlookup.
    { intros k Hk. rewrite lookup_take_lt by done. by apply everyNth_lookup. }
    assert (length (take 200 (everyNth (n / 200) activities)) = 200%nat) as Hlen.
    { rewrite length_take.
      destruct (lookup_lt_is_Some_2 activities (199 * (n / 200))%nat Hlast) as [x Hx].
      rewrite <- (everyNth_lookup (n / 200)) in Hx by done.
      apply lookup_lt_Some in Hx. lia. }
    split; [done|]. split; [done|]. split; [done|].
    intros Hlt.
    assert (n / 200 = 1)%nat as Hone.
    { symmetry. apply (Nat.div_unique n 200 1 (n - 200)); lia. }
    apply list_eq. intros k.
    destruct (decide (k < 200)%nat) as [Hk|Hk].
    + rewrite (Hlookup k Hk), Hone, Nat.mul_1_r. by rewrite lookup_take_lt.
    + rewrite (lookup_ge_None_2 _ k) by lia.
      symmetry. apply lookup_ge_None_2. rewrite length_take. lia.
Qed.
End WithWorld.

(** *** Runs with the sample model *)

Lemma flaky_failing failures answer req :
  failing (Sample.flaky failures answer) req 0 failures.
Proof.
  intros j Hj. unfold Sample.flaky. simpl.
  apply Nat.ltb_lt in Hj. rewrite Hj. by eexists.
Qed.

Lemma retry_returns_the_first_success_witness :
  retryWithBackoff (generateContent (Sample.flaky 2 "{}") Cases.request) 3 start =
    (Ok (mkResponse (Ok "{}")), mkTrace 3 [1000; 2000]) /\
  foldr Z.add 0 (backoff 2) = 3000.
Proof.
  apply (retry_returns_the_first_success (Sample.flaky 2 "{}") Cases.request 3 2
           (mkResponse (Ok "{}")) start).
  - unfold maxAttempts. lia.
  - lia.
  - apply flaky_failing.
  - reflexivity.
Defined.

Lemma retry_gives_up_after_the_last_attempt_witness :
  let out := retryWithBackoff (generateContent (Sample.flaky 4 "{}") Cases.request) 4 start in
  calls out.2 = 4%nat /\ delays out.2 = [1000; 2000; 4000] /\
  out.1 = Throw (mkError "Operation failed after 4 attempts: 503 on call 3").
Proof.
  assert (4 <= maxAttempts)%nat as Hle by (unfold maxAttempts; lia).
  destruct (retry_gives_up_after_the_last_attempt (Sample.flaky 4 "{}") Cases.request 4
              start Hle (flaky_failing 4 "{}" Cases.request))
    as (Hcalls & Hdelays & _ & Hmessage).
  split; [exact Hcalls|]. split; [exact Hdelays|].
  exact (Hmessage 3%nat (mkError "503 on call 3") eq_refl eq_refl).
Defined.

Lemma unusable_answer_is_not_retried_witness :
  generateDailyInsights (Sample.flaky 0 "Sorry, no.") Sample.parse Sample.noFences
    Sample.promptOf Sample.clock "2024-05-01T18:00:00.000Z" Sample.morning start =
  (Throw (mkError
     "Daily insights generation failed: Response does not appear to be valid JSON"),
   mkTrace 1 []).
Proof.
  apply (proj1 (unusable_answer_is_not_retried (Sample.flaky 0 "Sorry, no.")
                  Sample.readable Sample.parse Sample.noFences "Classify this screenshot."
                  Sample.promptOf Sample.clock "2024-05-01T18:00:00.000Z" start)
           Sample.morning (mkResponse (Ok "Sorry, no."))
           (mkError "Response does not appear to be valid JSON")).
  - discriminate.
  - reflexivity.
  - vm_compute. reflexivity.
Defined.

Lemma classification_returns_a_valid_record_witness :
  exists record,
    (Sample.classifyWith 1 Sample.readable (JsString "/data/screenshots/a.png") start).1
      = Ok record /\
    validateActivityRecord record = Ok true.
Proof.
  apply (classification_returns_a_valid_record (Sample.flaky 1 Sample.classifiedText)
           Sample.readable Sample.parse Sample.noFences "Classify this screenshot."
           "/data/screenshots/a.png" start).
  discriminate.
Defined.

Lemma truncation_keeps_every_step_th_record_witness :
  (truncateActivitiesForPrompt Cases.crowded).2 = true /\
  length (truncateActivitiesForPrompt Cases.crowded).1 = 200%nat /\
  (truncateActivitiesForPrompt Cases.crowded).1 = take 200 Cases.crowded /\
  truncateActivitiesForPrompt Sample.morning = (Sample.morning, false).
Proof.
  destruct (truncation_keeps_every_step_th_record Cases.crowded) as [_ Hmany].
  destruct (truncation_keeps_every_step_th_record Sample.morning) as [Hfew _].
  assert (length Cases.crowded = 250%nat) as Hlen by apply length_replicate.
  rewrite Hlen in Hmany.
  destruct Hmany as (Hflag & Hsize & _ & Hfirst); [lia|].
  split; [exact Hflag|]. split; [exact Hsize|]. split; [apply Hfirst; lia|].
  apply Hfew. simpl. lia.
Defined.

End RetryFacts.

Module ShotsFacts.
Import Js Screenshot Shots ScreenshotFacts.

Lemma unlinked_app e1 e2 : unlinked (e1 ++ e2) = unlinked e1 ++ unlinked e2.
Proof. unfold unlinked. apply omap_app. Qed.

Lemma unlinked_removeOld out removed :
  removed <> "" -> unlinked (removeOld out removed) = [removed].
Proof.
  intros Hne. unfold removeOld. rewrite bool_decide_eq_false_2 by done.
  by destruct (unlink out removed).
Qed.

Section WithPaths.
Variables screenshotDir extraScreenshotDir : string.
Variable path_join : string -> string -> string.
Hypothesis path_join_nonempty : forall dir name, path_join dir name <> "".

Local Abbreviation takeScreenshot :=
  (takeScreenshot screenshotDir extraScreenshotDir path_join).
Local Abbreviation capturePath := (capturePath screenshotDir extraScreenshotDir path_join).
Local Abbreviation shots := (shots screenshotDir extraScreenshotDir path_join).
Local Abbreviation pathsOf := (pathsOf screenshotDir extraScreenshotDir path_join).

Lemma capturePath_view out h h' : view h = view h' -> capturePath out h = capturePath out h'.
Proof. unfold Screenshot.capturePath. by intros ->. Qed.

Lemma capturePath_nonempty out h : capturePath out h <> "".
Proof. unfold Screenshot.capturePath. destruct (view h); apply path_join_nonempty. Qed.

Lemma shots_acc outs : forall h ev,
  fold_left
    (fun acc out => let r := takeScreenshot out acc.1 in (r.1.2, acc.2 ++ r.2))
    outs (h, ev) =
  ((shots outs h).1, ev ++ (shots outs h).2).
Proof.
  unfold Shots.shots.
  induction outs as [|out outs IH]; intros h ev; simpl.
  - by rewrite app_nil_r.
  - rewrite (IH _ (ev ++ _)), (IH _ (takeScreenshot out h).2). simpl.
    by rewrite app_assoc.
Qed.

Lemma shots_cons out outs h :
  shots (out :: outs) h =
  let r := takeScreenshot out h in
  let rest := shots outs r.1.2 in
  (rest.1, r.2 ++ rest.2).
Proof. unfold Shots.shots at 1. simpl. apply shots_acc. Qed.

Lemma shots_window outs : forall h,
  (length (currentQueue h) <= MAX_SCREENSHOTS)%nat ->
  Forall (fun path => path <> "") (currentQueue h) ->
  (forall out, out ∈ outs -> screenshot out (capturePath out h) = Ok tt) ->
  let all := currentQueue h ++ pathsOf (view h) outs in
  let r := shots outs h in
  view r.1 = view h /\
  currentQueue r.1 = drop (length all - MAX_SCREENSHOTS) all /\
  otherQueue r.1 = otherQueue h /\
  unlinked r.2 = take (length all - MAX_SCREENSHOTS) all.
Proof.
  induction outs as [|out outs IH]; intros h Hlen Hne Hok all r.
  - subst all r. unfold Shots.pathsOf. simpl. rewrite app_nil_r.
    replace (length (currentQueue h) - MAX_SCREENSHOTS)%nat with 0%nat by lia.
    by rewrite drop_0.
  - subst r. rewrite shots_cons. cbv zeta.
    assert (out ∈ out :: outs) as Hhere by (by left).
    pose proof (takeScreenshot_ok screenshotDir extraScreenshotDir path_join out h
                  (Hok out Hhere)) as Hone.
    cbv zeta in Hone. destruct Hone as (_ & Hview & Hcur & Hother & Hev).
    set (h1 := (takeScreenshot out h).1.2) in *.
    assert (forall o, o ∈ outs -> screenshot o (capturePath o h1) = Ok tt) as Hok1.
    { intros o Ho. rewrite (capturePath_view o h1 h Hview). apply Hok. by right. }
    assert (pathsOf (view h) (out :: outs) =
            capturePath out h :: pathsOf (view h1) outs) as Hpaths.
    { unfold Shots.pathsOf. rewrite fmap_cons, Hview. f_equal; by apply capturePath_view. }
    subst all. rewrite Hpaths. clear Hpaths.
    destruct (decide (length (currentQueue h) < MAX_SCREENSHOTS)%nat) as [Hroom|Hfull].
    + rewrite pushBounded_room in Hcur, Hev by done. simpl in Hcur, Hev.
      destruct (IH h1) as (IHv & IHq & IHo & IHu).
      * rewrite Hcur, length_app. simpl. lia.
      * rewrite Hcur. apply Forall_app. split; [done|].
        constructor; [apply capturePath_nonempty | constructor].
      * done.
      * simpl in IHv, IHq, IHo, IHu. rewrite Hcur, <- app_assoc in IHq, IHu. simpl in *.
        rewrite IHv, IHq, IHo, Hev, unlinked_app, IHu. done.
    + destruct (currentQueue h) as [|oldest rest] eqn:Eq;
        [unfold MAX_SCREENSHOTS in *; simpl in *; lia|].
      assert (length (oldest :: rest) = MAX_SCREENSHOTS) as Hfive by lia.
      rewrite pushBounded_full in Hcur, Hev by done. simpl in Hcur, Hev.
      apply Forall_cons in Hne as [Holdest Hrest].
      destruct (IH h1) as (IHv & IHq & IHo & IHu).
      * rewrite Hcur, length_app. simpl in *. lia.
      * rewrite Hcur. apply Forall_app. split; [done|].
        constructor; [apply capturePath_nonempty | constructor].
      * done.
      * simpl in IHv, IHq, IHo, IHu. rewrite Hcur, <- app_assoc in IHq, IHu.
        simpl in IHq, IHu. cbn [fst snd].
        rewrite IHv, IHq, IHo, Hev.
        change (Hide :: Capture (capturePath out h) :: removeOld out oldest ++ [Show])
          with ([Hide; Capture (capturePath out h)] ++ removeOld out oldest ++ [Show]).
        rewrite !unlinked_app, IHu.
        rewrite unlinked_removeOld by done.
        set (tail := rest ++ capturePath out h :: pathsOf (view h1) outs).
        assert (MAX_SCREENSHOTS <= length tail)%nat as Htail.
        { subst tail. rewrite length_app. simpl in *. lia. }
        change ((oldest :: rest) ++ capturePath out h :: pathsOf (view h1) outs)
          with (oldest :: tail).
        replace (length (oldest :: tail) - MAX_SCREENSHOTS)%nat
          with (S (length tail - MAX_SCREENSHOTS))
          by (unfold MAX_SCREENSHOTS in *; cbn [length]; lia).
        done.
Qed.

(** X14.  The queue is a sliding window over the captures: after any number
    of successful captures on a new helper the queue of the view holds the
    last five files in the order of capture, the other queue is empty, and
    exactly the earlier files have been handed to [unlink], oldest first. *)
Theorem queue_is_a_sliding_window v outs :
  (forall out, out ∈ outs -> screenshot out (capturePath out (create v)) = Ok tt) ->
  let paths := pathsOf v outs in
  let r := shots outs (create v) in
  currentQueue r.1 = drop (length paths - 5) paths /\
  otherQueue r.1 = [] /\
  unlinked r.2 = take (length paths - 5) paths.
Proof.
  intros Hok paths r.
  destruct (shots_window outs (create v)) as (_ & Hq & Ho & Hu).
  - unfold currentQueue, MAX_SCREENSHOTS. destruct v; simpl; lia.
  - unfold currentQueue. destruct v; constructor.
  - done.
  - assert (currentQueue (create v) = []) as Hnil by (by destruct v).
    assert (otherQueue (create v) = []) as Hnil' by (by destruct v).
    rewrite Hnil in Hq, Hu. rewrite Hnil' in Ho. simpl in Hq, Ho, Hu.
    exact (conj Hq (conj Ho Hu)).
Qed.

End WithPaths.

Section Delete.
Variables screenshotDir extraScreenshotDir : string.
Variable path_join : string -> string -> string.

Local Abbreviation takeScreenshot :=
  (takeScreenshot screenshotDir extraScreenshotDir path_join).
Local Abbreviation capturePath := (capturePath screenshotDir extraScreenshotDir path_join).

Lemma pushBounded_last out q path : path ∈ (pushBounded out q path).1.
Proof.
  unfold pushBounded.
  destruct (MAX_SCREENSHOTS <? length (q ++ [path]))%nat eqn:E.
  - destruct q as [|oldest rest]; simpl.
    + apply Nat.ltb_lt in E. unfold MAX_SCREENSHOTS in E. simpl in E. lia.
    + apply elem_of_app. right. by left.
  - simpl. apply elem_of_app. right. by left.
Qed.

Lemma deleteScreenshot_ok out path h :
  unlink out path = Ok tt ->
  view (deleteScreenshot out path h) = view h /\
  currentQueue (deleteScreenshot out path h) =
    filter (fun filePath => filePath <> path) (currentQueue h) /\
  otherQueue (deleteScreenshot out path h) = otherQueue h.
Proof.
  intros Hok. unfold deleteScreenshot, currentQueue, otherQueue. rewrite Hok.
  by destruct (view h).
Qed.

(** X15.  A capture that is deleted again under the same view is gone from
    the queue.  [deleteScreenshot] looks at the queue of the current view
    only: when the view has been switched in between, the file is deleted all
    the same, but its path stays in the queue it was pushed to. *)
Theorem delete_forgets_a_capture_of_the_same_view_only out out' h :
  let path := capturePath out h in
  let captured := (takeScreenshot out h).1.2 in
  screenshot out path = Ok tt ->
  unlink out' path = Ok tt ->
  (path ∉ currentQueue (deleteScreenshot out' path captured)) /\
  (forall v, v <> view h ->
     let switched := deleteScreenshot out' path (setView v captured) in
     path ∈ otherQueue switched /\
     currentQueue switched = filter (fun filePath => filePath <> path) (otherQueue h)).
Proof.
  intros path captured Hcapture Hunlink.
  destruct (takeScreenshot_ok screenshotDir extraScreenshotDir path_join out h Hcapture)
    as (_ & Hview & Hcur & Hother & _).
  fold captured path in Hview, Hcur, Hother.
  assert (path ∈ currentQueue captured) as Hin
    by (rewrite Hcur; apply pushBounded_last).
  split.
  - destruct (deleteScreenshot_ok out' path captured Hunlink) as (_ & -> & _).
    intros Hx. by apply list_elem_of_filter in Hx as [? _].
  - intros v Hv switched. subst switched.
    destruct (deleteScreenshot_ok out' path (setView v captured) Hunlink)
      as (_ & -> & ->).
    assert (otherQueue (setView v captured) = currentQueue captured /\
            currentQueue (setView v captured) = otherQueue captured) as [-> ->].
    { unfold otherQueue, currentQueue. simpl. rewrite Hview.
      destruct v, (view h); done. }
    by rewrite Hother.
Qed.

End Delete.

(** *** Runs with the sample directories *)

Lemma queue_is_a_sliding_window_witness :
  let r := shots "/data/screenshots" "/data/extra_screenshots" Sample.join
             Cases.sixShots (create queue) in
  currentQueue r.1 =
    ["/data/screenshots/b.png"; "/data/screenshots/c.png"; "/data/screenshots/d.png";
     "/data/screenshots/e.png"; "/data/screenshots/f.png"] /\
  otherQueue r.1 = [] /\
  unlinked r.2 = ["/data/screenshots/a.png"].
Proof.
  apply (queue_is_a_sliding_window "/data/screenshots" "/data/extra_screenshots"
           Sample.join join_nonempty queue Cases.sixShots).
  intros out (uuid & -> & _)%list_elem_of_fmap. reflexivity.
Defined.

Lemma delete_forgets_a_capture_of_the_same_view_only_witness :
  let path := "/data/screenshots/a.png" in
  let captured := (Sample.shoot (Sample.capturing "a") (create queue)).1.2 in
  (path ∉ currentQueue (deleteScreenshot (Sample.capturing "x") path captured)) /\
  path ∈ otherQueue (deleteScreenshot (Sample.capturing "x") path
                       (setView solutions captured)).
Proof.
  destruct (delete_forgets_a_capture_of_the_same_view_only
              "/data/screenshots" "/data/extra_screenshots" Sample.join
              (Sample.capturing "a") (Sample.capturing "x") (create queue)
              eq_refl eq_refl) as [Hsame Hother].
  split; [exact Hsame|]. exact (proj1 (Hother solutions ltac:(discriminate))).
Defined.

End ShotsFacts.

Module PeriodicFacts.
Import Js Screenshot Periodic.

Lemma performTimer_invariant s c :
  liveIntervals s = option_list (automaticInterval s) ->
  isAutomaticEnabled s = bool_decide (automaticInterval s <> None) ->
  liveIntervals (performTimer s c) = option_list (automaticInterval (performTimer s c)) /\
  isAutomaticEnabled (performTimer s c) =
    bool_decide (automaticInterval (performTimer s c) <> None).
Proof.
  intros Hlive Hen. destruct s as [[t|] en live next]; simpl in *; subst live.
  - destruct c; simpl;
      unfold startAutomaticScreenshots, stopAutomaticScreenshots; simpl;
      rewrite filter_cons_False by (intros Hne; by apply Hne); by split.
  - destruct c; by split.
Qed.

Lemma afterTimer_invariant cs : forall s0,
  liveIntervals s0 = option_list (automaticInterval s0) /\
  isAutomaticEnabled s0 = bool_decide (automaticInterval s0 <> None) ->
  liveIntervals (fold_left performTimer cs s0) =
    option_list (automaticInterval (fold_left performTimer cs s0)) /\
  isAutomaticEnabled (fold_left performTimer cs s0) =
    bool_decide (automaticInterval (fold_left performTimer cs s0) <> None).
Proof.
  induction cs as [|c cs IH]; intros s0 Hs0; [done|].
  simpl. apply IH. destruct Hs0. by apply performTimer_invariant.
Qed.

(** X16.  However [startAutomaticScreenshots] and [stopAutomaticScreenshots]
    are called, the helper never has more than one interval timer running:
    the timer it remembers is the only live one, starting again clears the
    old timer first, and [isAutomaticActive] holds exactly when a timer is
    live. *)
Theorem at_most_one_timer_runs cs :
  let s := afterTimer cs in
  liveIntervals s = option_list (automaticInterval s) /\
  (length (liveIntervals s) <= 1)%nat /\
  (isAutomaticActive s = true <-> liveIntervals s <> []).
Proof.
  intros s.
  assert (liveIntervals s = option_list (automaticInterval s) /\
          isAutomaticEnabled s = bool_decide (automaticInterval s <> None)) as [Hlive Hen].
  { subst s. by apply afterTimer_invariant. }
  split; [done|]. unfold isAutomaticActive. rewrite Hlive, Hen.
  destruct (automaticInterval s); simpl; split; try lia; done.
Qed.

Section WithPaths.
Variable screenshotDir : string.
Variable path_join : string -> string -> string.

Local Abbreviation tick := (tick screenshotDir path_join).
Local Abbreviation productivityPath := (productivityPath screenshotDir path_join).

(** X17.  A firing of the timer does nothing when the capture is not
    enabled.  Otherwise it hides the window and captures to a file of its own;
    it shows the window again exactly when the capture succeeded, and only
    then hands the file to the processing, if a processing helper is set.  A
    failure of the capture or of the processing is logged and goes no
    further. *)
Theorem a_tick_shows_the_window_only_after_a_capture processingHelper out s :
  let r := tick processingHelper out s in
  let path := productivityPath out in
  (isAutomaticEnabled s = false -> r = mkTick [] None) /\
  (isAutomaticEnabled s = true ->
     take 2 (events r) = [Hide; Capture path] /\
     (Show ∈ events r <-> screenshot out path = Ok tt) /\
     (processed r = Some path <->
        screenshot out path = Ok tt /\ is_Some processingHelper) /\
     (processed r = None \/ processed r = Some path) /\
     (forall e, screenshot out path = Throw e ->
        events r = [Hide; Capture path; ConsoleError])).
Proof.
  intros r path. subst r. unfold Periodic.tick. fold path. split; [by intros ->|].
  intros ->.
  assert (forall l, Show ∈ Hide :: Capture path :: Show :: l) as Hshown
    by (intros l; do 2 (apply elem_of_cons; right); apply elem_of_cons; by left).
  assert (Show ∉ [Hide; Capture path; ConsoleError]) as Hhidden.
  { intros Hin. repeat (apply elem_of_cons in Hin as [Hin|Hin]; [discriminate|]).
    by apply elem_of_nil in Hin. }
  destruct (screenshot out path) as [[]|e] eqn:Ecap.
  - destruct processingHelper as [process|].
    + destruct (process path); simpl; repeat split; try done; eauto.
    + simpl. repeat split; try done; eauto.
      * intros [_ [? ?]]. done.
  - simpl. repeat split; try done; eauto.
    + intros [? _]. done.
Qed.

End WithPaths.
(** A capture that fails on a tick leaves the window hidden. *)
Lemma a_tick_shows_the_window_only_after_a_capture_witness :
  events (tick "/data/screenshots" Sample.join None (Sample.failing "a")
            (startAutomaticScreenshots initial)) =
  [Hide; Capture "/data/screenshots/productivity_a.png"; ConsoleError].
Proof.
  destruct (a_tick_shows_the_window_only_after_a_capture "/data/screenshots" Sample.join
              None (Sample.failing "a") (startAutomaticScreenshots initial))
    as [_ Henabled].
  destruct (Henabled eq_refl) as (_ & _ & _ & _ & Hfailed).
  exact (Hfailed (mkError "capture failed") eq_refl).
Defined.

End PeriodicFacts.

Module AppFacts.
Import Js App.

Section WithPaths.
Variables screenshotDir extraScreenshotDir : string.
Variable path_join : string -> string -> string.
Hypothesis path_join_nonempty : forall dir name, path_join dir name <> "".

Local Abbreviation takeScreenshot := (takeScreenshot screenshotDir extraScreenshotDir path_join).
Local Abbreviation perform := (perform screenshotDir extraScreenshotDir path_join).
Local Abbreviation after := (after screenshotDir extraScreenshotDir path_join).

Lemma takeScreenshot_view out h :
  Screenshot.view
    (Screenshot.takeScreenshot screenshotDir extraScreenshotDir path_join out h).1.2 =
  Screenshot.view h.
Proof.
  unfold Screenshot.takeScreenshot.
  destruct (Screenshot.view h) eqn:Ev; destruct (Screenshot.screenshot out _);
    simpl; try done; destruct (Screenshot.pushBounded out _ _); done.
Qed.

Local Ltac split_invariant :=
  split; [|split; [|split; [|split; [|split; [|split; [|split]]]]]].

(** What every call keeps. *)
Lemma perform_invariant servicesInitialized processingReady a c :
  let inv a :=
    view a = Screenshot.view (screenshotHelper a) /\
    Screenshot.wellFormed (screenshotHelper a) /\
    supabase (healthStatus a) = servicesInitialized /\
    processingHelper (healthStatus a) = processingReady /\
    automaticScreenshots (healthStatus a) = Periodic.isAutomaticActive (timer a) /\
    (automaticScreenshots (healthStatus a) = true ->
       servicesInitialized = true /\ processingReady = true) /\
    Periodic.liveIntervals (timer a) = option_list (Periodic.automaticInterval (timer a)) /\
    Periodic.isAutomaticEnabled (timer a) =
      bool_decide (Periodic.automaticInterval (timer a) <> None) in
  inv a -> inv (perform a c).
Proof.
  intros inv (Hview & Hwf & Hs & Hp & Hauto & Hgate & Hlive & Hen). subst inv.
  destruct c as [v | info | | out | out path | | |]; simpl.
  - done.
  - done.
  - split_invariant; try done.
    unfold Screenshot.wellFormed, Screenshot.MAX_SCREENSHOTS. simpl.
    split; [lia|]. split; [lia|]. split; constructor.
  - unfold App.takeScreenshot. destruct (mainWindow a); simpl; [|done].
    split_invariant; try done.
    + rewrite Hview. symmetry. apply takeScreenshot_view.
    + by apply (ScreenshotFacts.takeScreenshot_wellFormed
                  screenshotDir extraScreenshotDir path_join path_join_nonempty).
  - pose proof (ScreenshotFacts.perform_wellFormed screenshotDir extraScreenshotDir
                  path_join path_join_nonempty (screenshotHelper a)
                  (Screenshot.CallDeleteScreenshot out path) Hwf) as Hwf'.
    simpl in Hwf'. split_invariant; try done.
    rewrite Hview. unfold Screenshot.deleteScreenshot.
    destruct (Screenshot.unlink out path); [|done].
    by destruct (Screenshot.view (screenshotHelper a)).
  - unfold startAutomaticScreenshots.
    destruct (supabase (healthStatus a)) eqn:Es; simpl; [|by rewrite Es].
    destruct (processingHelper (healthStatus a)) eqn:Ep; simpl; [|by rewrite Es, Ep].
    destruct (PeriodicFacts.performTimer_invariant (timer a) Periodic.CallStart Hlive Hen)
      as [Hlive' Hen'].
    simpl in Hlive', Hen'.
    split_invariant; done.
  - done.
  - done.
Qed.

(** X18.  Whatever is called on the application state, its view and the
    view of the screenshot helper agree and both queues stay within five
    entries; the two readiness flags stay as the start-up has set them; and
    the periodic capture is flagged as running exactly when a timer is live,
    which happens only if storage and processing were ready.  So the
    application is healthy exactly when the periodic capture runs. *)
Theorem app_state_stays_consistent servicesInitialized processingReady cs :
  let a := after servicesInitialized processingReady cs in
  view a = Screenshot.view (screenshotHelper a) /\
  Screenshot.wellFormed (screenshotHelper a) /\
  supabase (healthStatus a) = servicesInitialized /\
  processingHelper (healthStatus a) = processingReady /\
  (automaticScreenshots (healthStatus a) = true <->
     Periodic.liveIntervals (timer a) <> []) /\
  (length (Periodic.liveIntervals (timer a)) <= 1)%nat /\
  (automaticScreenshots (healthStatus a) = true ->
     servicesInitialized = true /\ processingReady = true) /\
  isHealthy a = automaticScreenshots (healthStatus a).
Proof.
  intros a.
  assert (view a = Screenshot.view (screenshotHelper a) /\
          Screenshot.wellFormed (screenshotHelper a) /\
          supabase (healthStatus a) = servicesInitialized /\
          processingHelper (healthStatus a) = processingReady /\
          automaticScreenshots (healthStatus a) = Periodic.isAutomaticActive (timer a) /\
          (automaticScreenshots (healthStatus a) = true ->
             servicesInitialized = true /\ processingReady = true) /\
          Periodic.liveIntervals (timer a) =
            option_list (Periodic.automaticInterval (timer a)) /\
          Periodic.isAutomaticEnabled (timer a) =
            bool_decide (Periodic.automaticInterval (timer a) <> None))
    as (Hview & Hwf & Hs & Hp & Hauto & Hgate & Hlive & Hen).
  { subst a. unfold App.after.
    assert (forall cs a0,
      (view a0 = Screenshot.view (screenshotHelper a0) /\
       Screenshot.wellFormed (screenshotHelper a0) /\
       supabase (healthStatus a0) = servicesInitialized /\
       processingHelper (healthStatus a0) = processingReady /\
       automaticScreenshots (healthStatus a0) = Periodic.isAutomaticActive (timer a0) /\
       (automaticScreenshots (healthStatus a0) = true ->
          servicesInitialized = true /\ processingReady = true) /\
       Periodic.liveIntervals (timer a0) =
         option_list (Periodic.automaticInterval (timer a0)) /\
       Periodic.isAutomaticEnabled (timer a0) =
         bool_decide (Periodic.automaticInterval (timer a0) <> None)) ->
      let a := fold_left perform cs a0 in
      view a = Screenshot.view (screenshotHelper a) /\
      Screenshot.wellFormed (screenshotHelper a) /\
      supabase (healthStatus a) = servicesInitialized /\
      processingHelper (healthStatus a) = processingReady /\
      automaticScreenshots (healthStatus a) = Periodic.isAutomaticActive (timer a) /\
      (automaticScreenshots (healthStatus a) = true ->
         servicesInitialized = true /\ processingReady = true) /\
      Periodic.liveIntervals (timer a) =
        option_list (Periodic.automaticInterval (timer a)) /\
      Periodic.isAutomaticEnabled (timer a) =
        bool_decide (Periodic.automaticInterval (timer a) <> None)) as Hfold.
    { clear cs. induction cs as [|c cs IH]; intros a0 Ha0; [done|].
      simpl. apply IH.
      by apply (perform_invariant servicesInitialized processingReady a0 c). }
    apply Hfold. unfold App.create. simpl. split_invariant; try done.
    unfold Screenshot.wellFormed, Screenshot.MAX_SCREENSHOTS. simpl.
    split; [lia|]. split; [lia|]. split; constructor. }
  split; [done|]. split; [done|]. split; [done|]. split; [done|].
  split; [|split; [|split; [done|]]].
  - rewrite Hauto. unfold Periodic.isAutomaticActive. rewrite Hlive, Hen.
    destruct (Periodic.automaticInterval (timer a)); simpl; split; done.
  - rewrite Hlive. destruct (Periodic.automaticInterval (timer a)); simpl; lia.
  - unfold isHealthy. destruct (automaticScreenshots (healthStatus a)) eqn:E.
    + destruct (Hgate eq_refl) as [-> ->]. by rewrite Hs, Hp.
    + by rewrite !andb_false_r.
Qed.

End WithPaths.
Lemma app_state_stays_consistent_witness :
  let a := App.after "/data/screenshots" "/data/extra_screenshots" Sample.join true true
             [WindowCreated; CallTakeScreenshot (Sample.capturing "a");
              CallSetView Screenshot.solutions; CallStartAutomaticScreenshots;
              CallStartAutomaticScreenshots; CallClearQueues] in
  view a = Screenshot.view (screenshotHelper a) /\
  Screenshot.wellFormed (screenshotHelper a) /\
  supabase (healthStatus a) = true /\
  processingHelper (healthStatus a) = true /\
  (automaticScreenshots (healthStatus a) = true <->
     Periodic.liveIntervals (timer a) <> []) /\
  (length (Periodic.liveIntervals (timer a)) <= 1)%nat /\
  (automaticScreenshots (healthStatus a) = true -> true = true /\ true = true) /\
  isHealthy a = automaticScreenshots (healthStatus a).
Proof.
  exact (app_state_stays_consistent "/data/screenshots" "/data/extra_screenshots"
           Sample.join ScreenshotFacts.join_nonempty true true _).
Defined.

(** Without storage the periodic capture is never started; with storage and
    processing a second start leaves one timer. *)
Example gated_start :
  Periodic.liveIntervals
    (timer (App.after "/data/screenshots" "/data/extra_screenshots" Sample.join false true
              [CallStartAutomaticScreenshots])) = [] /\
  Periodic.liveIntervals
    (timer (App.after "/data/screenshots" "/data/extra_screenshots" Sample.join true true
              [CallStartAutomaticScreenshots; CallStartAutomaticScreenshots])) = [1%nat].
Proof. split; reflexivity. Qed.

End AppFacts.

Module DailyFacts.
Import Js Storage Daily.

(** *** The counts per app *)

Lemma countApp_keys app m : (countApp app m).*1 = set_add app (m.*1).
Proof.
  unfold set_add. induction m as [|[key n] m IH]; [done|].
  cbn [countApp]. destruct (String.eqb key app) eqn:E.
  - apply String.eqb_eq in E as ->. rewrite !fmap_cons. cbn [fst].
    rewrite bool_decide_eq_true_2 by (by left). done.
  - apply String.eqb_neq in E. rewrite !fmap_cons, IH. cbn [fst].
    case_bool_decide as Hin.
    + rewrite bool_decide_eq_true_2 by (by right). done.
    + rewrite bool_decide_eq_false_2; [done|].
      intros [?|?]%elem_of_cons; [by subst|done].
Qed.

Lemma getCount_countApp app k m :
  getCount k (countApp app m) =
  if bool_decide (k = app) then S (getCount k m) else getCount k m.
Proof.
  induction m as [|[key n] m IH].
  - simpl. destruct (String.eqb_spec app k) as [->|Hk].
    + by rewrite bool_decide_eq_true_2.
    + rewrite bool_decide_eq_false_2; [done|]. intros ->. done.
  - cbn [countApp]. destruct (String.eqb_spec key app) as [->|Hne].
    + cbn [getCount]. destruct (String.eqb_spec app k) as [->|Hk].
      * by rewrite bool_decide_eq_true_2.
      * rewrite bool_decide_eq_false_2; [done|]. intros ->. done.
    + cbn [getCount]. destruct (String.eqb_spec key k) as [->|Hk].
      * by rewrite bool_decide_eq_false_2.
      * exact IH.
Qed.

Lemma countApp_positive app m :
  Forall (fun e => 0 < e.2)%nat m -> Forall (fun e => 0 < e.2)%nat (countApp app m).
Proof.
  induction m as [|[key n] m IH]; simpl; intros Hm.
  - repeat constructor.
  - apply Forall_cons in Hm as [Hn Hm]. destruct (String.eqb key app).
    + constructor; [simpl in *; lia | done].
    + constructor; [done | by apply IH].
Qed.

Lemma getCount_elem app n m : NoDup (m.*1) -> (app, n) ∈ m -> getCount app m = n.
Proof.
  induction m as [|[key k] m IH]; simpl; intros Hnd Hin.
  - by apply elem_of_nil in Hin.
  - apply NoDup_cons in Hnd as [Hkey Hnd].
    apply elem_of_cons in Hin as [[= <- <-]|Hin].
    + by rewrite String.eqb_refl.
    + destruct (String.eqb key app) eqn:E; [|by apply IH].
      apply String.eqb_eq in E as ->. destruct Hkey.
      by apply (list_elem_of_fmap_2 fst) in Hin.
Qed.

Lemma set_add_NoDup_keys x s : NoDup s -> NoDup (set_add x s).
Proof.
  intros Hs. unfold set_add. case_bool_decide as Hin; [done|].
  apply NoDup_app. split; [done|]. split; [|apply NoDup_singleton].
  intros y Hy ->%list_elem_of_singleton. done.
Qed.

Lemma appCounts_invariant l :
  let m := appCountsOf l in
  m.*1 = appsSeen l /\ NoDup (m.*1) /\
  Forall (fun e => 0 < e.2)%nat m /\
  forall app, getCount app m = recordsOfApp app l.
Proof.
  unfold appCountsOf, appsSeen, recordsOfApp.
  induction l as [|a l IH] using rev_ind.
  - simpl. repeat split; [constructor | constructor].
  - rewrite !fold_left_app. simpl.
    destruct IH as (Hkeys & Hnd & Hpos & Hcount).
    split; [by rewrite countApp_keys, Hkeys|].
    split; [rewrite countApp_keys; by apply set_add_NoDup_keys|].
    split; [by apply countApp_positive|].
    intros app. rewrite getCount_countApp, Hcount, filter_app, length_app.
    case_bool_decide as Heq.
    + rewrite filter_cons_True by done. simpl. lia.
    + rewrite filter_cons_False by (intros ?; by apply Heq). simpl. lia.
Qed.

(** X19.  The map of the counts has one entry per app, in the order in
    which the apps are first seen, and the count of an entry is the number of
    records of that app, which is at least one. *)
Theorem app_counts_count_the_records l :
  let m := appCountsOf l in
  m.*1 = appsSeen l /\ NoDup (m.*1) /\
  (forall app, getCount app m = recordsOfApp app l) /\
  (forall app n, (app, n) ∈ m -> n = recordsOfApp app l /\ (0 < n)%nat).
Proof.
  intros m. destruct (appCounts_invariant l) as (Hkeys & Hnd & Hpos & Hcount).
  fold m in Hkeys, Hnd, Hpos, Hcount.
  split; [done|]. split; [done|]. split; [done|].
  intros app n Hin. split.
  - rewrite <- Hcount. symmetry. by apply getCount_elem.
  - exact (proj1 (Forall_forall _ _) Hpos _ Hin).
Qed.

(** *** The most used app *)

Lemma sort_head_first_maximum (m : list (string * nat)) :
  m <> [] ->
  exists pre e post,
    m = pre ++ e :: post /\
    head (Js.sort (fun a b => Some (Z.of_nat b.2 - Z.of_nat a.2)) m) = Some e /\
    Forall (fun x => x.2 < e.2)%nat pre /\ Forall (fun x => x.2 <= e.2)%nat post.
Proof.
  induction m as [|x m IH]; [done|]. intros _.
  destruct m as [|y m].
  { exists [], x, []. simpl. repeat split; constructor. }
  destruct IH as (pre & e & post & Hm & Hhead & Hpre & Hpost); [done|].
  change (Js.sort (fun a b => Some (Z.of_nat b.2 - Z.of_nat a.2)) (x :: y :: m))
    with (Js.insert_sorted (fun a b => Some (Z.of_nat b.2 - Z.of_nat a.2)) x
            (Js.sort (fun a b => Some (Z.of_nat b.2 - Z.of_nat a.2)) (y :: m))).
  destruct (Js.sort _ (y :: m)) as [|e' rest]; [done|].
  simpl in Hhead. injection Hhead as ->.
  simpl. unfold Js.after.
  destruct (0 <? Z.of_nat e.2 - Z.of_nat x.2) eqn:E.
  - apply Z.ltb_lt in E. exists (x :: pre), e, post. rewrite Hm.
    repeat split; try done. constructor; [lia|done].
  - apply Z.ltb_ge in E. exists [], x, (y :: m).
    split; [done|]. split; [done|]. split; [constructor|].
    rewrite Hm. apply Forall_app. split.
    + eapply Forall_impl; [exact Hpre|]. simpl. intros. lia.
    + constructor; [lia|]. eapply Forall_impl; [exact Hpost|]. simpl. intros. lia.
Qed.

(** X20.  On a day with records [topApp] is the first app of the map of the
    counts that has the highest count: every app seen before it has fewer
    records, no app has more.  An app with the empty name is shown as
    "None". *)
Theorem top_app_is_the_first_most_frequent l :
  l <> [] ->
  exists pre app n post,
    appCountsOf l = pre ++ (app, n) :: post /\
    n = recordsOfApp app l /\
    Forall (fun e => recordsOfApp e.1 l < n)%nat pre /\
    (forall other, recordsOfApp other l <= n)%nat /\
    topAppOf l = (if bool_decide (app = "") then "None" else app).
Proof.
  intros Hne.
  destruct (appCounts_invariant l) as (Hkeys & Hnd & Hpos & Hcount). cbv zeta in *.
  assert (appCountsOf l <> []) as Hm.
  { intros Hnil. destruct l as [|a l]; [done|].
    pose proof (Hcount (Segmentation.appName a)) as Ha. rewrite Hnil in Ha.
    unfold recordsOfApp in Ha. rewrite filter_cons_True in Ha by done. done. }
  destruct (sort_head_first_maximum _ Hm) as (pre & [app n] & post & Hsplit & Hhead & Hpre & Hpost).
  assert (forall e, e ∈ appCountsOf l -> e.2 = recordsOfApp e.1 l) as Hentry.
  { intros [k c] Hin. simpl. rewrite <- Hcount. symmetry. by apply getCount_elem. }
  exists pre, app, n, post. split; [done|].
  assert (n = recordsOfApp app l) as Hn.
  { apply (Hentry (app, n)). rewrite Hsplit. apply elem_of_app. right. by left. }
  split; [done|]. split; [|split].
  - apply Forall_forall. intros e He.
    rewrite <- (Hentry e) by (rewrite Hsplit; apply elem_of_app; by left).
    exact (proj1 (Forall_forall _ _) Hpre e He).
  - intros other.
    destruct (decide (recordsOfApp other l = 0)%nat) as [->|Hpos']; [lia|].
    assert (other ∈ (appCountsOf l).*1) as Hin.
    { destruct (decide (other ∈ (appCountsOf l).*1)) as [|Hnot]; [done|].
      exfalso. apply Hpos'. rewrite <- Hcount.
      clear -Hnot. induction (appCountsOf l) as [|[k c] m IH]; [done|].
      simpl in *. destruct (String.eqb k other) eqn:E.
      - apply String.eqb_eq in E as ->. destruct Hnot. by left.
      - apply IH. intros Hin. apply Hnot. by right. }
    apply list_elem_of_fmap in Hin as ([k c] & -> & Hin).
    pose proof (Hentry _ Hin) as Hc. simpl in Hc. cbn [fst]. rewrite <- Hc.
    rewrite Hsplit in Hin. apply elem_of_app in Hin as [Hin|Hin].
    + pose proof (proj1 (Forall_forall _ _) Hpre _ Hin). simpl in *. lia.
    + apply elem_of_cons in Hin as [[= -> ->]|Hin]; [lia|].
      exact (proj1 (Forall_forall _ _) Hpost _ Hin).
  - unfold topAppOf.
    destruct (Js.sort _ (appCountsOf l)) as [|[app' n'] rest]; [done|].
    simpl in Hhead. by injection Hhead as -> ->.
Qed.

(** *** The breakdown by hour *)

Section WithHours.
Variable getHours : string -> option nat.

Local Abbreviation hourOf := (hourOf getHours).
Local Abbreviation getHourlyBreakdown := (getHourlyBreakdown getHours).

Lemma pushTo_keys h a m :
  (pushTo h a m).*1 = if bool_decide (h ∈ m.*1) then m.*1 else m.*1 ++ [h].
Proof.
  induction m as [|[key rs] m IH]; [done|].
  cbn [pushTo]. destruct (decide (key = h)) as [Hkey|Hkey].
  - rewrite (bool_decide_eq_true_2 _ Hkey). subst. rewrite !fmap_cons. cbn [fst].
    rewrite bool_decide_eq_true_2 by (by left). done.
  - rewrite (bool_decide_eq_false_2 _ Hkey). rewrite !fmap_cons, IH. cbn [fst].
    case_bool_decide as Hin.
    + rewrite bool_decide_eq_true_2 by (by right). done.
    + rewrite bool_decide_eq_false_2; [done|].
      intros [?|?]%elem_of_cons; [by subst|done].
Qed.

Lemma pushTo_NoDup h a m : NoDup (m.*1) -> NoDup ((pushTo h a m).*1).
Proof.
  intros Hnd. rewrite pushTo_keys. case_bool_decide as Hin; [done|].
  apply NoDup_app. split; [done|]. split; [|apply NoDup_singleton].
  intros y Hy ->%list_elem_of_singleton. done.
Qed.

Lemma getBucket_pushTo h a k m :
  getBucket k (pushTo h a m) =
  if bool_decide (k = h) then getBucket k m ++ [a] else getBucket k m.
Proof.
  induction m as [|[key rs] m IH].
  - simpl. destruct (decide (h = k)) as [->|Hhk].
    + by rewrite !bool_decide_eq_true_2.
    + by rewrite !bool_decide_eq_false_2 by congruence.
  - cbn [pushTo]. destruct (decide (key = h)) as [->|Hkey].
    + rewrite bool_decide_eq_true_2 by done. cbn [getBucket].
      destruct (decide (h = k)) as [->|Hhk].
      * by rewrite !bool_decide_eq_true_2.
      * by rewrite !bool_decide_eq_false_2 by congruence.
    + rewrite (bool_decide_eq_false_2 _ Hkey). cbn [getBucket].
      destruct (decide (key = k)) as [->|Hk].
      * rewrite bool_decide_eq_true_2 by done. by rewrite bool_decide_eq_false_2.
      * rewrite (bool_decide_eq_false_2 _ Hk). exact IH.
Qed.

Lemma pushTo_nonempty h a m :
  Forall (fun e => e.2 <> []) m -> Forall (fun e => e.2 <> []) (pushTo h a m).
Proof.
  induction m as [|[key rs] m IH]; intros Hm.
  - repeat constructor. done.
  - apply Forall_cons in Hm as [Hrs Hm]. cbn [pushTo].
    destruct (bool_decide (key = h)).
    + constructor; [|done]. simpl. by intros [? ?]%app_eq_nil.
    + constructor; [done | by apply IH].
Qed.

Lemma getBucket_elem k rs m : NoDup (m.*1) -> (k, rs) ∈ m -> getBucket k m = rs.
Proof.
  induction m as [|[key old] m IH]; intros Hnd Hin.
  - by apply elem_of_nil in Hin.
  - rewrite fmap_cons in Hnd. apply NoDup_cons in Hnd as [Hkey Hnd].
    cbn [getBucket]. apply elem_of_cons in Hin as [[= <- <-]|Hin].
    + by rewrite bool_decide_eq_true_2.
    + destruct (decide (key = k)) as [->|Hk].
      * destruct Hkey. by apply (list_elem_of_fmap_2 fst) in Hin.
      * rewrite (bool_decide_eq_false_2 _ Hk). by apply IH.
Qed.

Lemma getBucket_missing k m : k ∉ m.*1 -> getBucket k m = [].
Proof.
  induction m as [|[key old] m IH]; intros Hnot; [done|].
  cbn [getBucket]. destruct (decide (key = k)) as [->|Hk].
  - destruct Hnot. rewrite fmap_cons. by left.
  - rewrite (bool_decide_eq_false_2 _ Hk).
    apply IH. intros Hin. apply Hnot. rewrite fmap_cons. by right.
Qed.

Lemma breakdown_invariant l :
  let m := getHourlyBreakdown l in
  NoDup (m.*1) /\ Forall (fun e => e.2 <> []) m /\
  forall h, getBucket h m = filter (fun a => hourOf a = Some h) l.
Proof.
  unfold Daily.getHourlyBreakdown.
  induction l as [|a l IH] using rev_ind.
  - simpl. split; [constructor|]. split; [constructor|done].
  - rewrite fold_left_app. simpl. destruct IH as (Hnd & Hne & Hbucket).
    destruct (hourOf a) as [h|] eqn:Eh.
    + split; [by apply pushTo_NoDup|]. split; [by apply pushTo_nonempty|].
      intros k. rewrite getBucket_pushTo, Hbucket, filter_app.
      destruct (decide (k = h)) as [->|Hk].
      * rewrite bool_decide_eq_true_2 by done. by rewrite filter_cons_True.
      * rewrite (bool_decide_eq_false_2 _ Hk).
        rewrite filter_cons_False, filter_nil, app_nil_r; [done|].
        intros Hx. congruence.
    + split; [done|]. split; [done|].
      intros k. rewrite Hbucket, filter_app.
      rewrite filter_cons_False, filter_nil, app_nil_r; [done|].
      intros Hx. congruence.
Qed.

(** X21.  The breakdown files every record that has a [created_at] under
    the hour of its timestamp and leaves out the others: each hour that occurs
    has one entry, which holds exactly the records of that hour in the order of
    the day and is never empty. *)
Theorem breakdown_files_the_records_by_hour l :
  let m := getHourlyBreakdown l in
  NoDup (m.*1) /\
  (forall h rs, (h, rs) ∈ m ->
     rs <> [] /\ rs = filter (fun a => hourOf a = Some h) l) /\
  (forall a h, a ∈ l -> hourOf a = Some h -> exists rs, (h, rs) ∈ m /\ a ∈ rs).
Proof.
  intros m. destruct (breakdown_invariant l) as (Hnd & Hne & Hbucket).
  fold m in Hnd, Hne, Hbucket.
  assert (forall h rs, (h, rs) ∈ m -> rs = filter (fun a => hourOf a = Some h) l) as Hrs.
  { intros h rs Hin. rewrite <- Hbucket. symmetry. by apply getBucket_elem. }
  split; [done|]. split.
  - intros h rs Hin. split; [|by apply Hrs].
    exact (proj1 (Forall_forall _ _) Hne _ Hin).
  - intros a h Ha Hh.
    assert (a ∈ getBucket h m) as Hin
      by (rewrite Hbucket; by apply list_elem_of_filter).
    destruct (decide (h ∈ m.*1)) as [Hkey|Hkey].
    + apply list_elem_of_fmap in Hkey as ([k rs] & -> & Hkey). simpl in *.
      exists rs. split; [done|]. by rewrite <- (getBucket_elem k rs m).
    + rewrite getBucket_missing in Hin by done. by apply elem_of_nil in Hin.
Qed.

(** *** The entries of the reply *)

Lemma total_count_pushTo h a m :
  total count (breakdown (pushTo h a m)) = S (total count (breakdown m)).
Proof.
  unfold total, breakdown.
  induction m as [|[key rs] m IH]; [done|].
  cbn [pushTo]. destruct (bool_decide (key = h)).
  - rewrite !fmap_cons. simpl. rewrite length_app. simpl. lia.
  - rewrite !fmap_cons. simpl in *. rewrite IH. lia.
Qed.

Lemma total_focus_pushTo h a m :
  total focusCount (breakdown (pushTo h a m)) =
  ((if bool_decide (cognitive_state a = "deep_focus") then 1 else 0) +
   total focusCount (breakdown m))%nat.
Proof.
  unfold total, breakdown.
  destruct (decide (cognitive_state a = "deep_focus")) as [Hd|Hd].
  - rewrite (bool_decide_eq_true_2 _ Hd).
    induction m as [|[key rs] m IH].
    + simpl. by rewrite filter_cons_True.
    + cbn [pushTo]. destruct (bool_decide (key = h)).
      * rewrite !fmap_cons. simpl. rewrite filter_app, length_app.
        rewrite filter_cons_True by done. simpl. lia.
      * rewrite !fmap_cons. simpl in *. rewrite IH. lia.
  - rewrite (bool_decide_eq_false_2 _ Hd).
    induction m as [|[key rs] m IH].
    + simpl. by rewrite filter_cons_False.
    + cbn [pushTo]. destruct (bool_decide (key = h)).
      * rewrite !fmap_cons. simpl. rewrite filter_app, length_app.
        rewrite filter_cons_False by done. simpl. lia.
      * rewrite !fmap_cons. simpl in *. rewrite IH. lia.
Qed.

(** X22.  In the reply of [get-hourly-breakdown] the counts of the hours add
    up to the number of records that have a [created_at], and no entry counts
    more focus records than records.  The focus count of an hour counts
    [deep_focus] only: over the day it adds up to at most the number of focus
    records behind [focusPercentage], which takes [light_work] in as well. *)
Theorem hourly_counts_add_up l :
  let entries := breakdown (getHourlyBreakdown l) in
  total count entries = length (filter (fun a => is_Some (hourOf a)) l) /\
  Forall (fun entry => focusCount entry <= count entry /\
                       goalRelatedCount entry <= count entry)%nat entries /\
  (total focusCount entries <= length (filter (fun a => isFocus a = true) l))%nat.
Proof.
  intros entries. subst entries. split; [|split].
  - unfold Daily.getHourlyBreakdown.
    induction l as [|a l IH] using rev_ind; [done|].
    rewrite fold_left_app, filter_app, length_app. simpl.
    destruct (hourOf a) as [h|] eqn:Eh.
    + rewrite total_count_pushTo, IH.
      rewrite filter_cons_True by (by exists h). simpl. lia.
    + rewrite IH. rewrite filter_cons_False; [simpl; lia|].
      intros [x Hx]. congruence.
  - unfold breakdown. apply Forall_fmap, Forall_forall. intros [h rs] _. simpl.
    split; apply length_filter.
  - unfold Daily.getHourlyBreakdown.
    induction l as [|a l IH] using rev_ind; [simpl; lia|].
    rewrite fold_left_app, filter_app, length_app. simpl.
    assert (cognitive_state a = "deep_focus" -> isFocus a = true) as Hdeep.
    { intros Hd. unfold isFocus. by rewrite Hd. }
    destruct (hourOf a) as [h|] eqn:Eh; [|lia].
    rewrite total_focus_pushTo.
    destruct (decide (cognitive_state a = "deep_focus")) as [Hd|Hd].
    + rewrite (bool_decide_eq_true_2 _ Hd).
      rewrite filter_cons_True by (by apply Hdeep). simpl. lia.
    + rewrite (bool_decide_eq_false_2 _ Hd). lia.
Qed.

End WithHours.

(** *** A day in three apps *)

Lemma top_app_is_the_first_most_frequent_witness :
  exists pre app n post,
    appCountsOf Cases.threeApps = pre ++ (app, n) :: post /\
    n = recordsOfApp app Cases.threeApps /\
    Forall (fun e => recordsOfApp e.1 Cases.threeApps < n)%nat pre /\
    (forall other, recordsOfApp other Cases.threeApps <= n)%nat /\
    topAppOf Cases.threeApps = (if bool_decide (app = "") then "None" else app).
Proof.
  apply (top_app_is_the_first_most_frequent Cases.threeApps). discriminate.
Defined.

(** Slack and VS Code have two records each: the one seen first is the top
    app.  The hours 9, 10 and 11 hold two, two and one record. *)
Example three_apps :
  appCountsOf Cases.threeApps = [("Slack", 2%nat); ("VS Code", 2%nat); ("Chrome", 1%nat)] /\
  topAppOf Cases.threeApps = "Slack" /\
  breakdown (getHourlyBreakdown Cases.hours Cases.threeApps) =
    [mkEntry (Some 9%nat) 2 1 2; mkEntry (Some 10%nat) 2 1 2; mkEntry (Some 11%nat) 1 0 1].
Proof. vm_compute. repeat split. Qed.

End DailyFacts.

Module IpcFacts.
Import Js Llm Daily Ipc.

Lemma messageOr_nonempty e fallback : fallback <> "" -> messageOr e fallback <> "".
Proof. intros Hf. unfold messageOr. by case_bool_decide. Qed.

Lemma getDailyActivities_ok initialized validDate outcome activities :
  getDailyActivities initialized validDate outcome = Ok activities ->
  initialized = true /\ validDate = true.
Proof. unfold getDailyActivities. by destruct initialized, validDate. Qed.

Section WithWorld.
Variable model : nat -> Request -> Result GenerateContentResult.
Variable JSON_parse : string -> Result (gmap string Json).
Variable stripFences : string -> string.
Variable buildDailyInsightsPrompt : SessionAnalysis -> list ActivityRecord -> bool -> string.
Variable Date_parse : string -> option Z.
Variable now : string.
Variable toLocaleTimeString : option Z -> string.
Variable currentTime : Z.
Variable toISOString : Z -> string.

Local Abbreviation generateDailyInsights :=
  (generateDailyInsights model JSON_parse stripFences buildDailyInsightsPrompt Date_parse now).
Local Abbreviation targetDate := (targetDate Date_parse currentTime).
Local Abbreviation getDailyStats := (getDailyStats Date_parse toLocaleTimeString).
Local Abbreviation generateDailyInsightsHandler :=
  (generateDailyInsightsHandler model JSON_parse stripFences buildDailyInsightsPrompt
     Date_parse now toLocaleTimeString currentTime toISOString).

(** The handler, stage by stage. *)
Lemma handler_unfold initialized processingHelper date first second tr :
  let validDate := bool_decide (is_Some (targetDate date)) in
  let failed e := mkReply false (Some (messageOr e "Unknown error occurred")) None in
  generateDailyInsightsHandler initialized processingHelper date first second tr =
    match getDailyStats initialized validDate first with
    | Throw e => (Ok (failed e), tr)
    | Ok stats =>
        match getDailyActivities initialized validDate second with
        | Throw e => (Ok (failed e), tr)
        | Ok activities =>
            if (length activities <? 5)%nat then
              (Ok (mkReply false
                     (Some "Need at least 5 activities to generate meaningful insights")
                     (Some (TooFew stats (length activities) 5))), tr)
            else if processingHelper then
              match generateDailyInsights activities tr with
              | (Throw e, tr') => (Ok (failed e), tr')
              | (Ok insights, tr') =>
                  match targetDate date with
                  | Some time =>
                      (Ok (mkReply true None
                             (Some (Generated insights stats (toISOString time)
                                              (length activities)))), tr')
                  | None => (Ok (failed (mkError "Invalid time value")), tr')
                  end
              end
            else (Ok (failed (mkError "Failed to generate insights from LLM")), tr)
        end
    end.
Proof.
  intros validDate failed. unfold Ipc.generateDailyInsightsHandler.
  fold validDate. unfold tryCatch at 1. unfold bind at 1, lift at 1.
  destruct (getDailyStats initialized validDate first) as [stats|e]; [|done].
  unfold bind at 1, lift at 1.
  destruct (getDailyActivities initialized validDate second) as [activities|e]; [|done].
  destruct (length activities <? 5)%nat; [done|].
  destruct processingHelper; [|done].
  unfold bind at 1. unfold bind at 1.
  destruct (generateDailyInsights activities tr) as [[insights|e] tr']; [|done].
  unfold ret at 1. by destruct (targetDate date).
Qed.

(** X23.  The handler of [generate-daily-insights] never throws: it always
    returns a reply.  A reply that reports success carries insights with the
    four texts and the metadata of at least five records, obtained with one
    to three calls of the model.  A reply that reports failure carries a
    message, which is never empty.  With fewer than five records, which is
    also what a failed query comes to, the handler makes no call and replies
    that at least five activities are needed; without a processing helper it
    makes no call either. *)
Theorem insights_handler_always_replies
    initialized processingHelper date first second tr :
  let validDate := bool_decide (is_Some (targetDate date)) in
  let out := generateDailyInsightsHandler initialized processingHelper date first second tr in
  exists reply,
    out.1 = Ok reply /\
    (success reply = true ->
       processingHelper = true /\
       (calls tr < calls out.2 <= calls tr + 3)%nat /\
       exists activities insights stats isoDate,
         getDailyActivities initialized validDate second = Ok activities /\
         (5 <= length activities)%nat /\
         data reply = Some (Generated insights stats isoDate (length activities)) /\
         (forall field, field ∈ requiredInsightFields ->
            exists text, insights !! field = Some (JString text) /\ text <> "") /\
         insights !! "metadata" =
           Some (metadata now (length activities)
                   (length (sessions (Segmentation.analyzeWorkSessions Date_parse
                                        activities))))) /\
    (success reply = false -> exists msg, error reply = Some msg /\ msg <> "") /\
    (forall stats activities,
       getDailyStats initialized validDate first = Ok stats ->
       getDailyActivities initialized validDate second = Ok activities ->
       (length activities < 5)%nat ->
       reply = mkReply false
                 (Some "Need at least 5 activities to generate meaningful insights")
                 (Some (TooFew stats (length activities) 5)) /\
       out.2 = tr) /\
    (processingHelper = false -> success reply = false /\ out.2 = tr).
Proof.
  intros validDate out. subst out. rewrite handler_unfold. cbv zeta. fold validDate.
  assert (forall e, messageOr e "Unknown error occurred" <> "") as Hmsg
    by (intros e; by apply messageOr_nonempty).
  destruct (getDailyStats initialized validDate first) as [stats|e] eqn:Estats.
  2:{ eexists. split; [done|]. simpl. split; [done|]. split; [by eexists|].
      split; [done|]. done. }
  destruct (getDailyActivities initialized validDate second) as [activities|e] eqn:Eacts.
  2:{ eexists. split; [done|]. simpl. split; [done|]. split; [by eexists|].
      split; [done|]. done. }
  destruct (length activities <? 5)%nat eqn:Efew.
  { apply Nat.ltb_lt in Efew. eexists. split; [done|]. simpl.
    split; [done|]. split; [by eexists|]. split; [|done].
    by intros ? ? [= <-] [= <-] _. }
  apply Nat.ltb_ge in Efew.
  destruct processingHelper.
  2:{ eexists. split; [done|]. simpl. split; [done|]. split; [by eexists|].
      split; [|done]. intros ? ? [= <-] [= <-] ?. lia. }
  assert (activities <> []) as Hne by (intros ->; simpl in Efew; lia).
  pose proof (RetryFacts.insights_postcondition model JSON_parse stripFences
                buildDailyInsightsPrompt Date_parse now activities tr) as Hpost.
  pose proof (RetryFacts.insights_calls model JSON_parse stripFences
                buildDailyInsightsPrompt Date_parse now activities tr Hne) as Hcalls.
  destruct (generateDailyInsights activities tr) as [[insights|e] tr'].
  2:{ eexists. split; [done|]. simpl. split; [done|]. split; [by eexists|].
      split; [|done]. intros ? ? [= <-] [= <-] ?. lia. }
  simpl in Hpost, Hcalls.
  destruct (targetDate date) as [time|] eqn:Edate.
  2:{ exfalso. apply getDailyActivities_ok in Eacts as [_ Hvalid].
      subst validDate. apply bool_decide_eq_true_1 in Hvalid. by destruct Hvalid. }
  eexists. split; [done|]. simpl. split.
  - intros _. split; [done|]. split; [done|].
    exists activities, insights, stats, (toISOString time).
    destruct Hpost as [Hfields Hmeta]. done.
  - split; [done|]. split; [|done]. intros ? ? [= <-] [= <-] ?. lia.
Qed.

End WithWorld.
(** *** Runs with the sample model *)

(** Four records: no call, and the reply asks for five.  Five records and a
    model that fails once: two calls, and a reply with the insights. *)
Example handler_runs :
  (Cases.insightsHandler 0 true (take 4 Sample.morning) start).2 = start /\
  (success <$> Cases.reply 0 true (take 4 Sample.morning)) = Some false /\
  (error <$> Cases.reply 0 true (take 4 Sample.morning)) =
    Some (Some "Need at least 5 activities to generate meaningful insights") /\
  (Cases.insightsHandler 1 true Sample.morning start).2 = mkTrace 2 [1000] /\
  (success <$> Cases.reply 1 true Sample.morning) = Some true /\
  (error <$> Cases.reply 0 false Sample.morning) =
    Some (Some "Failed to generate insights from LLM").
Proof. vm_compute. repeat split. Qed.

End IpcFacts.

Module WindowFacts.
Import Js Window.

(** The state of a helper in step with its healthy window. *)
Lemma perform_in_step w c bounds :
  (exists window,
     mainWindow w = Some window /\ isDestroyed window = false /\ isCrashed window = false /\
     getBounds window = bounds /\ isWindowVisible w = shown window /\
     windowPosition w = Some (x bounds, y bounds) /\
     windowSize w = Some (width bounds, height bounds)) ->
  exists window,
    mainWindow (perform w c) = Some window /\
    isDestroyed window = false /\ isCrashed window = false /\
    getBounds window = userBounds bounds c /\
    isWindowVisible (perform w c) = shown window /\
    windowPosition (perform w c) =
      Some (x (userBounds bounds c), y (userBounds bounds c)) /\
    windowSize (perform w c) =
      Some (width (userBounds bounds c), height (userBounds bounds c)).
Proof.
  intros (window & Hw & Hd & Hc & Hb & Hv & Hp & Hs).
  destruct w as [mw vis pos size]. simpl in *. subst mw pos size.
  destruct window as [d cr b sh]. simpl in *. subst d cr b vis.
  destruct c as [| | |newX newY|newWidth newHeight]; simpl.
  - unfold hideMainWindow, isWindowHealthy. simpl. eexists. repeat split.
  - unfold showMainWindow, isWindowHealthy. simpl. eexists. split; [reflexivity|].
    simpl. by destruct bounds.
  - unfold toggleMainWindow, isVisible, isWindowHealthy. simpl.
    rewrite andb_true_r. destruct sh.
    + unfold hideMainWindow, isWindowHealthy. simpl. eexists. repeat split.
    + unfold showMainWindow, isWindowHealthy. simpl. eexists. split; [reflexivity|].
      simpl. by destruct bounds.
  - unfold moved, isWindowHealthy. simpl. eexists. repeat split.
  - unfold resized, isWindowHealthy. simpl. eexists. repeat split.
Qed.

(** X24.  While the window is healthy, whatever the sequence of hiding,
    showing, toggling and of moves and resizes by the user, the flag of the
    helper says whether the window is on the screen, and hiding and showing
    never move or resize the window: its bounds are the ones the user gave it
    last. *)
Theorem the_flag_follows_the_window bounds cs :
  let w := fold_left perform cs (created bounds) in
  exists window,
    mainWindow w = Some window /\
    isWindowHealthy w = true /\
    isVisible w = shown window /\
    getBounds window = fold_left userBounds cs bounds.
Proof.
  intros w.
  assert (exists window,
            mainWindow w = Some window /\ isDestroyed window = false /\
            isCrashed window = false /\
            getBounds window = fold_left userBounds cs bounds /\
            isWindowVisible w = shown window /\
            windowPosition w = Some (x (fold_left userBounds cs bounds),
                                     y (fold_left userBounds cs bounds)) /\
            windowSize w = Some (width (fold_left userBounds cs bounds),
                                 height (fold_left userBounds cs bounds)))
    as (window & Hw & Hd & Hc & Hb & Hv & _).
  { subst w.
    assert (exists window,
              mainWindow (created bounds) = Some window /\ isDestroyed window = false /\
              isCrashed window = false /\ getBounds window = bounds /\
              isWindowVisible (created bounds) = shown window /\
              windowPosition (created bounds) = Some (x bounds, y bounds) /\
              windowSize (created bounds) = Some (width bounds, height bounds)) as Hinit
      by (eexists; repeat split).
    revert Hinit. generalize (created bounds). revert bounds.
    induction cs as [|c cs IH]; intros bounds w0 Hw0; [exact Hw0|].
    simpl. apply IH. by apply perform_in_step. }
  exists window. unfold isVisible, isWindowHealthy. rewrite Hw, Hd, Hc, Hv. simpl.
  by rewrite andb_true_r.
Qed.

(** Events that are neither [Hide] nor [Show] leave the window alone. *)
Lemma run_no_window events w :
  (Screenshot.Show ∉ events) -> (Screenshot.Hide ∉ events) -> run events w = w.
Proof.
  unfold run. revert w. induction events as [|e events IH]; intros w Hs Hh; [done|].
  simpl. assert (applyEvent w e = w) as ->.
  { destruct e; try done; [destruct Hh | destruct Hs]; by left. }
  apply IH; intros Hin; [apply Hs | apply Hh]; by right.
Qed.

Lemma run_app e1 e2 w : run (e1 ++ e2) w = run e2 (run e1 w).
Proof. unfold run. apply fold_left_app. Qed.

Lemma hide_then_show w :
  isWindowHealthy w = true -> isVisible (showMainWindow (hideMainWindow w)) = true.
Proof.
  unfold isVisible, showMainWindow, hideMainWindow, isWindowHealthy.
  destruct (mainWindow w) as [window|] eqn:Ew; [|done]. simpl.
  intros Hh. rewrite Hh. simpl. rewrite Hh. simpl. by rewrite Hh.
Qed.

Lemma hide_not_visible w : isVisible (hideMainWindow w) = false.
Proof.
  unfold isVisible, hideMainWindow, isWindowHealthy.
  destruct (mainWindow w) as [window|] eqn:Ew; simpl.
  - destruct (negb (isDestroyed window) && negb (isCrashed window)) eqn:Eh; simpl.
    + done.
    + rewrite Ew, Eh. apply andb_false_r.
  - rewrite Ew. apply andb_false_r.
Qed.

End WindowFacts.

Module ShortcutsFacts.
Import Js Screenshot Shortcuts.

Section WithPaths.
Variables screenshotDir extraScreenshotDir : string.
Variable path_join : string -> string -> string.

Local Abbreviation takeScreenshot :=
  (takeScreenshot screenshotDir extraScreenshotDir path_join).
Local Abbreviation capturePath := (capturePath screenshotDir extraScreenshotDir path_join).
Local Abbreviation takeScreenshotShortcut :=
  (takeScreenshotShortcut screenshotDir extraScreenshotDir path_join).
Local Abbreviation tick := (Periodic.tick screenshotDir path_join).
Local Abbreviation productivityPath := (Periodic.productivityPath screenshotDir path_join).

Lemma takeScreenshot_failed out h e :
  screenshot out (capturePath out h) = Throw e ->
  takeScreenshot out h = (Throw e, h, [Hide; Capture (capturePath out h)]).
Proof.
  unfold Screenshot.takeScreenshot, Screenshot.capturePath.
  destruct (view h); by intros ->.
Qed.

Lemma visible_healthy w :
  Window.isVisible w = true ->
  Window.isWindowHealthy w = true /\ is_Some (Window.mainWindow w).
Proof.
  unfold Window.isVisible, Window.isWindowHealthy.
  intros [_ Hh]%andb_true_iff. split; [done|].
  by destruct (Window.mainWindow w).
Qed.

Lemma hide_healthy w :
  Window.isWindowHealthy (Window.hideMainWindow w) = Window.isWindowHealthy w.
Proof.
  unfold Window.hideMainWindow, Window.isWindowHealthy.
  destruct (Window.mainWindow w) as [window|] eqn:Ew; simpl; [|by rewrite Ew].
  destruct (negb (Window.isDestroyed window) && negb (Window.isCrashed window)) eqn:Eh;
    simpl; [done|]. by rewrite Ew.
Qed.

(** X25.  When a capture started with the shortcut fails, the window has
    been hidden and stays hidden, nothing is sent to the renderer and the
    queues are as before; from then on every press of the shortcut is skipped,
    with no capture and no effect, until the window is shown again, as the
    toggle shortcut does. *)
Theorem a_failed_capture_disables_the_shortcut out readFile s e :
  Window.isVisible (windowHelper s) = true ->
  screenshot out (capturePath out (screenshotHelper s)) = Throw e ->
  let r := takeScreenshotShortcut out readFile s in
  Window.isVisible (windowHelper r.1) = false /\
  screenshotHelper r.1 = screenshotHelper s /\
  sent r.2 = None /\
  events r.2 = [Hide; Capture (capturePath out (screenshotHelper s)); ConsoleError] /\
  (forall out' readFile',
     takeScreenshotShortcut out' readFile' r.1 = (r.1, mkPress [] None)) /\
  Window.isVisible (windowHelper (toggleShortcut r.1)) = true.
Proof.
  intros Hvisible Hcapture r.
  destruct (visible_healthy _ Hvisible) as [Hhealthy Hwindow].
  assert (r = (mkState (Window.hideMainWindow (windowHelper s)) (screenshotHelper s),
               mkPress [Hide; Capture (capturePath out (screenshotHelper s)); ConsoleError]
                       None)) as ->.
  { subst r. unfold Shortcuts.takeScreenshotShortcut.
    rewrite Hvisible, (bool_decide_eq_true_2 _ Hwindow). simpl.
    by rewrite (takeScreenshot_failed out (screenshotHelper s) e Hcapture). }
  simpl. split; [apply WindowFacts.hide_not_visible|].
  split; [done|]. split; [done|]. split; [done|]. split.
  - intros out' readFile'. unfold Shortcuts.takeScreenshotShortcut. simpl.
    rewrite WindowFacts.hide_not_visible. by rewrite orb_true_r.
  - unfold Window.toggleMainWindow. rewrite WindowFacts.hide_not_visible.
    by apply WindowFacts.hide_then_show.
Qed.

Lemma pushBounded_no_window out q path :
  (Show ∉ (pushBounded out q path).2) /\ (Hide ∉ (pushBounded out q path).2).
Proof.
  unfold pushBounded.
  destruct (MAX_SCREENSHOTS <? _)%nat; [|split; intros Hin; by apply elem_of_nil in Hin].
  destruct (q ++ [path]); [split; intros Hin; by apply elem_of_nil in Hin|].
  apply ScreenshotFacts.removeOld_no_window.
Qed.

(** X26.  On a healthy window every successful capture, started by a call or
    by the timer, ends with the window on the screen, whether it was shown or
    hidden before: a window that the user has hidden comes back with the next
    capture. *)
Theorem a_successful_capture_shows_the_window w :
  Window.isWindowHealthy w = true ->
  (forall out h,
     screenshot out (capturePath out h) = Ok tt ->
     Window.isVisible (Window.run (takeScreenshot out h).2 w) = true) /\
  (forall processingHelper out s,
     Periodic.isAutomaticEnabled s = true ->
     screenshot out (productivityPath out) = Ok tt ->
     Window.isVisible (Window.run (Periodic.events (tick processingHelper out s)) w) = true).
Proof.
  intros Hhealthy. split.
  - intros out h Hcapture.
    destruct (ScreenshotFacts.takeScreenshot_ok screenshotDir extraScreenshotDir path_join
                out h Hcapture) as (_ & _ & _ & _ & ->).
    destruct (pushBounded_no_window out (currentQueue h) (capturePath out h)) as [Hs Hh].
    rewrite !WindowFacts.run_app.
    rewrite (WindowFacts.run_no_window (pushBounded out _ _).2) by done.
    simpl. by apply WindowFacts.hide_then_show.
  - intros processingHelper out s Hen Hcapture. unfold Periodic.tick.
    rewrite Hen. fold (productivityPath out). rewrite Hcapture.
    destruct processingHelper as [process|]; [destruct (process _)|];
      simpl; by apply WindowFacts.hide_then_show.
Qed.

End WithPaths.

(** *** With the sample directories *)

Lemma a_failed_capture_disables_the_shortcut_witness :
  let s := mkState (Window.created (Window.mkBounds 0 0 800 600)) (create queue) in
  let r := takeScreenshotShortcut "/data/screenshots" "/data/extra_screenshots" Sample.join
             (Sample.failing "a") Sample.readable s in
  Window.isVisible (windowHelper r.1) = false /\
  takeScreenshotShortcut "/data/screenshots" "/data/extra_screenshots" Sample.join
    (Sample.capturing "b") Sample.readable r.1 = (r.1, mkPress [] None) /\
  Window.isVisible (windowHelper (toggleShortcut r.1)) = true.
Proof.
  destruct (a_failed_capture_disables_the_shortcut
              "/data/screenshots" "/data/extra_screenshots" Sample.join
              (Sample.failing "a") Sample.readable
              (mkState (Window.created (Window.mkBounds 0 0 800 600)) (create queue))
              (mkError "capture failed") eq_refl eq_refl)
    as (Hhidden & _ & _ & _ & Hskip & Htoggle).
  split; [exact Hhidden|]. split; [|exact Htoggle].
  exact (Hskip (Sample.capturing "b") Sample.readable).
Defined.

Lemma a_successful_capture_shows_the_window_witness :
  let hidden := Window.toggleMainWindow (Window.created (Window.mkBounds 0 0 800 600)) in
  Window.isVisible hidden = false /\
  Window.isVisible
    (Window.run
       (Periodic.events
          (Periodic.tick "/data/screenshots" Sample.join None (Sample.capturing "a")
             (Periodic.startAutomaticScreenshots Periodic.initial)))
       hidden) = true.
Proof.
  split; [reflexivity|].
  exact (proj2 (a_successful_capture_shows_the_window "/data/screenshots"
                  "/data/extra_screenshots" Sample.join
                  (Window.toggleMainWindow (Window.created (Window.mkBounds 0 0 800 600)))
                  eq_refl)
           None (Sample.capturing "a")
           (Periodic.startAutomaticScreenshots Periodic.initial) eq_refl eq_refl).
Defined.

End ShortcutsFacts.
